(** * The directory visualiser and the project scaffolder, embedded in Rocq

    A shallow embedding of [directory_svg_generator.py] (size scanner, colour
    mapper, size formatter, tree builder and the client-side search of the
    generated page) and of the path computation of
    [game-project-directory-creator.py], with the properties the
    specification states about them.

    Conventions.
    - A Python [str] and a JavaScript string are a [string] of bytes; names
      and paths are ASCII (or UTF-8 seen byte by byte).
    - A Python [int] is a [Z]; a Python [float] is an IEEE binary64 value
      ([spec_float] with precision 53 and maximal exponent 1024).
    - A Python [dict] and a JavaScript object used as a map are a [gmap].
    - A call that can raise returns a [result]. *)

From Stdlib Require Import ZArith Lia List Bool Ascii String.
From Stdlib Require Import Floats.SpecFloat.
From stdpp Require Import base option list sorting gmap strings pretty.

Local Open Scope string_scope.
Local Open Scope list_scope.
Local Open Scope Z_scope.

(** ** Outcomes of calls that may raise *)

Module Py.

(** The exceptions that occur in the modelled code. *)
Inductive exn : Set :=
| IndexError
| OverflowError
| ValueError
| ZeroDivisionError
| OSError          (* an [OSError] that is neither of the two below *)
| FileNotFoundError
| PermissionError.

Inductive result (A : Type) : Type :=
| Ok (a : A)
| Raise (e : exn).
Arguments Ok {A} a.
Arguments Raise {A} e.

Definition bind {A B} (r : result A) (k : A -> result B) : result B :=
  match r with
  | Ok a => k a
  | Raise e => Raise e
  end.

Definition is_ok {A} (r : result A) : Prop :=
  match r with Ok _ => True | Raise _ => False end.

(** A [for] loop whose body may raise: the accumulator is threaded
    through the elements, and the first exception ends the loop. *)
Fixpoint for_each {A B} (body : A -> B -> result A) (l : list B) (a : A)
  : result A :=
  match l with
  | [] => Ok a
  | x :: l' => bind (body a x) (for_each body l')
  end.

End Py.

#[global] Instance result_ret : MRet Py.result := @Py.Ok.
#[global] Instance result_bind : MBind Py.result :=
  fun A B k r => Py.bind r k.

(** ** Words and bytes *)

Module W32.

Definition modulus : Z := 2 ^ 32.
Definition wrap (x : Z) : Z := x mod modulus.
Definition add (x y : Z) : Z := wrap (x + y).
Definition not (x : Z) : Z := modulus - 1 - x.
Definition rotl (x : Z) (c : Z) : Z :=
  Z.lor (wrap (Z.shiftl x c)) (Z.shiftr x (32 - c)).

(** Little-endian bytes of a word, and back. *)
Definition to_bytes (x : Z) : list Z :=
  [Z.land x 255; Z.land (Z.shiftr x 8) 255;
   Z.land (Z.shiftr x 16) 255; Z.land (Z.shiftr x 24) 255].

Definition of_bytes (b0 b1 b2 b3 : Z) : Z :=
  Z.lor b0 (Z.lor (Z.shiftl b1 8) (Z.lor (Z.shiftl b2 16) (Z.shiftl b3 24))).

End W32.

(** ** [hashlib.md5]

    RFC 1321, on a list of bytes.  It is what [_generate_id] calls; the
    identifiers of the tree are its first four digest bytes. *)

Module MD5.

Definition K : list Z :=
  [ 3614090360; 3905402710; 606105819; 3250441966; 4118548399; 1200080426;
    2821735955; 4249261313; 1770035416; 2336552879; 4294925233; 2304563134;
    1804603682; 4254626195; 2792965006; 1236535329; 4129170786; 3225465664;
    643717713; 3921069994; 3593408605; 38016083; 3634488961; 3889429448;
    568446438; 3275163606; 4107603335; 1163531501; 2850285829; 4243563512;
    1735328473; 2368359562; 4294588738; 2272392833; 1839030562; 4259657740;
    2763975236; 1272893353; 4139469664; 3200236656; 681279174; 3936430074;
    3572445317; 76029189; 3654602809; 3873151461; 530742520; 3299628645;
    4096336452; 1126891415; 2878612391; 4237533241; 1700485571; 2399980690;
    4293915773; 2240044497; 1873313359; 4264355552; 2734768916; 1309151649;
    4149444226; 3174756917; 718787259; 3951481745 ].

Definition S : list Z :=
  [ 7; 12; 17; 22; 7; 12; 17; 22; 7; 12; 17; 22; 7; 12; 17; 22;
    5; 9; 14; 20; 5; 9; 14; 20; 5; 9; 14; 20; 5; 9; 14; 20;
    4; 11; 16; 23; 4; 11; 16; 23; 4; 11; 16; 23; 4; 11; 16; 23;
    6; 10; 15; 21; 6; 10; 15; 21; 6; 10; 15; 21; 6; 10; 15; 21 ].

Record state := St { sa : Z; sb : Z; sc : Z; sd : Z }.

Definition init : state :=
  St 1732584193 4023233417 2562383102 271733878.

(** The message with its padding: a [0x80] byte, zeros up to 56 modulo
    64, and the bit length as eight little-endian bytes. *)
Definition pad (msg : list Z) : list Z :=
  let len := Z.of_nat (length msg) in
  let zeros := Z.to_nat ((55 - len) mod 64) in
  let bits := 8 * len in
  msg ++ [128] ++ repeat 0 zeros
      ++ W32.to_bytes (W32.wrap bits)
      ++ W32.to_bytes (W32.wrap (Z.shiftr bits 32)).

Fixpoint words (bs : list Z) : list Z :=
  match bs with
  | b0 :: b1 :: b2 :: b3 :: rest => W32.of_bytes b0 b1 b2 b3 :: words rest
  | _ => []
  end.

Fixpoint chunks (fuel : nat) (ws : list Z) : list (list Z) :=
  match fuel, ws with
  | O, _ | _, [] => []
  | Datatypes.S fuel', _ => firstn 16 ws :: chunks fuel' (skipn 16 ws)
  end.

Definition round (m : list Z) (st : state) (i : Z) : state :=
  let '(St a b c d) := st in
  let '(f, g) :=
    if i <? 16 then (Z.lor (Z.land b c) (Z.land (W32.not b) d), i)
    else if i <? 32 then
      (Z.lor (Z.land d b) (Z.land (W32.not d) c), (5 * i + 1) mod 16)
    else if i <? 48 then (Z.lxor b (Z.lxor c d), (3 * i + 5) mod 16)
    else (Z.lxor c (Z.lor b (W32.not d)), (7 * i) mod 16) in
  let n := Z.to_nat i in
  let f' := W32.add (W32.add (W32.add f a) (nth n K 0)) (nth (Z.to_nat g) m 0) in
  St d (W32.add b (W32.rotl f' (nth n S 0))) b c.

Definition process (st : state) (m : list Z) : state :=
  let st' := fold_left (round m) (map Z.of_nat (seq 0 64)) st in
  St (W32.add (sa st) (sa st')) (W32.add (sb st) (sb st'))
     (W32.add (sc st) (sc st')) (W32.add (sd st) (sd st')).

Definition digest (msg : list Z) : list Z :=
  let ws := words (pad msg) in
  let st := fold_left process (chunks (length ws) ws) init in
  W32.to_bytes (sa st) ++ W32.to_bytes (sb st)
    ++ W32.to_bytes (sc st) ++ W32.to_bytes (sd st).

End MD5.

(** ** Strings *)

Module Str.

Definition bytes (s : string) : list Z :=
  map (fun c => Z.of_N (N_of_ascii c)) (list_ascii_of_string s).

Definition hex_digit (d : Z) : string :=
  String (nth (Z.to_nat d)
            (list_ascii_of_string "0123456789abcdef") "?"%char) "".

(** Two lower-case hexadecimal digits of a byte. *)
Definition hex_byte (b : Z) : string :=
  hex_digit (b / 16) +:+ hex_digit (b mod 16).

Definition hex_bytes (bs : list Z) : string :=
  fold_right (fun b acc => hex_byte b +:+ acc) "" bs.

End Str.

(** [hashlib.md5(s.encode()).hexdigest()] *)
Definition md5_hexdigest (s : string) : string :=
  Str.hex_bytes (MD5.digest (Str.bytes s)).

(** ** Python floats

    IEEE binary64, with the operations of [SpecFloat]; every operation
    rounds to nearest, ties to even, as the hardware does. *)

Module F64.

Definition prec : Z := 53.
Definition emax : Z := 1024.

Definition add := SFadd prec emax.
Definition sub := SFsub prec emax.
Definition mul := SFmul prec emax.
Definition div := SFdiv prec emax.
Definition ltb := SFltb.
Definition leb := SFleb.

(** The float nearest to an integer; infinite when the integer is out of
    range. *)
Definition nearest (n : Z) : spec_float :=
  binary_normalize prec emax n 0 false.

(** [float(n)], also the implicit conversion of an [int] operand in mixed
    arithmetic: "int too large to convert to float" beyond the range. *)
Definition of_int (n : Z) : Py.result spec_float :=
  match nearest n with
  | S754_infinity _ => Py.Raise Py.OverflowError
  | x => Py.Ok x
  end.

(** [int(x)]: truncation toward zero; raises on an infinity or a NaN. *)
Definition to_int (x : spec_float) : Py.result Z :=
  match x with
  | S754_zero _ => Py.Ok 0
  | S754_finite s m e =>
      let a := if 0 <=? e then Z.pos m * 2 ^ e else Z.pos m / 2 ^ (- e) in
      Py.Ok (if s then - a else a)
  | S754_infinity _ => Py.Raise Py.OverflowError
  | S754_nan => Py.Raise Py.ValueError
  end.

Definition half : spec_float := S754_finite false 4503599627370496 (-53).
Definition zero : spec_float := S754_zero false.
Definition one : spec_float := S754_finite false 4503599627370496 (-52).
Definition two : spec_float := S754_finite false 4503599627370496 (-51).

(** [a / b] on two [int]s: the float nearest to the exact quotient. *)
Definition truediv (a b : Z) : Py.result spec_float :=
  match a, b with
  | _, Z0 => Py.Raise Py.ZeroDivisionError
  | Z0, _ => Py.Ok zero
  | _, _ =>
      match SFdiv prec emax
              (S754_finite (a <? 0) (Z.to_pos (Z.abs a)) 0)
              (S754_finite (b <? 0) (Z.to_pos (Z.abs b)) 0) with
      | S754_infinity _ => Py.Raise Py.OverflowError
      | x => Py.Ok x
      end
  end.

(** Half-to-even rounding of [num / den] to an integer, [den > 0]. *)
Definition round_half_even (num den : Z) : Z :=
  let q := num / den in
  let r := num mod den in
  match 2 * r ?= den with
  | Lt => q
  | Gt => q + 1
  | Eq => if Z.even q then q else q + 1
  end.

(** The number of hundredths nearest to the (exact) value of a finite
    float, ties to even: the decimal that [round(x, 2)] selects. *)
Definition hundredths (x : spec_float) : option Z :=
  match x with
  | S754_zero _ => Some 0
  | S754_finite s m e =>
      let k := if 0 <=? e then 100 * Z.pos m * 2 ^ e
               else round_half_even (100 * Z.pos m) (2 ^ (- e)) in
      Some (if s then - k else k)
  | _ => None
  end.

(** A count of hundredths written the way Python prints the float that
    stands for it: the integer part, a point, and one or two decimals
    ("1.0", "1.5", "1.46"). *)
Definition decimal2 (k : Z) : string :=
  let a := Z.abs k in
  let frac := a mod 100 in
  (if k <? 0 then "-" else "") +:+ pretty (a / 100) +:+ "." +:+
  (if frac mod 10 =? 0 then pretty (frac / 10)
   else pretty (frac / 10) +:+ pretty (frac mod 10)).

(** [str(round(x, 2))].  [round] returns the float nearest to the selected
    decimal and [str] prints the shortest decimal that reads back as that
    float, which is the selected decimal itself as long as it has at most
    15 significant digits (below 10^13 in magnitude); beyond, Python would
    switch to more digits or to exponent notation, which is not modelled. *)
Definition str_round2 (x : spec_float) : string :=
  match hundredths x with
  | Some k => decimal2 k
  | None =>
      match x with
      | S754_infinity true => "-inf"
      | S754_infinity false => "inf"
      | _ => "nan"
      end
  end.

End F64.

(** ** The size formatter *)

Definition size_names : list string := ["B"; "KB"; "MB"; "GB"; "TB"].

(** [int(math.floor(math.log(size_bytes, 1024)))] for a positive integer.
    CPython computes the quotient of two float logarithms.  Its floor is
    that of the exact logarithm, unless [size_bytes] is so close below a
    power of 1024 that the float logarithm is that of the power itself:
    below 1024^5 these are the three sizes 1024^5 - 3 .. 1024^5 - 1, for
    which the quotient is 5.0.  (From 1024^5 on the exact floor is used; it
    is 5 or more there, as the floor of the quotient is.) *)
Definition floor_log1024 (size_bytes : Z) : Z :=
  if (1024 ^ 5 - 3 <=? size_bytes) && (size_bytes <? 1024 ^ 5) then 5
  else Z.log2 size_bytes / 10.

(** The unit of the specification for the index [i]: "binary units: B, KB,
    MB, GB, TB". *)
Definition spec_unit (i : Z) : string :=
  match i with
  | 0 => "B"
  | 1 => "KB"
  | 2 => "MB"
  | 3 => "GB"
  | _ => "TB"
  end.

(** [math.pow(1024, i)]: a power of two, hence exact, or "math range
    error". *)
Definition math_pow_1024 (i : Z) : Py.result spec_float :=
  match F64.nearest (1024 ^ i) with
  | S754_infinity _ => Py.Raise Py.OverflowError
  | x => Py.Ok x
  end.

(** [size_names[i]] for [i >= 0] *)
Definition size_name (i : Z) : Py.result string :=
  match size_names !! Z.to_nat i with
  | Some name => Py.Ok name
  | None => Py.Raise Py.IndexError
  end.

(** [format_size], for [size_bytes >= 0] (a negative argument makes
    [math.log] raise). *)
Definition format_size (size_bytes : Z) : Py.result string :=
  if size_bytes =? 0 then Py.Ok "0 B"
  else if size_bytes <? 0 then Py.Raise Py.ValueError
  else
    let i := floor_log1024 size_bytes in
    p ← math_pow_1024 i;
    x ← F64.of_int size_bytes;
    let s := F64.str_round2 (F64.div x p) in
    name ← size_name i;
    Py.Ok (s +:+ " " +:+ name).


(** ** The colour mapper *)

(** [self.min_dir_size] starts as [float('inf')] and becomes an [int] with
    the first non-empty directory. *)
Inductive bound : Set :=
| Inf
| Fin (n : Z).

Definition rgb : Set := (Z * Z * Z)%type.

Definition red (c : rgb) : Z := fst (fst c).
Definition green (c : rgb) : Z := snd (fst c).
Definition blue (c : rgb) : Z := snd c.

Definition MIN_COLOR : rgb := (0, 128, 0).
Definition MID_COLOR : rgb := (255, 255, 0).
Definition MAX_COLOR : rgb := (200, 0, 0).

(** The attributes of the generator that the colour mapper reads. *)
Record ramp := Ramp {
  min_color : rgb;
  mid_color : rgb;
  max_color : rgb;
  min_dir_size : bound;
  max_dir_size : Z
}.

(** The digits of a positive number in base 16, least significant last. *)
Fixpoint hex_pos (fuel : nat) (n : Z) : string :=
  match fuel with
  | O => ""
  | S fuel' =>
      if n <? 16 then Str.hex_digit n
      else hex_pos fuel' (n / 16) +:+ Str.hex_digit (n mod 16)
  end.

(** [f"{n:02x}"]: at least two characters, the sign counted, zero filled. *)
Definition format_02x (n : Z) : string :=
  if n <? 0 then "-" +:+ hex_pos (Z.to_nat (Z.log2 (- n)) + 1) (- n)
  else if n <? 16 then "0" +:+ Str.hex_digit n
  else hex_pos (Z.to_nat (Z.log2 n) + 1) n.

Definition hex_color (r g b : Z) : string :=
  "#" +:+ format_02x r +:+ format_02x g +:+ format_02x b.

(** [int(base + factor * (hi - lo))], the shape of every channel. *)
Definition channel (base : Z) (factor : spec_float) (hi lo : Z)
  : Py.result Z :=
  d ← F64.of_int (hi - lo);
  b ← F64.of_int base;
  F64.to_int (F64.add b (F64.mul factor d)).

(** [max(0, min(1, x))]; the [int]s 0 and 1 it can return are kept as the
    floats 0.0 and 1.0, which the arithmetic that follows cannot tell
    apart. *)
Definition clamp01 (x : spec_float) : spec_float :=
  let y := if F64.ltb x F64.one then x else F64.one in
  if F64.ltb F64.zero y then y else F64.zero.

Definition degenerate (self : ramp) : bool :=
  match min_dir_size self with
  | Inf => true
  | Fin lo => max_dir_size self <=? lo
  end.

(** [normalized_size] of the non-degenerate branch *)
Definition normalized (lo hi size : Z) : Py.result spec_float :=
  x ← F64.truediv (size - lo) (hi - lo);
  Py.Ok (clamp01 x).

Definition get_color_for_size (self : ramp) (size : Z) : Py.result string :=
  let '(lo_c, mid_c, hi_c) := (min_color self, mid_color self, max_color self) in
  match min_dir_size self with
  | Inf => Py.Ok (hex_color (red mid_c) (green mid_c) (blue mid_c))
  | Fin lo =>
      if max_dir_size self <=? lo
      then Py.Ok (hex_color (red mid_c) (green mid_c) (blue mid_c))
      else
        normalized_size ← normalized lo (max_dir_size self) size;
        if F64.leb normalized_size F64.half then
          let factor := F64.mul normalized_size F64.two in
          r ← channel (red lo_c) factor (red mid_c) (red lo_c);
          g ← channel (green lo_c) factor (green mid_c) (green lo_c);
          b ← channel (blue lo_c) factor (blue mid_c) (blue lo_c);
          Py.Ok (hex_color r g b)
        else
          let factor := F64.mul (F64.sub normalized_size F64.half) F64.two in
          r ← channel (red mid_c) factor (red hi_c) (red mid_c);
          g ← channel (green mid_c) factor (green hi_c) (green mid_c);
          b ← channel (blue mid_c) factor (blue hi_c) (blue lo_c);
          Py.Ok (hex_color r g b)
  end.

Definition default_ramp (lo : bound) (hi : Z) : ramp :=
  Ramp MIN_COLOR MID_COLOR MAX_COLOR lo hi.

(** The condition of the first branch, [max_dir_size <= min_dir_size or
    min_dir_size == float('inf')]: an [int] is below the infinity. *)
Definition max_le_min (self : ramp) : Prop :=
  match min_dir_size self with
  | Inf => True
  | Fin lo => max_dir_size self <= lo
  end.

(** The two-segment ramp in the words of the specification: below the
    middle every channel goes from the low colour to the mid colour, above
    it from the mid colour to the high colour. *)
Definition lerp (from to : Z) (factor : spec_float) : Py.result Z :=
  channel from factor to from.

Definition lerp_rgb (from to : rgb) (factor : spec_float) : Py.result string :=
  r ← lerp (red from) (red to) factor;
  g ← lerp (green from) (green to) factor;
  b ← lerp (blue from) (blue to) factor;
  Py.Ok (hex_color r g b).

Definition two_segment_color (self : ramp) (lo size : Z) : Py.result string :=
  t ← normalized lo (max_dir_size self) size;
  if F64.leb t F64.half
  then lerp_rgb (min_color self) (mid_color self) (F64.mul t F64.two)
  else lerp_rgb (mid_color self) (max_color self)
                (F64.mul (F64.sub t F64.half) F64.two).


(** ** Paths ([posixpath]) *)

Module OsPath.

Definition is_sep (c : ascii) : bool := Ascii.eqb c "/".

Definition startswith_sep (s : string) : bool :=
  match s with
  | String c _ => is_sep c
  | EmptyString => false
  end.

Fixpoint endswith_sep (s : string) : bool :=
  match s with
  | EmptyString => false
  | String c EmptyString => is_sep c
  | String _ s' => endswith_sep s'
  end.

Fixpoint has_sep (s : string) : bool :=
  match s with
  | EmptyString => false
  | String c s' => is_sep c || has_sep s'
  end.

(** [os.path.join(a, b)] *)
Definition join (a b : string) : string :=
  if startswith_sep b then b
  else if String.eqb a "" || endswith_sep a then a +:+ b
  else a +:+ "/" +:+ b.

(** [os.path.basename(p)]: what follows the last separator. *)
Fixpoint basename (p : string) : string :=
  match p with
  | EmptyString => ""
  | String c p' =>
      if has_sep p' then basename p'
      else if is_sep c then p' else p
  end.

End OsPath.

(** ** The file system under the scanned root

    A directory is what [os.listdir] gives for it: its entries in listing
    order, or the exception that listing raises.  An entry that is not a
    directory is a file, with what [os.path.getsize] gives for it.
    Symbolic links are not modelled. *)

Inductive stat : Type :=
| StSize (n : Z)
| StError (e : Py.exn).

Unset Elimination Schemes.
Inductive node : Type :=
| File (st : stat)
| Dir (listing : Py.result (list (string * node))).
Set Elimination Schemes.

Definition is_dir (d : node) : bool :=
  match d with Dir _ => true | File _ => false end.

Section NodeInduction.
Variable P : node -> Prop.
Hypothesis P_file : forall st, P (File st).
Hypothesis P_unlisted : forall e, P (Dir (Py.Raise e)).
Hypothesis P_listed :
  forall entries, Forall (fun e => P (snd e)) entries -> P (Dir (Py.Ok entries)).

Fixpoint node_induction (d : node) : P d :=
  match d with
  | File st => P_file st
  | Dir (Py.Raise e) => P_unlisted e
  | Dir (Py.Ok entries) =>
      P_listed entries
        ((fix go (es : list (string * node)) : Forall (fun e => P (snd e)) es :=
            match es with
            | [] => List.Forall_nil _
            | e :: es' =>
                List.Forall_cons _ e es' (node_induction (snd e)) (go es')
            end) entries)
  end.
End NodeInduction.

(** The names of the sub-directories and the files of a listing. *)
Definition dirnames (entries : list (string * node)) : list string :=
  map fst (List.filter (fun e => is_dir (snd e)) entries).

Definition nondirs (entries : list (string * node)) : list (string * stat) :=
  flat_map (fun e => match snd e with File st => [(fst e, st)] | Dir _ => [] end)
           entries.

(** [os.walk(top)], top-down, with the default [onerror=None]: a directory
    that cannot be listed yields nothing and is not an error.  Each file
    name comes with the outcome of [os.path.getsize] on its path. *)
Fixpoint os_walk (d : node) (top : string)
  : list (string * list string * list (string * stat)) :=
  match d with
  | Dir (Py.Ok entries) =>
      (top, dirnames entries, nondirs entries)
        :: flat_map (fun e => if is_dir (snd e)
                              then os_walk (snd e) (OsPath.join top (fst e))
                              else [])
                    entries
  | _ => []
  end.

(** ** The size scanner *)

(** The body of the inner loop: [total_size += os.path.getsize(file_path)]
    under its [except (FileNotFoundError, PermissionError): pass]. *)
Definition add_file_size (total_size : Z) (f : string * stat) : Py.result Z :=
  match snd f with
  | StSize n => Py.Ok (total_size + n)
  | StError Py.FileNotFoundError | StError Py.PermissionError => Py.Ok total_size
  | StError e => Py.Raise e
  end.

Definition calculate_dir_size (d : node) (directory : string) : Py.result Z :=
  match
    Py.for_each
      (fun total_size '(dirpath, _, filenames) =>
         Py.for_each add_file_size filenames total_size)
      (os_walk d directory) 0
  with
  | Py.Raise Py.PermissionError | Py.Raise Py.FileNotFoundError => Py.Ok 0
  | r => r
  end.

(** What the specification asks of the size: the bytes of every file below
    the directory, a file that cannot be statted counting for nothing. *)
Definition stat_bytes (st : stat) : Z :=
  match st with StSize n => n | StError _ => 0 end.

Fixpoint files_below (d : node) : list stat :=
  match d with
  | Dir (Py.Ok entries) =>
      flat_map (fun e => match snd e with
                         | File st => [st]
                         | Dir _ => files_below (snd e)
                         end) entries
  | _ => []
  end.

Definition total_bytes (d : node) : Z :=
  foldr Z.add 0 (map stat_bytes (files_below d)).

(** The stat failures that [calculate_dir_size] skips. *)
Definition stat_skipped (st : stat) : bool :=
  match st with
  | StSize _ | StError Py.FileNotFoundError | StError Py.PermissionError => true
  | StError _ => false
  end.

(** The bytes of the files listed in a directory itself, and the bytes
    below its sub-directories. *)
Definition own_bytes (entries : list (string * node)) : Z :=
  foldr Z.add 0 (map (fun f => stat_bytes (snd f)) (nondirs entries)).

Definition sub_bytes (entries : list (string * node)) : Z :=
  foldr Z.add 0
    (map (fun e => total_bytes (snd e))
         (List.filter (fun e => is_dir (snd e)) entries)).

Definition sample_dir : node :=
  Dir (Py.Ok [ ("a.txt", File (StSize 100));
               ("locked", Dir (Py.Raise Py.PermissionError));
               ("gone.tmp", File (StError Py.FileNotFoundError));
               ("sub", Dir (Py.Ok [ ("b.bin", File (StSize 2048));
                                    ("secret", File (StError Py.PermissionError));
                                    ("deep", Dir (Py.Ok [ ("c", File (StSize 7)) ])) ])) ]).

(** ** The generator object *)

(** [_generate_id]: "node_" and the first eight hexadecimal digits of the
    MD5 digest of the path. *)
Definition _generate_id (path : string) : string :=
  "node_" +:+ substring 0 8 (md5_hexdigest path).

(** A [node_data] dictionary. *)
Module Node.
Record t := Build {
  id : string;
  name : string;
  path : string;
  size : Z;
  formatted_size : string;
  children : list string;
  color : string;
  parent : option string
}.

(** [node_data['children'].append(child_id)] *)
Definition append_child (child_id : string) (n : t) : t :=
  Build (id n) (name n) (path n) (size n) (formatted_size n)
        (children n ++ [child_id]) (color n) (parent n).
End Node.

(** The attributes of [self] that the scan and the tree builder use.  The
    dictionaries of [directory_tree] are objects that the code keeps
    changing after it has stored them: [heap] holds the objects in the
    order of their creation, and [directory_tree] maps an identifier to the
    position of the object stored under it. *)
Record generator := Generator {
  root_dir : string;
  colors : ramp;
  dir_sizes : gmap string Z;
  heap : list Node.t;
  directory_tree : gmap string nat
}.

(** [__init__] *)
Definition DirectorySVGGenerator (root_dir : string) : generator :=
  Generator root_dir (default_ramp Inf 1) ∅ [] ∅.

(** The node mapping as [json.dumps(self.directory_tree)] sees it. *)
Definition tree_data (self : generator) : gmap string Node.t :=
  omap (fun ref => heap self !! ref) (directory_tree self).

(** The bookkeeping of [scan_directory_sizes] for one directory. *)
Definition observe_size (dir_size : Z) (c : ramp) : ramp :=
  let lo := if 0 <? dir_size
            then match min_dir_size c with
                 | Inf => Fin dir_size
                 | Fin m => Fin (Z.min m dir_size)
                 end
            else min_dir_size c in
  Ramp (min_color c) (mid_color c) (max_color c) lo
       (Z.max (max_dir_size c) dir_size).

Definition record_size (directory : string) (dir_size : Z) (self : generator)
  : generator :=
  Generator (root_dir self) (observe_size dir_size (colors self))
            (<[directory := dir_size]> (dir_sizes self))
            (heap self) (directory_tree self).

(** [scan_directory_sizes].  The argument [d] is what the file system has at
    the path [directory]; the loop over [subdirs] is the loop over the
    entries that are directories.  The recursion limit of the interpreter
    is not modelled: the function is that of a run which stays within
    it. *)
Fixpoint scan_directory_sizes (d : node) (directory : string) (self : generator)
  : Py.result generator :=
  match d with
  | File _ => Py.Raise Py.OSError
  | Dir (Py.Raise Py.PermissionError) | Dir (Py.Raise Py.FileNotFoundError) =>
      Py.Ok self
  | Dir (Py.Raise e) => Py.Raise e
  | Dir (Py.Ok entries) =>
      dir_size ← calculate_dir_size d directory;
      Py.for_each
        (fun self e =>
           if is_dir (snd e)
           then scan_directory_sizes (snd e) (OsPath.join directory (fst e)) self
           else Py.Ok self)
        entries (record_size directory dir_size self)
  end.

(** The order of Python on [str], code point by code point. *)
Definition str_le (a b : string) : Prop := String.leb a b = true.

#[global] Instance str_le_dec (a b : string) : Decision (str_le a b).
Proof. unfold str_le. apply _. Defined.

(** [sorted] on a list of names, and on a list of things under their
    names. *)
Definition sorted (names : list string) : list string :=
  merge_sort str_le names.

Definition by_name {A} (a b : string * A) : Prop := str_le (fst a) (fst b).

#[global] Instance by_name_dec {A} (a b : string * A) : Decision (by_name a b).
Proof. unfold by_name. apply _. Defined.

Definition sorted_by_name {A} (l : list (string * A)) : list (string * A) :=
  merge_sort by_name l.

(** The first part of [build_directory_tree]: the new [node_data], stored
    under its identifier. *)
Definition create_node (directory : string) (parent_id : option string)
    (self : generator) : Py.result (nat * generator) :=
  let dir_id := _generate_id directory in
  let dir_name := OsPath.basename directory in
  let dir_size := default 0 (dir_sizes self !! directory) in
  formatted ← format_size dir_size;
  color ← get_color_for_size (colors self) dir_size;
  let node_data :=
    Node.Build dir_id dir_name directory dir_size formatted [] color parent_id in
  let ref := length (heap self) in
  Py.Ok (ref,
         Generator (root_dir self) (colors self) (dir_sizes self)
                   (heap self ++ [node_data])
                   (<[dir_id := ref]> (directory_tree self))).

(** [node_data['children'].append(subdir_id)] on the object at [ref] *)
Definition append_child (ref : nat) (subdir_id : string) (self : generator)
  : generator :=
  Generator (root_dir self) (colors self) (dir_sizes self)
            (alter (Node.append_child subdir_id) ref (heap self))
            (directory_tree self).

Definition call : Type :=
  string -> option string -> generator -> Py.result generator.

(** The body of the loop of [build_directory_tree]; the name of the
    sub-directory comes with what the recursive call does at its path. *)
Definition build_child (directory : string) (ref : nat) (dir_id : string)
    (self : generator) (sub : string * call) : Py.result generator :=
  let '(subdir, build) := sub in
  let subdir_path := OsPath.join directory subdir in
  let subdir_id := _generate_id subdir_path in
  self ← build subdir_path (Some dir_id) self;
  Py.Ok (append_child ref subdir_id self).

Definition build_children (directory : string) (ref : nat) (dir_id : string)
    (calls : list (string * call)) (self : generator) : Py.result generator :=
  Py.for_each (build_child directory ref dir_id) (sorted_by_name calls) self.

(** [build_directory_tree]; the returned [dir_id] is [_generate_id
    directory] and is left out. *)
Fixpoint build_directory_tree (d : node) (directory : string)
    (parent_id : option string) (self : generator) : Py.result generator :=
  '(ref, self) ← create_node directory parent_id self;
  match d with
  | File _ => Py.Raise Py.OSError
  | Dir (Py.Raise Py.PermissionError) | Dir (Py.Raise Py.FileNotFoundError) =>
      Py.Ok self
  | Dir (Py.Raise e) => Py.Raise e
  | Dir (Py.Ok entries) =>
      build_children directory ref (_generate_id directory)
        (flat_map (fun e => if is_dir (snd e)
                            then [(fst e, build_directory_tree (snd e))]
                            else [])
                  entries)
        self
  end.

(** The first two steps of [save_svg], on a new generator. *)
Definition scan_and_build (d : node) (root_dir : string)
  : Py.result (gmap string Node.t) :=
  self ← scan_directory_sizes d root_dir (DirectorySVGGenerator root_dir);
  self ← build_directory_tree d root_dir None self;
  Py.Ok (tree_data self).

(** The scenario of the specification: a root with the sub-directories [B]
    and [A], listed in that order, [A] holding one file of 2048 bytes. *)
Definition scenario_root : node :=
  Dir (Py.Ok [ ("B", Dir (Py.Ok []));
               ("A", Dir (Py.Ok [ ("data.bin", File (StSize 2048)) ])) ]).

(** *** What the tree builder is to produce *)

(** The directories that the builder visits below a root, each with its
    path and the identifier of its parent. *)
Fixpoint dirs_under (d : node) (directory : string) (parent_id : option string)
  : list (node * string * option string) :=
  (d, directory, parent_id)
    :: match d with
       | Dir (Py.Ok entries) =>
           flat_map (fun e => if is_dir (snd e)
                              then dirs_under (snd e)
                                     (OsPath.join directory (fst e))
                                     (Some (_generate_id directory))
                              else [])
                    entries
       | _ => []
       end.

(** The identifiers of the directories below a root. *)
Definition dir_ids (d : node) (directory : string) (parent_id : option string)
  : list string :=
  map (fun t => _generate_id (snd (fst t))) (dirs_under d directory parent_id).

Definition subdir_names (d : node) : list string :=
  match d with
  | Dir (Py.Ok entries) => dirnames entries
  | _ => []
  end.

Definition text (r : Py.result string) : string :=
  match r with Py.Ok s => s | Py.Raise _ => "" end.

(** The finished [node_data] of a directory.  (Where [format_size] or
    [get_color_for_size] raises, the builder raises and there is no
    node.) *)
Definition expected_node (sizes : gmap string Z) (c : ramp)
    (t : node * string * option string) : Node.t :=
  let '(d, directory, parent_id) := t in
  let dir_size := default 0 (sizes !! directory) in
  Node.Build (_generate_id directory) (OsPath.basename directory) directory
    dir_size (text (format_size dir_size))
    (map (fun subdir => _generate_id (OsPath.join directory subdir))
         (sorted (subdir_names d)))
    (text (get_color_for_size c dir_size)) parent_id.

(** The identifiers stored for a run of new objects, the first of them at
    position [base] of the heap. *)
Fixpoint install (base : nat) (new : list Node.t) (m : gmap string nat)
  : gmap string nat :=
  match new with
  | [] => m
  | o :: new' => install (S base) new' (<[Node.id o := base]> m)
  end.

(** Two sub-directories of the scanned root whose paths have the same
    eight-digit digest prefix. *)
Definition colliding_root : node :=
  Dir (Py.Ok [ ("d52557", Dir (Py.Ok [])); ("d119253", Dir (Py.Ok [])) ]).


(** The node of a directory before the loop over its sub-directories. *)
Definition new_node (sizes : gmap string Z) (c : ramp) (directory : string)
    (parent_id : option string) : Node.t :=
  let dir_size := default 0 (sizes !! directory) in
  Node.Build (_generate_id directory) (OsPath.basename directory) directory
    dir_size (text (format_size dir_size)) []
    (text (get_color_for_size c dir_size)) parent_id.

(** [self'] is [self] with the objects [new] created after those of
    [self] and stored under their identifiers. *)
Definition extends (self self' : generator) (new : list Node.t) : Prop :=
  root_dir self' = root_dir self /\
  colors self' = colors self /\
  dir_sizes self' = dir_sizes self /\
  heap self' = heap self ++ new /\
  directory_tree self' = install (length (heap self)) new (directory_tree self).

(** What a call of the builder on the directory [d] has to do. *)
Definition builds (d : node) (c : call) : Prop :=
  forall directory parent_id self self',
    c directory parent_id self = Py.Ok self' ->
    exists new,
      extends self self' new /\
      new ≡ₚ map (expected_node (dir_sizes self) (colors self))
                 (dirs_under d directory parent_id).

Definition colliding_tree : gmap string Node.t :=
  Eval vm_compute in
    match scan_and_build colliding_root "/r" with
    | Py.Ok m => m
    | Py.Raise _ => ∅
    end.

Definition colliding_root_node : Node.t :=
  Eval vm_compute in
    match colliding_tree !! _generate_id "/r" with
    | Some n => n
    | None => new_node ∅ (default_ramp Inf 1) "" None
    end.

Definition scenario_tree : gmap string Node.t :=
  Eval vm_compute in
    match scan_and_build scenario_root "/r" with
    | Py.Ok m => m
    | Py.Raise _ => ∅
    end.

Definition scenario_root_node : Node.t :=
  Eval vm_compute in
    match scenario_tree !! _generate_id "/r" with
    | Some n => n
    | None => new_node ∅ (default_ramp Inf 1) "" None
    end.


(** ** The page: search in the generated script

    The state of the script: [treeData], the parsed JSON of the node
    mapping, of which the search reads [name], [parent] and [children] and
    writes [highlight]; and [nodeStates].  The [highlight] flags are kept in
    a map of their own, by identifier.  [Object.keys(treeData)] is the list
    [keys].  An identifier is never the empty string, so that
    [while (parentId)] asks whether there is a parent. *)

Module Client.

Inductive outcome (A : Type) : Type :=
| Done (a : A)
| TypeError      (* a property of [undefined] is read or written *)
| OutOfFuel.     (* the loop was cut off *)
Arguments Done {A} a.
Arguments TypeError {A}.
Arguments OutOfFuel {A}.

Definition bind {A B} (r : outcome A) (k : A -> outcome B) : outcome B :=
  match r with
  | Done a => k a
  | TypeError => TypeError
  | OutOfFuel => OutOfFuel
  end.

(** [l.forEach(x => ...)] on a state *)
Fixpoint for_each {A B} (body : A -> B -> outcome A) (l : list B) (a : A)
  : outcome A :=
  match l with
  | [] => Done a
  | x :: l' => bind (body a x) (for_each body l')
  end.

Record tree_node := TreeNode {
  name : string;
  parent : option string;
  children : list string
}.

Record node_state := NodeState { expanded : bool; visible : bool }.

Record document := Document {
  treeData : gmap string tree_node;
  keys : list string;
  rootId : option string
}.

Record state := State {
  nodeStates : gmap string node_state;
  highlight : gmap string bool
}.

(** [String.prototype.toLowerCase], on ASCII *)
Definition lower (c : ascii) : ascii :=
  let n := N_of_ascii c in
  if ((65 <=? n) && (n <=? 90))%N then ascii_of_N (n + 32) else c.

Fixpoint toLowerCase (s : string) : string :=
  match s with
  | EmptyString => EmptyString
  | String c s' => String (lower c) (toLowerCase s')
  end.

(** [s.trim() === ''], on ASCII: nothing but white space *)
Definition is_space (c : ascii) : bool :=
  let n := N_of_ascii c in
  ((n =? 32) || ((9 <=? n) && (n <=? 13)))%N.

Fixpoint blank (s : string) : bool :=
  match s with
  | EmptyString => true
  | String c s' => is_space c && blank s'
  end.

(** [s.includes(t)] *)
Fixpoint includes (s t : string) : bool :=
  String.prefix t s
  || match s with
     | EmptyString => false
     | String _ s' => includes s' t
     end.

(** [nodeStates[id].visible = v] and [nodeStates[id].expanded = v] *)
Definition set_visible (id : string) (v : bool) (st : state) : outcome state :=
  match nodeStates st !! id with
  | Some s =>
      Done (State (<[id := NodeState (expanded s) v]> (nodeStates st))
                  (highlight st))
  | None => TypeError
  end.

Definition set_expanded (id : string) (v : bool) (st : state) : outcome state :=
  match nodeStates st !! id with
  | Some s =>
      Done (State (<[id := NodeState v (visible s)]> (nodeStates st))
                  (highlight st))
  | None => TypeError
  end.

(** [treeData[id].highlight = v], for an [id] of [treeData] *)
Definition set_highlight (id : string) (v : bool) (st : state) : state :=
  State (nodeStates st) (<[id := v]> (highlight st)).

(** The body of the first loop of [searchNodes] *)
Definition reset_node (st : state) (id : string) : outcome state :=
  bind (set_visible id false (set_highlight id false st))
       (set_expanded id false).

(** What a condition [if (x)] or [while (x)] lets through, for an
    identifier or [null]/[undefined]: the empty string is falsy too. *)
Definition truthy (x : option string) : option string :=
  match x with
  | Some s => if String.eqb s "" then None else Some s
  | None => None
  end.

(** [while (parentId) { ... }] *)
Fixpoint expand_ancestors (fuel : nat) (doc : document)
    (parentId : option string) (st : state) : outcome state :=
  match truthy parentId with
  | None => Done st
  | Some p =>
      match fuel with
      | O => OutOfFuel
      | S fuel' =>
          bind (set_expanded p true st) (fun st =>
          bind (set_visible p true st) (fun st =>
          match treeData doc !! p with
          | Some n => expand_ancestors fuel' doc (parent n) st
          | None => TypeError
          end))
      end
  end.

Definition matches (searchTerm : string) (n : tree_node) : bool :=
  includes (toLowerCase (name n)) searchTerm.

(** The body of the second loop of [searchNodes] *)
Definition search_node (fuel : nat) (doc : document) (searchTerm : string)
    (st : state) (id : string) : outcome state :=
  match treeData doc !! id with
  | None => TypeError
  | Some node =>
      if matches searchTerm node then
        bind (set_expanded id true (set_highlight id true st)) (fun st =>
        bind (set_visible id true st) (fun st =>
        expand_ancestors fuel doc (parent node) st))
      else Done (set_highlight id false st)
  end.

(** The branch of the empty search term *)
Definition show_root (doc : document) (st : state) : outcome state :=
  match truthy (rootId doc) with
  | None => Done st
  | Some r =>
      bind (set_expanded r true st) (fun st =>
      bind (set_visible r true st) (fun st =>
      match treeData doc !! r with
      | Some root =>
          for_each (fun st childId => set_visible childId true st)
                   (children root) st
      | None => TypeError
      end))
  end.

Definition searchNodes (fuel : nat) (doc : document) (searchTerm : string)
    (st : state) : outcome state :=
  bind (for_each reset_node (keys doc) st) (fun st =>
  if blank searchTerm then show_root doc st
  else for_each (search_node fuel doc searchTerm) (keys doc) st).

(** The listener of the search box: [searchNodes(e.target.value
    .toLowerCase())]. *)
Definition on_search_input (fuel : nat) (doc : document) (value : string)
    (st : state) : outcome state :=
  searchNodes fuel doc (toLowerCase value) st.

(** [x] is the node [m] or one of its ancestors. *)
Inductive up (doc : document) : string -> string -> Prop :=
| up_self (m : string) : up doc m m
| up_parent (x m p : string) (n : tree_node) :
    treeData doc !! m = Some n -> parent n = Some p -> up doc x p ->
    up doc x m.

(** [x] is a match of the search or an ancestor of one. *)
Definition reaches_match (doc : document) (searchTerm : string) (x : string)
  : Prop :=
  exists m n, m ∈ keys doc /\ treeData doc !! m = Some n /\
              matches searchTerm n = true /\ up doc x m.

(** What the search relies on: the keys are those of [treeData], every
    parent, every child of the root and the root are among them,
    [nodeStates] has an entry for each, and no key is the empty string. *)
Record well_formed (doc : document) (st : state) : Prop := {
  wf_keys : forall id, id ∈ keys doc <-> is_Some (treeData doc !! id);
  wf_parent : forall id n p,
      treeData doc !! id = Some n -> parent n = Some p -> p ∈ keys doc;
  wf_root : forall r, rootId doc = Some r -> r ∈ keys doc;
  wf_root_children : forall r n c,
      rootId doc = Some r -> treeData doc !! r = Some n -> c ∈ children n ->
      c ∈ keys doc;
  wf_states : forall id, id ∈ keys doc -> is_Some (nodeStates st !! id);
  wf_ids : forall id, id ∈ keys doc -> id <> ""
}.

Definition ON : node_state := NodeState true true.
Definition OFF : node_state := NodeState false false.

(** The state that the empty search leaves for a node. *)
Definition default_state (doc : document) (id : string) : node_state :=
  match rootId doc with
  | None => OFF
  | Some r =>
      let is_root := bool_decide (id = r) in
      let is_child :=
        match treeData doc !! r with
        | Some root => bool_decide (id ∈ children root)
        | None => false
        end in
      NodeState is_root (is_root || is_child)
  end.

(** The scenario of the specification: [root -> {Idea, Story}],
    [Story -> {Plot}]. *)
Definition scenario : document :=
  Document
    (list_to_map
       [ ("root", TreeNode "root" None ["idea"; "story"]);
         ("idea", TreeNode "Idea" (Some "root") []);
         ("story", TreeNode "Story" (Some "root") ["plot"]);
         ("plot", TreeNode "Plot" (Some "story") []) ])
    ["root"; "idea"; "story"; "plot"]
    (Some "root").

(** The state after the script has loaded. *)
Definition scenario_loaded : state :=
  State
    (list_to_map
       [ ("root", NodeState true true); ("idea", NodeState false true);
         ("story", NodeState false true); ("plot", NodeState false false) ])
    ∅.

Definition scenario_rank (id : string) : nat :=
  if String.eqb id "root" then 0
  else if String.eqb id "plot" then 2 else 1.

(** A directory with a space in its name. *)
Definition spaced : document :=
  Document
    (list_to_map
       [ ("root", TreeNode "root" None ["games"]);
         ("games", TreeNode "My Games" (Some "root") []) ])
    ["root"; "games"]
    (Some "root").

Definition spaced_loaded : state :=
  State (list_to_map [ ("root", NodeState true true);
                       ("games", NodeState false true) ]) ∅.

(** *** The script at load time *)

(** [Object.keys(treeData).find(id => !treeData[id].parent)] *)
Fixpoint find_root (data : gmap string tree_node) (ids : list string)
  : outcome (option string) :=
  match ids with
  | [] => Done None
  | id :: ids' =>
      match data !! id with
      | None => TypeError
      | Some n =>
          match truthy (parent n) with
          | None => Done (Some id)
          | Some _ => find_root data ids'
          end
      end
  end.

(** [nodeStates[id] = { expanded: id === rootId, visible: false }] *)
Definition new_state (r : option string) (m : gmap string node_state)
    (id : string) : gmap string node_state :=
  <[id := NodeState (bool_decide (r = Some id)) false]> m.

(** The script from [const nodeStates = {}] to the first [renderTree()],
    for the [treeData] with the keys [ks]: it gives the document with its
    [rootId] and the first state; no node has a [highlight] yet. *)
Definition load (data : gmap string tree_node) (ks : list string)
  : outcome (document * state) :=
  bind (find_root data ks) (fun r =>
  let st := State (fold_left (new_state r) ks ∅) ∅ in
  bind (match truthy r with
        | None => Done st
        | Some r =>
            bind (set_visible r true st) (fun st =>
            match data !! r with
            | Some root =>
                for_each (fun st childId => set_visible childId true st)
                         (children root) st
            | None => TypeError
            end)
        end)
       (fun st => Done (Document data ks r, st))).

(** *** Folding and unfolding a node *)

(** [collapseSubtree]; the recursion goes down the [children], [fuel]
    bounds its depth. *)
Fixpoint collapseSubtree (fuel : nat) (doc : document) (nodeId : string)
    (st : state) : outcome state :=
  match fuel with
  | O => OutOfFuel
  | S fuel' =>
      bind (set_expanded nodeId false st) (fun st =>
      match treeData doc !! nodeId with
      | None => TypeError
      | Some node =>
          for_each (fun st childId =>
                      bind (set_visible childId false st)
                           (collapseSubtree fuel' doc childId))
                   (children node) st
      end)
  end.

(** [toggleNode], up to its [renderTree()] *)
Definition toggleNode (fuel : nat) (doc : document) (nodeId : string)
    (st : state) : outcome state :=
  match nodeStates st !! nodeId with
  | None => TypeError
  | Some s =>
      bind (set_expanded nodeId (negb (expanded s)) st) (fun st =>
      if negb (negb (expanded s))
      then collapseSubtree fuel doc nodeId st
      else match treeData doc !! nodeId with
           | None => TypeError
           | Some node =>
               for_each (fun st childId => set_visible childId true st)
                        (children node) st
           end)
  end.

(** [x] is a child of [y], or of a child of [y], and so on. *)
Inductive below (doc : document) : string -> string -> Prop :=
| below_child (x y : string) (n : tree_node) :
    treeData doc !! y = Some n -> x ∈ children n -> below doc x y
| below_deeper (x c y : string) (n : tree_node) :
    treeData doc !! y = Some n -> c ∈ children n -> below doc x c ->
    below doc x y.

(** *** The layout *)

(** The fields that [calculateNodePositions] writes into the nodes, by
    identifier, and the nodes that it has pushed.  The counters [level]
    and [position] are natural numbers; the pixel values are integers. *)
Record layout := Layout {
  levels : gmap string nat;
  ys : gmap string Z;
  xs : gmap string Z;
  visibleNodes : list string
}.

Record gaps := Gaps { nodeWidth : Z; verticalGap : Z; horizontalGap : Z }.

(** [node.level = level; node.y = position * verticalGap + 45;
    visibleNodes.push(node)] *)
Definition place (g : gaps) (nodeId : string) (level position : nat)
    (lay : layout) : layout :=
  Layout (<[nodeId := level]> (levels lay))
         (<[nodeId := Z.of_nat position * verticalGap g + 45]> (ys lay))
         (xs lay) (visibleNodes lay ++ [nodeId]).

(** [traverseVisible]; the accumulator is the layout with the next
    [position], which the function returns. *)
Fixpoint traverseVisible (fuel : nat) (g : gaps) (doc : document) (st : state)
    (nodeId : string) (level : nat) (acc : layout * nat)
  : outcome (layout * nat) :=
  match fuel with
  | O => OutOfFuel
  | S fuel' =>
      match nodeStates st !! nodeId with
      | None => TypeError
      | Some s =>
          if negb (visible s) then Done acc
          else
            match treeData doc !! nodeId with
            | None => TypeError
            | Some node =>
                let acc1 :=
                  (place g nodeId level (snd acc) (fst acc), S (snd acc)) in
                if expanded s then
                  for_each
                    (fun acc childId =>
                       match nodeStates st !! childId with
                       | None => TypeError
                       | Some sc =>
                           if visible sc
                           then traverseVisible fuel' g doc st childId
                                                (S level) acc
                           else Done acc
                       end)
                    (children node) acc1
                else Done acc1
            end
      end
  end.

(** [Math.max(...visibleNodes.map(n => n.level), 0)]; every pushed node
    has its level. *)
Definition maxLevel (lay : layout) : nat :=
  foldr Nat.max 0%nat
        (map (fun id => default 0%nat (levels lay !! id)) (visibleNodes lay)).

(** [levelPositions] after its loop:
    [levelPositions[level] = levelPositions[level-1] + nodeWidth + horizontalGap] *)
Definition next_level (g : gaps) (lp : gmap nat Z) (level : nat) : gmap nat Z :=
  match lp !! (level - 1)%nat with
  | Some v => <[level := v + nodeWidth g + horizontalGap g]> lp
  | None => lp
  end.

Definition levelPositions (g : gaps) (max_level : nat) : gmap nat Z :=
  fold_left (next_level g) (seq 1 max_level) {[ 0%nat := 45 ]}.

(** [node.x = levelPositions[node.level]] *)
Definition set_x (lp : gmap nat Z) (lay : layout) (id : string) : layout :=
  Layout (levels lay) (ys lay)
         (match levels lay !! id ≫= (fun level => lp !! level) with
          | Some v => <[id := v]> (xs lay)
          | None => delete id (xs lay)
          end)
         (visibleNodes lay).

(** [calculateNodePositions]; the nodes keep the fields of the renderings
    before. *)
Definition calculateNodePositions (fuel : nat) (g : gaps) (doc : document)
    (st : state) (lay : layout) : outcome layout :=
  let lay0 := Layout (levels lay) (ys lay) (xs lay) [] in
  bind (match truthy (rootId doc) with
        | None => Done (lay0, 0%nat)
        | Some r => traverseVisible fuel g doc st r 0 (lay0, 0%nat)
        end)
       (fun acc =>
          let lay1 := fst acc in
          Done (fold_left (set_x (levelPositions g (maxLevel lay1)))
                          (visibleNodes lay1) lay1)).

Definition is_visible (st : state) (id : string) : bool :=
  match nodeStates st !! id with Some s => visible s | None => false end.

Definition is_expanded (st : state) (id : string) : bool :=
  match nodeStates st !! id with Some s => expanded s | None => false end.

(** From the visible node [x] at the level [l], going down to visible
    children of expanded nodes leads to [y] at the level [k]. *)
Inductive visits (doc : document) (st : state)
  : string -> nat -> string -> nat -> Prop :=
| visits_self (x : string) (l : nat) :
    is_visible st x = true -> visits doc st x l x l
| visits_down (x c y : string) (l k : nat) (n : tree_node) :
    is_visible st x = true -> is_expanded st x = true ->
    treeData doc !! x = Some n -> c ∈ children n ->
    visits doc st c (S l) y k -> visits doc st x l y k.

(** [x] is shown at the level [k]: the root is visible and leads to it. *)
Definition shown_at (doc : document) (st : state) (x : string) (k : nat)
  : Prop :=
  exists r, truthy (rootId doc) = Some r /\ visits doc st r 0 x k.

(** The nodes [new], pushed one after the other from [position] on. *)
Fixpoint places (g : gaps) (new : list (string * nat)) (position : nat)
    (lay : layout) : layout :=
  match new with
  | [] => lay
  | (id, level) :: new' =>
      places g new' (S position) (place g id level position lay)
  end.

(** *** Drawing the nodes *)

(** What [renderNodes] draws for a node: the [x] and [y] of its rectangle
    ([None] where the node has no such field), whether it is filled with
    the colour of a search hit, and its toggle icon ([Some true] for the
    minus sign of an expanded node, none for a node without children). *)
Record drawn := Drawn {
  data_id : string;
  rect_x : option Z;
  rect_y : option Z;
  highlighted : bool;
  toggle_icon : option bool
}.

Definition renderNodes (doc : document) (st : state) (lay : layout)
  : outcome (list drawn) :=
  for_each
    (fun out nodeId =>
       match nodeStates st !! nodeId with
       | None => TypeError
       | Some s =>
           if negb (visible s) then Done out
           else
             match treeData doc !! nodeId with
             | None => TypeError
             | Some node =>
                 Done (out ++ [Drawn nodeId (xs lay !! nodeId) (ys lay !! nodeId)
                                     (default false (highlight st !! nodeId))
                                     (match children node with
                                      | [] => None
                                      | _ => Some (expanded s)
                                      end)])
             end
       end)
    (keys doc) [].

(** *** A consistent view *)

(** Every visible node is the root or a child of a visible, expanded
    node. *)
Definition consistent (doc : document) (st : state) : Prop :=
  forall x, x ∈ keys doc -> is_visible st x = true ->
    truthy (rootId doc) = Some x \/
    exists p n, treeData doc !! p = Some n /\ x ∈ children n /\
                is_visible st p = true /\ is_expanded st p = true.

(** The links of [treeData] are those of a tree: the root alone has no
    parent, and every other node is among the children of its parent. *)
Record tree_shaped (doc : document) : Prop := {
  ts_root : forall x n,
      treeData doc !! x = Some n -> parent n = None -> rootId doc = Some x;
  ts_child : forall x n p,
      treeData doc !! x = Some n -> parent n = Some p ->
      exists np, treeData doc !! p = Some np /\ x ∈ children np
}.

(** What [collapseSubtree] does to a node and everything below it. *)
Definition collapsed (doc : document) (x : string) (st st' : state) : Prop :=
  highlight st' = highlight st /\
  (forall y, below doc y x -> nodeStates st' !! y = Some OFF) /\
  (forall y, y <> x -> ~ below doc y x ->
             nodeStates st' !! y = nodeStates st !! y) /\
  (forall s, nodeStates st !! x = Some s ->
             nodeStates st' !! x = Some (NodeState false (visible s))) /\
  (forall y, nodeStates st !! y = Some OFF -> nodeStates st' !! y = Some OFF) /\
  (forall y, is_Some (nodeStates st !! y) -> is_Some (nodeStates st' !! y)).

(** The loop of [collapseSubtree] over the children [l]. *)
Definition collapsed_all (doc : document) (l : list string) (st st' : state) : Prop :=
  highlight st' = highlight st /\
  (forall y c, c ∈ l -> y = c \/ below doc y c ->
               nodeStates st' !! y = Some OFF) /\
  (forall y, (forall c, c ∈ l -> y <> c /\ ~ below doc y c) ->
             nodeStates st' !! y = nodeStates st !! y) /\
  (forall y, nodeStates st !! y = Some OFF -> nodeStates st' !! y = Some OFF) /\
  (forall y, is_Some (nodeStates st !! y) -> is_Some (nodeStates st' !! y)).

Definition scenario_height (id : string) : nat :=
  if String.eqb id "root" then 2
  else if String.eqb id "story" then 1 else 0.

End Client.


(** ** The scaffolder: where the project goes *)

Module Scaffolder.

Definition is_blank_char (c : ascii) : bool := Ascii.eqb c " ".

(** [game_name.replace(" ", "")] *)
Fixpoint remove_spaces (s : string) : string :=
  match s with
  | EmptyString => EmptyString
  | String c s' =>
      if is_blank_char c then remove_spaces s' else String c (remove_spaces s')
  end.

Fixpoint has_space (s : string) : bool :=
  match s with
  | EmptyString => false
  | String c s' => is_blank_char c || has_space s'
  end.

(** The path that [create_game_directory_structure] makes and returns *)
Definition game_dir (game_name root_directory : string) : string :=
  OsPath.join root_directory (remove_spaces game_name).

(** The check of [main]: [if not game_name] *)
Definition name_accepted (game_name : string) : bool :=
  negb (String.eqb game_name "").

End Scaffolder.

(** ** Shapes of strings *)

Definition is_hex (c : ascii) : bool :=
  existsb (Ascii.eqb c) (list_ascii_of_string "0123456789abcdef").

(** ** More about the mapping *)

(** Both calls of [create_node] for a directory return. *)
Definition formats (sizes : gmap string Z) (c : ramp)
    (t : node * string * option string) : Prop :=
  let dir_size := default 0 (sizes !! snd (fst t)) in
  Py.is_ok (format_size dir_size) /\ Py.is_ok (get_color_for_size c dir_size).

(** ** What the scan records *)

(** The directories that [scan_directory_sizes] records, in the order of
    the scan, each with the bytes below it: those that can be listed. *)
Fixpoint scanned (d : node) (directory : string) : list (string * Z) :=
  match d with
  | Dir (Py.Ok entries) =>
      (directory, total_bytes d)
        :: flat_map (fun e => if is_dir (snd e)
                              then scanned (snd e) (OsPath.join directory (fst e))
                              else [])
                    entries
  | _ => []
  end.

(** What the scan records for one visited directory: nothing when it
    cannot be listed. *)
Definition recorded (t : node * string * option string) : list (string * Z) :=
  match fst (fst t) with
  | Dir (Py.Ok _) => [(snd (fst t), total_bytes (fst (fst t)))]
  | _ => []
  end.

Definition record_all (l : list (string * Z)) (self : generator) : generator :=
  fold_left (fun self pz => record_size (fst pz) (snd pz) self) l self.

Definition observe_all (sizes : list Z) (c : ramp) : ramp :=
  fold_left (fun c z => observe_size z c) sizes c.

(** *** Names as a file system has them *)

(** A name of a directory entry is not empty and has no separator. *)
(** The bounds of the colour ramp bracket the sizes [zs]: the upper bound
    is 1 or the largest of them, the lower bound the smallest positive one,
    or still infinite when none is positive. *)
Definition brackets (c : ramp) (zs : list Z) : Prop :=
  1 <= max_dir_size c /\
  (forall z, z ∈ zs -> z <= max_dir_size c) /\
  (max_dir_size c = 1 \/ max_dir_size c ∈ zs) /\
  match min_dir_size c with
  | Inf => forall z, z ∈ zs -> z <= 0
  | Fin lo => 0 < lo /\ lo ∈ zs /\ forall z, z ∈ zs -> 0 < z -> lo <= z
  end.

Definition name_ok (n : string) : bool :=
  negb (String.eqb n "") && negb (OsPath.has_sep n).

(** In every listed directory the sub-directories have names of that kind,
    no two of them the same. *)
Fixpoint well_named (d : node) : bool :=
  match d with
  | Dir (Py.Ok entries) =>
      bool_decide (NoDup (dirnames entries))
      && forallb (fun e => if is_dir (snd e)
                           then name_ok (fst e) && well_named (snd e)
                           else true)
                 entries
  | _ => true
  end.

(** The paths of the visited directories *)
Definition dir_paths (d : node) (directory : string) : list string :=
  map (fun t => snd (fst t)) (dirs_under d directory None).

(** What [os.path.join] puts before a relative name *)
Definition base (directory : string) : string :=
  if String.eqb directory "" || OsPath.endswith_sep directory
  then directory else directory +:+ "/".

(** ** Where the page is written *)

(** [s.endswith(suffix)]: [suffix] is [s], or it ends what follows the
    first character of [s]. *)
Fixpoint endswith (s suffix : string) : bool :=
  String.eqb s suffix
  || match s with
     | EmptyString => false
     | String _ s' => endswith s' suffix
     end.

(** [os.path.isabs] *)
Definition isabs (s : string) : bool := OsPath.startswith_sep s.

(** The path that [save_svg] writes the page to and returns;
    [output_path[:-4]] is the path without its last four characters. *)
Definition output_file (root_dir output_path : string) : string :=
  let output_path :=
    if negb (isabs output_path) then OsPath.join root_dir output_path
    else output_path in
  if endswith output_path ".svg"
  then substring 0 (String.length output_path - 4) output_path +:+ ".html"
  else output_path.

(** ** When the scan returns *)

(** The failures of [os.listdir] that [scan_directory_sizes] and
    [build_directory_tree] catch. *)
Definition listing_skipped (e : Py.exn) : bool :=
  match e with
  | Py.PermissionError | Py.FileNotFoundError => true
  | _ => false
  end.

(** Nothing makes the scan raise: the directory is one, no [getsize] below
    it fails with an error that [calculate_dir_size] does not catch, and
    no listing of a sub-directory fails with one that the scan does not
    catch. *)
Fixpoint scan_ok (d : node) : bool :=
  match d with
  | File _ => false
  | Dir (Py.Raise e) => listing_skipped e
  | Dir (Py.Ok entries) =>
      forallb stat_skipped (files_below d)
      && forallb (fun e => if is_dir (snd e) then scan_ok (snd e) else true)
                 entries
  end.

(** ** The order of the listings *)

(** Two views of one directory tree that differ in nothing but the order
    in which [os.listdir] gives the entries of its directories. *)
Unset Elimination Schemes.
Inductive same_tree : node -> node -> Prop :=
| same_file (st : stat) : same_tree (File st) (File st)
| same_unlisted (e : Py.exn) : same_tree (Dir (Py.Raise e)) (Dir (Py.Raise e))
| same_listed (l1 l l2 : list (string * node)) :
    Forall2 (fun a b => fst a = fst b /\ same_tree (snd a) (snd b)) l1 l ->
    l ≡ₚ l2 ->
    same_tree (Dir (Py.Ok l1)) (Dir (Py.Ok l2)).
Set Elimination Schemes.

(** The scenario with the two sub-directories listed the other way
    round. *)
Definition scenario_root_relisted : node :=
  Dir (Py.Ok [ ("A", Dir (Py.Ok [ ("data.bin", File (StSize 2048)) ]));
               ("B", Dir (Py.Ok [])) ]).


(** * Properties *)

(** ** The digest *)

Example md5_empty : md5_hexdigest "" = "d41d8cd98f00b204e9800998ecf8427e".
Proof. vm_compute. reflexivity. Qed.

Example md5_abc : md5_hexdigest "abc" = "900150983cd24fb0d6963f7d28e17f72".
Proof. vm_compute. reflexivity. Qed.

Example md5_two_blocks :
  md5_hexdigest
    "aaaaaaaaaaaaaaaaaaaaaaaaaaaaaaaaaaaaaaaaaaaaaaaaaaaaaaaaaaaaaaaaaaaaaa"
  = "0f5c6c4e740bfcc08c3c26ccb2673d46".
Proof. vm_compute. reflexivity. Qed.


(** ** The size formatter *)

Lemma floor_log1024_lower (n k : Z) :
  0 <= k -> 1024 ^ k <= n -> k <= floor_log1024 n.
Proof.
  intros Hk Hn. unfold floor_log1024.
  destruct ((1024 ^ 5 - 3 <=? n) && (n <? 1024 ^ 5)) eqn:Htop.
  - apply andb_true_iff in Htop as [_ Hlt]. apply Z.ltb_lt in Hlt.
    destruct (Z.le_gt_cases k 5) as [H|H]; [exact H|]. exfalso.
    assert (1024 ^ 5 <= 1024 ^ k) by (apply Z.pow_le_mono_r; lia). lia.
  - assert (Hpow : 1024 ^ k = 2 ^ (10 * k)).
    { rewrite Z.pow_mul_r by lia. reflexivity. }
    assert (Hlog : 10 * k <= Z.log2 n).
    { rewrite <- (Z.log2_pow2 (10 * k)) by lia.
      apply Z.log2_le_mono. lia. }
    apply Z.div_le_lower_bound; lia.
Qed.

Lemma floor_log1024_exact (n i : Z) :
  0 <= i -> 1024 ^ i <= n < 1024 ^ (i + 1) -> n < 1024 ^ 5 - 3 ->
  floor_log1024 n = i.
Proof.
  intros Hi Hn Htop.
  assert (Hpos : 0 < 1024 ^ i) by (apply Z.pow_pos_nonneg; lia).
  unfold floor_log1024.
  destruct (Z.leb_spec (1024 ^ 5 - 3) n) as [H|_]; [lia|]. cbn [andb].
  assert (Hlo : 10 * i <= Z.log2 n).
  { rewrite <- (Z.log2_pow2 (10 * i)) by lia. apply Z.log2_le_mono.
    rewrite Z.pow_mul_r by lia. exact (proj1 Hn). }
  assert (Hhi : Z.log2 n < 10 * (i + 1)).
  { apply Z.log2_lt_pow2; [lia|]. rewrite Z.pow_mul_r by lia.
    exact (proj2 Hn). }
  symmetry. apply (Z.div_unique _ _ _ (Z.log2 n - 10 * i)); lia.
Qed.

Lemma size_name_out_of_range (i : Z) :
  5 <= i -> size_name i = Py.Raise Py.IndexError.
Proof.
  intros Hi. unfold size_name.
  rewrite (lookup_ge_None_2 size_names (Z.to_nat i)); [reflexivity|].
  simpl. lia.
Qed.

(** C9. From 1024^5 bytes on, the unit index is at least 5, the list of
    unit names has five entries, the lookup of the unit is out of range and
    [format_size] raises instead of returning a string. *)
Theorem format_size_raises_from_pebibyte (size_bytes : Z) :
  1024 ^ 5 <= size_bytes ->
  5 <= floor_log1024 size_bytes /\
  length size_names = 5%nat /\
  size_name (floor_log1024 size_bytes) = Py.Raise Py.IndexError /\
  (format_size size_bytes = Py.Raise Py.IndexError \/
   format_size size_bytes = Py.Raise Py.OverflowError).
Proof.
  intros Hn.
  assert (Hi : 5 <= floor_log1024 size_bytes)
    by (apply floor_log1024_lower; lia).
  pose proof (size_name_out_of_range _ Hi) as Hname.
  repeat split; try assumption.
  unfold format_size.
  destruct (Z.eqb_spec size_bytes 0) as [->|_]; [lia|].
  destruct (Z.ltb_spec size_bytes 0) as [?|_]; [lia|].
  unfold math_pow_1024, F64.of_int.
  destruct (F64.nearest (1024 ^ _)); destruct (F64.nearest size_bytes);
    cbn; rewrite ?Hname; cbn; auto.
Qed.

Lemma format_size_raises_from_pebibyte_witness :
  1024 ^ 5 <= 1024 ^ 5 /\
  format_size (1024 ^ 5) = Py.Raise Py.IndexError.
Proof.
  split; [lia|].
  destruct (format_size_raises_from_pebibyte (1024 ^ 5)) as (_ & _ & _ & [H|H]);
    [lia | exact H | vm_compute in H; discriminate H].
Defined.

(** The float of the size is printed, so that a size below 1024 comes
    with a decimal too. *)
Lemma format_size_1023_has_a_decimal :
  format_size 1023 = Py.Ok "1023.0 B" /\ format_size 1023 <> Py.Ok "1023 B".
Proof. split; [vm_compute; reflexivity | vm_compute; discriminate]. Qed.

(** *** The float arithmetic of the formatter is exact

    A size below 2^53 is a float, the power of 1024 is a power of two, and
    the quotient of the two is exact. *)

Lemma digits2_pos_bounds (p : positive) :
  2 ^ (Z.pos (digits2_pos p) - 1) <= Z.pos p < 2 ^ Z.pos (digits2_pos p).
Proof.
  induction p as [p IH|p IH|]; cbn [digits2_pos].
  - rewrite Pos2Z.inj_succ, Z.pow_succ_r by lia.
    replace (Z.succ (Z.pos (digits2_pos p)) - 1) with (Z.succ (Z.pos (digits2_pos p) - 1)) by lia.
    rewrite Z.pow_succ_r by lia. lia.
  - rewrite Pos2Z.inj_succ, Z.pow_succ_r by lia.
    replace (Z.succ (Z.pos (digits2_pos p)) - 1) with (Z.succ (Z.pos (digits2_pos p) - 1)) by lia.
    rewrite Z.pow_succ_r by lia. lia.
  - cbn. lia.
Qed.

Lemma iter_xO_value (p q : positive) :
  Z.pos (Pos.iter xO p q) = Z.pos p * 2 ^ Z.pos q.
Proof.
  induction q as [|q IH] using Pos.peano_ind.
  - cbn. lia.
  - rewrite Pos.iter_succ, Pos2Z.inj_succ, Z.pow_succ_r by lia.
    rewrite Pos2Z.inj_xO, IH. lia.
Qed.

Lemma iter_xO_digits (p q : positive) :
  digits2_pos (Pos.iter xO p q) = (digits2_pos p + q)%positive.
Proof.
  induction q as [|q IH] using Pos.peano_ind.
  - cbn. lia.
  - rewrite Pos.iter_succ. cbn [digits2_pos]. rewrite IH. lia.
Qed.

Lemma round_exact (s : bool) (m : positive) (e : Z) :
  Z.pos (digits2_pos m) = 53 -> -1074 <= e <= 971 ->
  binary_round_aux 53 1024 s (Z.pos m) e loc_Exact = S754_finite s m e.
Proof.
  intros Hd He. unfold binary_round_aux, shr_fexp.
  cbn [Zdigits2 shr_record_of_loc]. rewrite Hd.
  assert (Hf : fexp 53 1024 (53 + e) - e = 0).
  { unfold fexp, emin. lia. }
  rewrite Hf. cbn [shr shr_m loc_of_shr_record round_nearest_even Zdigits2 shr_record_of_loc].
  rewrite Hd, Hf. cbn [shr shr_m].
  destruct (Z.leb_spec e (1024 - 53)); [reflexivity|lia].
Qed.

Lemma nearest_small (p : positive) :
  Z.pos (digits2_pos p) < 53 ->
  F64.nearest (Z.pos p)
  = S754_finite false (Pos.iter xO p (Z.to_pos (53 - Z.pos (digits2_pos p))))
                (Z.pos (digits2_pos p) - 53).
Proof.
  intros Hd. unfold F64.nearest, binary_normalize, binary_round, shl_align.
  set (d := Z.pos (digits2_pos p)) in *.
  assert (Hf : fexp F64.prec F64.emax (d + 0) = d - 53).
  { unfold fexp, emin, F64.prec, F64.emax. lia. }
  rewrite Hf.
  assert (Hz : d - 53 - 0 = Z.neg (Z.to_pos (53 - d))).
  { rewrite <- Pos2Z.opp_pos, Z2Pos.id by lia. lia. }
  rewrite Hz. apply round_exact.
  - rewrite iter_xO_digits, Pos2Z.inj_add, Z2Pos.id by lia. fold d. lia.
  - pose proof (Pos2Z.is_pos (digits2_pos p)). fold d in H. lia.
Qed.

Lemma div_by_power_of_two (m : positive) (ex ey : Z) :
  Z.pos (digits2_pos m) = 53 ->
  -1020 <= ex - ey <= 1000 ->
  F64.div (S754_finite false m ex) (S754_finite false 4503599627370496 ey)
  = S754_finite false m (ex - ey - 52).
Proof.
  intros Hd He. unfold F64.div, SFdiv, SFdiv_core_binary.
  cbn [Zdigits2 xorb]. rewrite Hd.
  change (Z.pos (digits2_pos 4503599627370496)) with 53.
  assert (Hf : Z.min (fexp F64.prec F64.emax (53 + ex - (53 + ey))) (ex - ey)
               = ex - ey - 53).
  { unfold fexp, emin, F64.prec, F64.emax. lia. }
  rewrite Hf.
  replace (ex - ey - (ex - ey - 53)) with 53 by lia.
  rewrite Z.shiftl_mul_pow2 by lia.
  assert (Hq : Z.div_eucl (Z.pos m * 2 ^ 53) 4503599627370496 = (Z.pos m~0, 0)).
  { pose proof (Z.div_eucl_eq (Z.pos m * 2 ^ 53) 4503599627370496 ltac:(lia)) as Heq.
    pose proof (Z.mod_pos_bound (Z.pos m * 2 ^ 53) 4503599627370496 ltac:(lia)) as Hr.
    unfold Z.modulo in Hr.
    destruct (Z.div_eucl (Z.pos m * 2 ^ 53) 4503599627370496) as [q r].
    change (2 ^ 53) with (2 * 4503599627370496) in Heq.
    assert (q = Z.pos m~0 /\ r = 0) as [-> ->] by (rewrite Pos2Z.inj_xO; nia).
    reflexivity. }
  rewrite Hq. cbn [new_location Z.even new_location_even Z.eqb].
  unfold binary_round_aux, shr_fexp. cbn [Zdigits2 digits2_pos shr_record_of_loc].
  rewrite Pos2Z.inj_succ, Hd.
  assert (Hf1 : fexp F64.prec F64.emax (Z.succ 53 + (ex - ey - 53)) - (ex - ey - 53) = 1).
  { unfold fexp, emin, F64.prec, F64.emax. lia. }
  rewrite Hf1.
  cbn [shr SpecFloat.iter_pos shr_1 orb shr_m loc_of_shr_record
       round_nearest_even Zdigits2 shr_record_of_loc].
  rewrite Hd.
  assert (Hf2 : fexp F64.prec F64.emax (53 + (ex - ey - 53 + 1)) - (ex - ey - 53 + 1) = 0).
  { unfold fexp, emin, F64.prec, F64.emax. lia. }
  rewrite Hf2. cbn [shr shr_m].
  replace (ex - ey - 53 + 1) with (ex - ey - 52) by lia.
  destruct (Z.leb_spec (ex - ey - 52) (F64.emax - F64.prec)); [reflexivity|].
  unfold F64.emax, F64.prec in *. lia.
Qed.

Lemma round_half_even_scale (c num den : Z) :
  0 < c -> 0 < den ->
  F64.round_half_even (c * num) (c * den) = F64.round_half_even num den.
Proof.
  intros Hc Hden. unfold F64.round_half_even.
  rewrite Z.div_mul_cancel_l by lia.
  rewrite Z.mul_mod_distr_l by lia.
  assert (Hcmp : (2 * (c * (num mod den)) ?= c * den)
                 = (2 * (num mod den) ?= den)).
  { destruct (Z.compare_spec (2 * (num mod den)) den);
      [apply Z.compare_eq_iff|apply Z.compare_lt_iff|apply Z.compare_gt_iff];
      nia. }
  rewrite Hcmp. reflexivity.
Qed.

Lemma round_half_even_nearest (num den : Z) :
  0 < den ->
  let k := F64.round_half_even num den in
  2 * Z.abs (num - k * den) <= den /\
  (2 * Z.abs (num - k * den) = den -> Z.even k = true).
Proof.
  intros Hden k. subst k. unfold F64.round_half_even.
  pose proof (Z.div_mod num den ltac:(lia)) as Hdm.
  pose proof (Z.mod_pos_bound num den Hden) as Hr.
  set (q := num / den) in *. set (r := num mod den) in *.
  destruct (Z.compare_spec (2 * r) den) as [Heq|Hlt|Hgt].
  - destruct (Z.even q) eqn:Hev.
    + split; [nia|auto].
    + split; [nia|]. intros _. rewrite Z.even_add, Hev. reflexivity.
  - split; [nia|]. intros H. exfalso. nia.
  - split; [nia|]. intros H. exfalso. nia.
Qed.

Lemma math_pow_1024_small (i : Z) :
  0 <= i <= 4 ->
  math_pow_1024 i = Py.Ok (S754_finite false 4503599627370496 (10 * i - 52)) /\
  size_name i = Py.Ok (spec_unit i).
Proof.
  intros Hi.
  assert (H : i = 0 \/ i = 1 \/ i = 2 \/ i = 3 \/ i = 4) by lia.
  destruct H as [->|[->|[->|[->| ->]]]]; split; reflexivity.
Qed.

Lemma format_size_value (n i : Z) :
  0 <= i <= 4 -> 1024 ^ i <= n < 1024 ^ (i + 1) ->
  n < 1024 ^ 5 - 3 ->
  format_size n
  = Py.Ok (F64.decimal2 (F64.round_half_even (100 * n) (1024 ^ i))
           +:+ " " +:+ spec_unit i).
Proof.
  intros Hi Hn Hbelow.
  pose proof (floor_log1024_exact n i (proj1 Hi) Hn Hbelow) as Hfloor.
  assert (Hpos : 0 < 1024 ^ i) by (apply Z.pow_pos_nonneg; lia).
  assert (Htop : 1024 ^ (i + 1) <= 2 ^ 50).
  { change (2 ^ 50) with (1024 ^ 5). apply Z.pow_le_mono_r; lia. }
  destruct n as [|p|p]; try lia.
  pose proof (digits2_pos_bounds p) as Hd.
  set (d := Z.pos (digits2_pos p)) in *.
  assert (Hd1 : 1 <= d) by (unfold d; lia).
  assert (Hd50 : d <= 50).
  { destruct (Z.le_gt_cases d 50) as [H|H]; [exact H|]. exfalso.
    assert (2 ^ 50 <= 2 ^ (d - 1)) by (apply Z.pow_le_mono_r; lia). lia. }
  destruct (math_pow_1024_small i Hi) as [Hpow Hname].
  unfold format_size. cbn [Z.eqb Z.ltb Z.compare].
  rewrite Hfloor. unfold mbind, result_bind. rewrite Hpow. cbn [Py.bind].
  unfold F64.of_int. rewrite nearest_small by (fold d; lia). fold d.
  cbn [Py.bind]. rewrite Hname. cbn [Py.bind].
  set (mz := Pos.iter xO p (Z.to_pos (53 - d))).
  assert (Hmz : Z.pos mz = 2 ^ (53 - d) * Z.pos p).
  { unfold mz. rewrite iter_xO_value, Z2Pos.id by lia. lia. }
  rewrite div_by_power_of_two.
  2:{ unfold mz. rewrite iter_xO_digits, Pos2Z.inj_add, Z2Pos.id by lia.
      fold d. lia. }
  2:{ lia. }
  unfold F64.str_round2, F64.hundredths.
  assert (He : d - 53 - (10 * i - 52) - 52 < 0) by lia.
  destruct (Z.leb_spec 0 (d - 53 - (10 * i - 52) - 52)) as [H|_]; [lia|].
  replace (- (d - 53 - (10 * i - 52) - 52)) with ((53 - d) + 10 * i) by lia.
  rewrite Z.pow_add_r by lia.
  replace (2 ^ (10 * i)) with (1024 ^ i)
    by (change 1024 with (2 ^ 10); rewrite <- Z.pow_mul_r by lia; reflexivity).
  rewrite Hmz.
  replace (100 * (2 ^ (53 - d) * Z.pos p))
    with (2 ^ (53 - d) * (100 * Z.pos p)) by lia.
  rewrite round_half_even_scale;
    [reflexivity|apply Z.pow_pos_nonneg; lia|exact Hpos].
Qed.

(** C4 (amended).  The formatter gives binary units with the divisor 1024
    and two-decimal rounding: a size from 1024^i up to 1024^(i+1), with
    [i <= 4], is printed as its quotient by 1024^i rounded to the nearest
    hundredth, a tie to the even one, followed by the unit number [i] of B,
    KB, MB, GB, TB.  The quotient is printed as a float, with a decimal
    point and one or two decimals, so that 1023 bytes are "1023.0 B".  (The
    last three sizes below 1024^5 are left out: on them the logarithm of
    the code is that of 1024^5 and the formatter raises.) *)
Theorem format_size_rounds_to_two_decimals :
  (forall n i,
      0 <= i <= 4 -> 1024 ^ i <= n < 1024 ^ (i + 1) -> n < 1024 ^ 5 - 3 ->
      exists k,
        format_size n = Py.Ok (F64.decimal2 k +:+ " " +:+ spec_unit i) /\
        2 * Z.abs (100 * n - k * 1024 ^ i) <= 1024 ^ i /\
        (2 * Z.abs (100 * n - k * 1024 ^ i) = 1024 ^ i -> Z.even k = true)) /\
  format_size 0 = Py.Ok "0 B" /\
  format_size 1023 = Py.Ok "1023.0 B" /\
  format_size 1024 = Py.Ok "1.0 KB" /\
  format_size (1024 * 1024) = Py.Ok "1.0 MB" /\
  format_size 1500 = Py.Ok "1.46 KB" /\
  format_size 1152 = Py.Ok "1.12 KB" /\
  format_size 1408 = Py.Ok "1.38 KB" /\
  format_size (5 * 1024 ^ 3 / 2) = Py.Ok "2.5 GB" /\
  format_size (1024 ^ 5 - 4) = Py.Ok "1024.0 TB".
Proof.
  split; [|repeat split; vm_compute; reflexivity].
  intros n i Hi Hn Hbelow.
  exists (F64.round_half_even (100 * n) (1024 ^ i)).
  split; [apply format_size_value; assumption|].
  apply round_half_even_nearest. apply Z.pow_pos_nonneg; lia.
Qed.

Lemma format_size_rounds_to_two_decimals_witness :
  0 <= 1 <= 4 /\ 1024 ^ 1 <= 1500 < 1024 ^ (1 + 1) /\ 1500 < 1024 ^ 5 - 3 /\
  exists k,
    format_size 1500 = Py.Ok (F64.decimal2 k +:+ " " +:+ spec_unit 1) /\
    2 * Z.abs (100 * 1500 - k * 1024 ^ 1) <= 1024 ^ 1 /\
    (2 * Z.abs (100 * 1500 - k * 1024 ^ 1) = 1024 ^ 1 -> Z.even k = true).
Proof.
  assert (H1 : 0 <= 1 <= 4) by lia.
  assert (H2 : 1024 ^ 1 <= 1500 < 1024 ^ (1 + 1)) by (cbn; lia).
  assert (H3 : 1500 < 1024 ^ 5 - 3) by (cbn; lia).
  split; [exact H1|]. split; [exact H2|]. split; [exact H3|].
  exact (proj1 format_size_rounds_to_two_decimals 1500 1 H1 H2 H3).
Defined.

(** Just below 1024^5 the logarithm of the code is already 5.0, and the
    formatter raises where the specification expects terabytes. *)
Example format_size_raises_just_below_pebibyte :
  format_size (1024 ^ 5 - 3) = Py.Raise Py.IndexError /\
  format_size (1024 ^ 5 - 1) = Py.Raise Py.IndexError.
Proof. split; vm_compute; reflexivity. Qed.

(** ** The colour mapper *)

(** C3. When the largest observed size is not above the smallest one (no
    non-empty directory, or all of one size), every size gets the mid
    colour, which with the configured yellow is "#ffff00". *)
Theorem degenerate_range_gives_mid_color (self : ramp) (size : Z) :
  max_le_min self ->
  get_color_for_size self size
  = Py.Ok (hex_color (red (mid_color self)) (green (mid_color self))
                     (blue (mid_color self)))
  /\ (mid_color self = MID_COLOR ->
      get_color_for_size self size = Py.Ok "#ffff00").
Proof.
  intros Hdeg.
  assert (Hmid : get_color_for_size self size
                 = Py.Ok (hex_color (red (mid_color self))
                            (green (mid_color self)) (blue (mid_color self)))).
  { unfold get_color_for_size, max_le_min in *.
    destruct (min_dir_size self) as [|lo]; [reflexivity|].
    destruct (Z.leb_spec (max_dir_size self) lo); [reflexivity|lia]. }
  split; [exact Hmid|].
  intros Hyellow. rewrite Hmid, Hyellow. reflexivity.
Qed.

Lemma degenerate_range_gives_mid_color_witness :
  max_le_min (default_ramp (Fin 4096) 4096) /\
  get_color_for_size (default_ramp (Fin 4096) 4096) 123 = Py.Ok "#ffff00".
Proof.
  assert (H : max_le_min (default_ramp (Fin 4096) 4096)) by (unfold max_le_min, default_ramp; simpl; lia).
  split; [exact H|].
  exact (proj2 (degenerate_range_gives_mid_color _ 123 H) eq_refl).
Defined.

(** Outside the degenerate case the code is the two-segment ramp of the
    specification as soon as the low and the mid colour have the same blue
    component, as the configured ones do. *)
Lemma get_color_two_segment (self : ramp) (lo size : Z) :
  min_dir_size self = Fin lo ->
  lo < max_dir_size self ->
  blue (min_color self) = blue (mid_color self) ->
  get_color_for_size self size = two_segment_color self lo size.
Proof.
  intros Hlo Hlt Hblue.
  unfold get_color_for_size, two_segment_color, lerp_rgb, lerp.
  rewrite Hlo.
  destruct (Z.leb_spec (max_dir_size self) lo); [lia|].
  rewrite Hblue. reflexivity.
Qed.

(** C2. With a low colour whose blue component differs from the mid
    colour's, the upper half of the ramp is not the interpolation from the
    mid to the high colour: the blue channel is computed from
    [max_color[2] - min_color[2]]. *)
Theorem upper_half_blue_channel_uses_min_color :
  let self := Ramp (0, 128, 64) MID_COLOR MAX_COLOR (Fin 10) 1000 in
  get_color_for_size self 1000 = Py.Ok "#c800-40" /\
  two_segment_color self 10 1000 = Py.Ok "#c80000".
Proof. split; vm_compute; reflexivity. Qed.

(** ** The size scanner *)

Section Loops.
Context {A B : Type} (body : A -> B -> Py.result A).

Lemma for_each_app (l1 l2 : list B) (a : A) :
  Py.for_each body (l1 ++ l2) a
  = Py.bind (Py.for_each body l1 a) (Py.for_each body l2).
Proof.
  revert a. induction l1 as [|x l1 IH]; intros a; simpl; [reflexivity|].
  destruct (body a x); simpl; auto.
Qed.
End Loops.

Lemma sum_app (l1 l2 : list Z) :
  foldr Z.add 0 (l1 ++ l2) = foldr Z.add 0 l1 + foldr Z.add 0 l2.
Proof. induction l1; simpl; lia. Qed.

Lemma add_file_sizes (files : list (string * stat)) (total_size : Z) :
  Forall (fun f => stat_skipped (snd f) = true) files ->
  Py.for_each add_file_size files total_size
  = Py.Ok (total_size + foldr Z.add 0 (map (fun f => stat_bytes (snd f)) files)).
Proof.
  intros Hok. revert total_size.
  induction Hok as [|[name st] files Hst _ IH]; intros total_size; simpl.
  - f_equal. lia.
  - unfold add_file_size at 1. simpl in *.
    destruct st as [n|[]]; try discriminate Hst; simpl; rewrite IH;
      f_equal; lia.
Qed.

(** The size of a listed directory is that of its own files plus that of
    everything below its sub-directories. *)
Lemma total_bytes_listed (entries : list (string * node)) :
  total_bytes (Dir (Py.Ok entries)) = own_bytes entries + sub_bytes entries.
Proof.
  unfold total_bytes, own_bytes, sub_bytes, nondirs. simpl.
  induction entries as [|[name [st|listing]] entries IH]; simpl in *.
  - reflexivity.
  - rewrite IH. lia.
  - rewrite map_app, sum_app, IH. unfold total_bytes. simpl. lia.
Qed.

Lemma files_below_listed (entries : list (string * node)) :
  Forall (fun st => stat_skipped st = true) (files_below (Dir (Py.Ok entries))) ->
  Forall (fun f => stat_skipped (snd f) = true) (nondirs entries) /\
  Forall (fun e => Forall (fun st => stat_skipped st = true) (files_below (snd e)))
         (List.filter (fun e => is_dir (snd e)) entries).
Proof.
  simpl. unfold nondirs.
  induction entries as [|[name [st|listing]] entries IH]; simpl; intros H.
  - split; constructor.
  - apply Forall_cons in H as [Hst H]. destruct (IH H) as [H1 H2].
    split; [constructor|]; assumption.
  - apply Forall_app in H as [Hsub H]. destruct (IH H) as [H1 H2].
    split; [|constructor]; assumption.
Qed.

(** The loop over [os.walk] adds the bytes below the directory to the
    running total. *)
Lemma walk_adds_total_bytes (d : node) :
  forall (top : string) (total_size : Z),
    Forall (fun st => stat_skipped st = true) (files_below d) ->
    Py.for_each
      (fun total_size '(dirpath, _, filenames) =>
         Py.for_each add_file_size filenames total_size)
      (os_walk d top) total_size
    = Py.Ok (total_size + total_bytes d).
Proof.
  induction d as [st|e|entries IH] using node_induction;
    intros top total_size Hok.
  - simpl. unfold total_bytes. simpl. f_equal. lia.
  - simpl. unfold total_bytes. simpl. f_equal. lia.
  - rewrite total_bytes_listed.
    destruct (files_below_listed _ Hok) as [Hown Hsub].
    cbn [os_walk Py.for_each].
    rewrite (add_file_sizes _ _ Hown). cbn [Py.bind].
    fold (own_bytes entries). rewrite Z.add_assoc.
    generalize (total_size + own_bytes entries). clear Hok Hown.
    unfold sub_bytes.
    induction entries as [|[name sub] entries IHentries]; intros acc.
    + simpl. f_equal. lia.
    + apply Forall_cons in IH as [IHsub IH]. simpl in *.
      destruct sub as [st|listing]; simpl in *.
      * apply IHentries; assumption.
      * apply Forall_cons in Hsub as [Hsub1 Hsub].
        rewrite for_each_app, (IHsub _ _ Hsub1). cbn [Py.bind].
        rewrite (IHentries IH Hsub). f_equal. lia.
Qed.

(** C1. The computed size of a directory is the sum of the sizes of all
    files below it, its own and those of its descendants; a file whose stat
    fails with a not-found or permission error counts for zero, and a
    directory that cannot be listed only contributes nothing. *)
Theorem calculate_dir_size_is_total_bytes (d : node) (directory : string) :
  Forall (fun st => stat_skipped st = true) (files_below d) ->
  calculate_dir_size d directory = Py.Ok (total_bytes d).
Proof.
  intros Hok. unfold calculate_dir_size.
  rewrite (walk_adds_total_bytes d directory 0 Hok). reflexivity.
Qed.

Lemma calculate_dir_size_is_total_bytes_witness :
  Forall (fun st => stat_skipped st = true) (files_below sample_dir) /\
  calculate_dir_size sample_dir "/srv/data" = Py.Ok 2155.
Proof.
  assert (H : Forall (fun st => stat_skipped st = true) (files_below sample_dir)).
  { simpl. repeat constructor. }
  split; [exact H|].
  exact (calculate_dir_size_is_total_bytes sample_dir "/srv/data" H).
Defined.

(** ** The order of names *)

Lemma ascii_compare_trans (a b c : ascii) (o : comparison) :
  Ascii.compare a b = o -> Ascii.compare b c = o -> Ascii.compare a c = o.
Proof.
  unfold Ascii.compare. destruct o; intros H1 H2.
  - rewrite N.compare_eq_iff in *. congruence.
  - rewrite N.compare_lt_iff in *. lia.
  - rewrite N.compare_gt_iff in *. lia.
Qed.

Lemma string_compare_lt_trans (a : string) :
  forall b c, String.compare a b = Lt -> String.compare b c = Lt ->
              String.compare a c = Lt.
Proof.
  induction a as [|x a IH]; intros [|y b] [|z c]; simpl; try discriminate;
    try reflexivity.
  destruct (Ascii.compare x y) eqn:Hxy; try discriminate;
    destruct (Ascii.compare y z) eqn:Hyz; try discriminate; intros H1 H2.
  - rewrite (ascii_compare_trans _ _ _ _ Hxy Hyz). eauto.
  - apply Ascii.compare_eq_iff in Hxy. subst y. rewrite Hyz. reflexivity.
  - apply Ascii.compare_eq_iff in Hyz. subst z. rewrite Hxy. reflexivity.
  - rewrite (ascii_compare_trans _ _ _ _ Hxy Hyz). reflexivity.
Qed.

#[global] Instance str_le_trans : Transitive str_le.
Proof.
  intros a b c. unfold str_le, String.leb. intros H1 H2.
  destruct (String.compare a b) eqn:Hab; try discriminate.
  - apply String.compare_eq_iff in Hab. subst b. exact H2.
  - destruct (String.compare b c) eqn:Hbc; try discriminate.
    + apply String.compare_eq_iff in Hbc. subst c. rewrite Hab. reflexivity.
    + rewrite (string_compare_lt_trans _ _ _ Hab Hbc). reflexivity.
Qed.

#[global] Instance str_le_total : Total str_le.
Proof. intros a b. apply String.leb_total. Qed.

#[global] Instance str_le_antisym : AntiSymm (=) str_le.
Proof. intros a b. apply String.leb_antisym. Qed.

#[global] Instance by_name_trans {A} : Transitive (@by_name A).
Proof. intros a b c. unfold by_name. apply str_le_trans. Qed.

#[global] Instance by_name_total {A} : Total (@by_name A).
Proof. intros a b. unfold by_name. apply str_le_total. Qed.

Lemma sorted_sorted (names : list string) :
  StronglySorted str_le (sorted names).
Proof. apply StronglySorted_merge_sort; apply _. Qed.

Lemma sorted_permutation (names : list string) : sorted names ≡ₚ names.
Proof. apply merge_sort_Permutation. Qed.

(** Sorting things by their names sorts the names. *)
Lemma sorted_by_name_names {A} (l : list (string * A)) :
  map fst (sorted_by_name l) = sorted (map fst l).
Proof.
  apply (StronglySorted_unique str_le).
  - apply (StronglySorted_fmap fst by_name str_le); [auto|].
    apply StronglySorted_merge_sort; apply _.
  - apply sorted_sorted.
  - rewrite sorted_permutation. unfold sorted_by_name.
    apply fmap_Permutation. apply merge_sort_Permutation.
Qed.

(** Any two listings of the same names sort to the same list. *)
Lemma sorted_listing_order (names names' : list string) :
  names ≡ₚ names' -> sorted names = sorted names'.
Proof.
  intros Hp. apply (StronglySorted_unique str_le); try apply sorted_sorted.
  rewrite !sorted_permutation. exact Hp.
Qed.

(** ** The tree builder *)

Ltac py_simpl := cbn [mbind mret result_bind result_ret Py.bind] in *.

Lemma install_app (l1 l2 : list Node.t) :
  forall (base : nat) (m : gmap string nat),
    install base (l1 ++ l2) m
    = install (base + length l1) l2 (install base l1 m).
Proof.
  induction l1 as [|o l1 IH]; intros base m; simpl.
  - f_equal. lia.
  - rewrite IH. f_equal. lia.
Qed.

Lemma create_node_extends directory parent_id self ref self1 :
  create_node directory parent_id self = Py.Ok (ref, self1) ->
  ref = length (heap self) /\
  extends self self1
    [new_node (dir_sizes self) (colors self) directory parent_id].
Proof.
  unfold create_node.
  destruct (format_size _) as [formatted|] eqn:Hf; py_simpl; [|discriminate].
  destruct (get_color_for_size _ _) as [color|] eqn:Hc; py_simpl;
    [|discriminate].
  intros [= <- <-]. split; [reflexivity|].
  unfold extends, new_node. rewrite Hf, Hc. simpl. auto.
Qed.

Lemma build_directory_tree_unfold d directory parent_id self :
  build_directory_tree d directory parent_id self
  = Py.bind (create_node directory parent_id self)
      (fun '(ref, self) =>
         match d with
         | File _ => Py.Raise Py.OSError
         | Dir (Py.Raise Py.PermissionError)
         | Dir (Py.Raise Py.FileNotFoundError) => Py.Ok self
         | Dir (Py.Raise e) => Py.Raise e
         | Dir (Py.Ok entries) =>
             build_children directory ref (_generate_id directory)
               (map (fun e => (fst e, build_directory_tree (snd e)))
                    (List.filter (fun e => is_dir (snd e)) entries))
               self
         end).
Proof.
  destruct d as [st|[entries|e]]; try reflexivity.
  simpl. unfold mbind, result_bind. f_equal.
  assert (Hcalls :
    flat_map (fun e => if is_dir (snd e)
                       then [(fst e, build_directory_tree (snd e))] else [])
             entries
    = map (fun e => (fst e, build_directory_tree (snd e)))
          (List.filter (fun e => is_dir (snd e)) entries)).
  { induction entries as [|[n sub] entries IH]; simpl; [reflexivity|].
    destruct (is_dir sub); simpl; rewrite IH; reflexivity. }
  rewrite Hcalls. reflexivity.
Qed.

Definition add_children (directory : string) (names : list string) (n : Node.t)
  : Node.t :=
  Node.Build (Node.id n) (Node.name n) (Node.path n) (Node.size n)
    (Node.formatted_size n)
    (Node.children n
       ++ map (fun s => _generate_id (OsPath.join directory s)) names)
    (Node.color n) (Node.parent n).

Lemma add_children_nil directory n : add_children directory [] n = n.
Proof. destruct n. unfold add_children. simpl. rewrite app_nil_r. reflexivity. Qed.

Lemma add_children_cons directory s names n :
  add_children directory (s :: names) n
  = add_children directory names
      (Node.append_child (_generate_id (OsPath.join directory s)) n).
Proof.
  destruct n. unfold add_children, Node.append_child. simpl.
  rewrite <- app_assoc. reflexivity.
Qed.

(** The loop over the sub-directories: what each call creates is added
    after the existing objects, and the identifier of each sub-directory is
    appended to the children of the object of the directory itself. *)
Lemma build_children_extends directory dir_id (g : node -> call)
    (subs : list (string * node)) :
  Forall (fun e => builds (snd e) (g (snd e))) subs ->
  forall self self' pre root rest,
    heap self = pre ++ root :: rest ->
    Py.for_each (build_child directory (length pre) dir_id)
                (map (fun e => (fst e, g (snd e))) subs) self = Py.Ok self' ->
    exists new,
      root_dir self' = root_dir self /\
      colors self' = colors self /\
      dir_sizes self' = dir_sizes self /\
      heap self' = pre ++ add_children directory (map fst subs) root
                        :: rest ++ new /\
      directory_tree self'
      = install (length (heap self)) new (directory_tree self) /\
      new ≡ₚ flat_map
               (fun e => map (expected_node (dir_sizes self) (colors self))
                             (dirs_under (snd e) (OsPath.join directory (fst e))
                                         (Some dir_id)))
               subs.
Proof.
  induction 1 as [|[subdir sub] subs Hsub _ IH];
    intros self self' pre root rest Hheap Hloop.
  - injection Hloop as <-. exists []. simpl.
    rewrite add_children_nil, app_nil_r. repeat split; auto.
  - cbn [map Py.for_each fst snd] in Hloop. unfold build_child at 1 in Hloop.
    py_simpl.
    destruct (g sub _ _ self) as [self1|] eqn:Hcall; py_simpl; [|discriminate].
    destruct (Hsub _ _ _ _ Hcall) as (new1 & (Hr & Hc & Hs & Hh & Ht) & Hnew1).
    simpl in Hsub.
    set (self2 := append_child (length pre) _ self1) in Hloop.
    assert (Hheap2 : heap self2
                     = pre ++ Node.append_child
                                (_generate_id (OsPath.join directory subdir)) root
                           :: (rest ++ new1)).
    { unfold self2, append_child. simpl. rewrite Hh, Hheap.
      rewrite <- app_assoc. simpl.
      rewrite (alter_app_r_alt _ pre _ (length pre)) by lia.
      rewrite Nat.sub_diag. reflexivity. }
    destruct (IH _ _ _ _ _ Hheap2 Hloop)
      as (new2 & Hr2 & Hc2 & Hs2 & Hh2 & Ht2 & Hnew2).
    exists (new1 ++ new2). simpl in Hr2, Hc2, Hs2, Ht2, Hnew2.
    repeat split.
    + congruence.
    + congruence.
    + congruence.
    + rewrite Hh2. cbn [map fst]. rewrite add_children_cons, <- app_assoc.
      reflexivity.
    + rewrite Ht2, install_app, Ht. f_equal.
      rewrite length_alter, Hh, length_app. reflexivity.
    + simpl. rewrite Hnew1, Hnew2, Hs, Hc. reflexivity.
Qed.

Lemma map_of_flat_map {A B C} (g : B -> C) (f : A -> list B) (l : list A) :
  map g (flat_map f l) = flat_map (fun x => map g (f x)) l.
Proof.
  induction l as [|x l IH]; simpl; [reflexivity|].
  rewrite map_app, IH. reflexivity.
Qed.

Lemma flat_map_dirs {A} (f : string * node -> list A)
    (entries : list (string * node)) :
  flat_map (fun e => if is_dir (snd e) then f e else []) entries
  = flat_map f (List.filter (fun e => is_dir (snd e)) entries).
Proof.
  induction entries as [|[n sub] entries IH]; simpl; [reflexivity|].
  destruct (is_dir sub); simpl; rewrite IH; reflexivity.
Qed.

Lemma Forall_dirs (P : string * node -> Prop) (entries : list (string * node)) :
  Forall P entries -> Forall P (List.filter (fun e => is_dir (snd e)) entries).
Proof.
  induction 1 as [|[n sub] entries Hx _ IH]; simpl; [constructor|].
  destruct (is_dir sub); [constructor|]; assumption.
Qed.

(** The builder creates one object for each directory below the root, in
    its finished state, and stores it under its identifier. *)
Lemma build_directory_tree_builds (d : node) :
  builds d (build_directory_tree d).
Proof.
  induction d as [st|e|entries IH] using node_induction;
    intros directory parent_id self self' Hb;
    rewrite build_directory_tree_unfold in Hb;
    destruct (create_node directory parent_id self) as [[ref self1]|] eqn:Hc;
    cbn [Py.bind] in Hb; try discriminate Hb;
    apply create_node_extends in Hc as [-> Hext].
  - destruct e; try discriminate Hb; injection Hb as <-;
      (eexists; split; [exact Hext|]); reflexivity.
  - unfold build_children in Hb.
    set (dirs := List.filter (fun e => is_dir (snd e)) entries) in *.
    unfold sorted_by_name in Hb.
    match type of Hb with
    | context [merge_sort ?R ?l] =>
        pose proof (merge_sort_Permutation R l) as Hp
    end.
    apply Permutation_map_inv in Hp as (subs & Hsubs & Hperm). rewrite Hsubs in Hb.
    destruct Hext as (Hr & Hcol & Hs & Hh & Ht).
    assert (IHsubs : Forall (fun e => builds (snd e) (build_directory_tree (snd e)))
                            subs).
    { rewrite <- Hperm. apply Forall_dirs, IH. }
    destruct (build_children_extends directory (_generate_id directory)
                build_directory_tree subs IHsubs self1 self' (heap self)
                (new_node (dir_sizes self) (colors self) directory parent_id)
                [] Hh Hb)
      as (new & Hr' & Hc' & Hs' & Hh' & Ht' & Hnew).
    exists (add_children directory (map fst subs)
              (new_node (dir_sizes self) (colors self) directory parent_id)
            :: new).
    split.
    + repeat split; try congruence.
      * rewrite Hh'. reflexivity.
      * rewrite Ht', Ht, Hh, length_app. simpl. f_equal. lia.
    + assert (Hnames : map fst subs = sorted (dirnames entries)).
      { transitivity (map fst (map (fun e : string * node =>
                                      (fst e, build_directory_tree (snd e))) subs)).
        { rewrite map_map. reflexivity. }
        rewrite <- Hsubs.
        change (merge_sort by_name ?l) with (sorted_by_name l).
        rewrite sorted_by_name_names, map_map. reflexivity. }
      cbn [dirs_under map]. rewrite Hnames. apply Permutation_cons.
      { reflexivity. }
      rewrite Hnew, Hs, Hcol, flat_map_dirs. fold dirs.
      rewrite <- Hperm, map_of_flat_map. reflexivity.
Qed.

(** *** The stored identifiers *)

Lemma install_lookup (new : list Node.t) :
  forall (base : nat) (m : gmap string nat) (id : string) (ref : nat),
    install base new m !! id = Some ref ->
    m !! id = Some ref \/
    exists i o, new !! i = Some o /\ ref = (base + i)%nat /\ Node.id o = id.
Proof.
  induction new as [|o new IH]; intros base m id ref; simpl; [auto|].
  intros H. apply IH in H as [H|(i & o' & Hi & -> & Hid)].
  - destruct (decide (Node.id o = id)) as [<-|Hne].
    + rewrite lookup_insert_eq in H. injection H as <-.
      right. exists 0%nat, o. split; [reflexivity|]. split; [lia|reflexivity].
    + rewrite lookup_insert_ne in H by assumption. auto.
  - right. exists (S i), o'. split; [assumption|]. split; [lia|assumption].
Qed.

Lemma install_lookup_other (new : list Node.t) :
  forall (base : nat) (m : gmap string nat) (id : string),
    id ∉ map Node.id new -> install base new m !! id = m !! id.
Proof.
  induction new as [|o new IH]; intros base m id Hnot; simpl; [reflexivity|].
  simpl in Hnot. apply not_elem_of_cons in Hnot as [Hne Hnot].
  rewrite IH by assumption. apply lookup_insert_ne. congruence.
Qed.

Lemma install_lookup_new (new : list Node.t) :
  forall (base : nat) (m : gmap string nat) (i : nat) (o : Node.t),
    NoDup (map Node.id new) ->
    new !! i = Some o ->
    install base new m !! Node.id o = Some (base + i)%nat.
Proof.
  induction new as [|o' new IH]; intros base m i o Hnd Hi; [discriminate|].
  simpl in Hnd. apply NoDup_cons in Hnd as [Hnot Hnd]. simpl.
  destruct i as [|i]; simpl in Hi.
  - injection Hi as ->. rewrite install_lookup_other by assumption.
    rewrite lookup_insert_eq. f_equal. lia.
  - rewrite (IH _ _ i) by assumption. f_equal. lia.
Qed.

Lemma tree_data_lookup (self : generator) (id : string) :
  tree_data self !! id
  = directory_tree self !! id ≫= fun ref => heap self !! ref.
Proof. unfold tree_data. apply lookup_omap. Qed.

(** On a generator without objects, the mapping holds created objects
    only, each under its own identifier; and it holds all of them when no
    two have the same identifier. *)
Lemma tree_data_created (self self' : generator) (new : list Node.t) :
  heap self = [] -> directory_tree self = ∅ ->
  extends self self' new ->
  (forall id n, tree_data self' !! id = Some n -> n ∈ new /\ Node.id n = id) /\
  (NoDup (map Node.id new) ->
   forall n, n ∈ new -> tree_data self' !! Node.id n = Some n).
Proof.
  intros Hheap Htree (_ & _ & _ & Hh & Ht).
  rewrite Hheap in Hh, Ht. rewrite Htree in Ht. simpl in Hh, Ht.
  split.
  - intros id n. rewrite tree_data_lookup, Ht, Hh.
    destruct (install 0 new ∅ !! id) as [ref|] eqn:Hid; [|discriminate].
    simpl. intros Hn.
    apply install_lookup in Hid as [Hid|(i & o & Hi & -> & Hid)].
    + rewrite lookup_empty in Hid. discriminate.
    + simpl in Hn. rewrite Hi in Hn. injection Hn as <-.
      split; [|assumption]. eapply list_elem_of_lookup_2; eassumption.
  - intros Hnd n Hn. apply list_elem_of_lookup_1 in Hn as [i Hi].
    rewrite tree_data_lookup, Ht, Hh.
    rewrite (install_lookup_new new 0 ∅ i n Hnd Hi). simpl. exact Hi.
Qed.

(** The scan leaves the objects alone. *)
Lemma record_size_heap directory dir_size self :
  heap (record_size directory dir_size self) = heap self /\
  directory_tree (record_size directory dir_size self) = directory_tree self.
Proof. split; reflexivity. Qed.

Lemma scan_directory_sizes_heap (d : node) :
  forall directory self self',
    scan_directory_sizes d directory self = Py.Ok self' ->
    heap self' = heap self /\ directory_tree self' = directory_tree self.
Proof.
  induction d as [st|e|entries IH] using node_induction;
    intros directory self self' Hscan; simpl in Hscan.
  - discriminate.
  - destruct e; try discriminate; injection Hscan as <-; auto.
  - unfold mbind, result_bind in Hscan.
    destruct (calculate_dir_size _ _) as [dir_size|]; [|discriminate].
    cbn [Py.bind] in Hscan.
    destruct (record_size_heap directory dir_size self) as [<- <-].
    revert Hscan. generalize (record_size directory dir_size self).
    induction IH as [|[name sub] entries IHsub _ IHentries]; intros self1 Hloop.
    + injection Hloop as <-. auto.
    + cbn [Py.for_each fst snd Py.bind] in Hloop.
      destruct (is_dir sub).
      * destruct (scan_directory_sizes sub _ self1) as [self2|] eqn:Hsub;
          [|discriminate].
        apply IHsub in Hsub as [<- <-]. apply IHentries. exact Hloop.
      * apply IHentries. exact Hloop.
Qed.

(** The mapping that [save_svg] serialises: it holds finished nodes of
    directories below the root, each under its identifier, and all of them
    when no two directories have the same identifier. *)
Lemma scan_and_build_nodes (d : node) (root : string) (m : gmap string Node.t) :
  scan_and_build d root = Py.Ok m ->
  exists self new,
    scan_directory_sizes d root (DirectorySVGGenerator root) = Py.Ok self /\
    new ≡ₚ map (expected_node (dir_sizes self) (colors self))
               (dirs_under d root None) /\
    (forall id n, m !! id = Some n -> n ∈ new /\ Node.id n = id) /\
    (NoDup (map Node.id new) -> forall n, n ∈ new -> m !! Node.id n = Some n).
Proof.
  unfold scan_and_build, mbind, result_bind.
  destruct (scan_directory_sizes d root _) as [self|] eqn:Hscan; [|discriminate].
  cbn [Py.bind].
  destruct (build_directory_tree d root None self) as [self'|] eqn:Hbuild;
    [|discriminate].
  cbn [Py.bind]. intros [= <-].
  apply scan_directory_sizes_heap in Hscan as Hfresh. destruct Hfresh as [Hh Ht].
  destruct (build_directory_tree_builds d _ _ _ _ Hbuild) as (new & Hext & Hnew).
  destruct (tree_data_created self self' new Hh Ht Hext) as [Hin Hall].
  exists self, new. auto.
Qed.

(** C5. The children of every node of the mapping are the identifiers of
    the sub-directories of its directory, in the sorted order of their
    names. *)
Theorem children_are_sorted_subdirectories
    (d : node) (root : string) (m : gmap string Node.t)
    (id : string) (n : Node.t) :
  scan_and_build d root = Py.Ok m ->
  m !! id = Some n ->
  exists d' parent_id,
    (d', Node.path n, parent_id) ∈ dirs_under d root None /\
    Node.children n
    = map (fun subdir => _generate_id (OsPath.join (Node.path n) subdir))
          (sorted (subdir_names d')) /\
    sorted (subdir_names d') ≡ₚ subdir_names d' /\
    StronglySorted str_le (sorted (subdir_names d')).
Proof.
  intros Hrun Hn.
  destruct (scan_and_build_nodes d root m Hrun) as (self & new & _ & Hnew & Hin & _).
  destruct (Hin id n Hn) as [Hmem _].
  rewrite Hnew in Hmem. apply list_elem_of_fmap in Hmem as ([[d' p] par] & -> & Ht).
  exists d', par. simpl. repeat split.
  - exact Ht.
  - apply sorted_permutation.
  - apply sorted_sorted.
Qed.

Lemma children_are_sorted_subdirectories_witness :
  scan_and_build scenario_root "/r" = Py.Ok scenario_tree /\
  scenario_tree !! _generate_id "/r" = Some scenario_root_node /\
  Node.children scenario_root_node
  = [_generate_id "/r/A"; _generate_id "/r/B"] /\
  exists d' parent_id,
    (d', Node.path scenario_root_node, parent_id)
      ∈ dirs_under scenario_root "/r" None /\
    Node.children scenario_root_node
    = map (fun subdir =>
             _generate_id (OsPath.join (Node.path scenario_root_node) subdir))
          (sorted (subdir_names d')) /\
    sorted (subdir_names d') ≡ₚ subdir_names d' /\
    StronglySorted str_le (sorted (subdir_names d')).
Proof.
  assert (Hm : scan_and_build scenario_root "/r" = Py.Ok scenario_tree)
    by (vm_compute; reflexivity).
  assert (Hn : scenario_tree !! _generate_id "/r" = Some scenario_root_node)
    by (vm_compute; reflexivity).
  split; [exact Hm|]. split; [exact Hn|].
  split; [vm_compute; reflexivity|].
  exact (children_are_sorted_subdirectories _ _ _ _ _ Hm Hn).
Defined.

(** *** The shape of the visited directories *)

Lemma dirs_under_listed entries directory parent_id :
  dirs_under (Dir (Py.Ok entries)) directory parent_id
  = (Dir (Py.Ok entries), directory, parent_id)
      :: flat_map (fun e => dirs_under (snd e) (OsPath.join directory (fst e))
                                       (Some (_generate_id directory)))
                  (List.filter (fun e => is_dir (snd e)) entries).
Proof. simpl. rewrite flat_map_dirs. reflexivity. Qed.

Lemma dirs_under_head d directory parent_id :
  exists rest, dirs_under d directory parent_id = (d, directory, parent_id) :: rest.
Proof. destruct d; simpl; eauto. Qed.

Lemma dirs_under_root d directory parent_id :
  (d, directory, parent_id) ∈ dirs_under d directory parent_id.
Proof. destruct (dirs_under_head d directory parent_id) as [rest ->]. left. Qed.

Lemma elem_of_flat_map {A B} (f : A -> list B) (l : list A) (y : B) :
  y ∈ flat_map f l <-> exists x, x ∈ l /\ y ∈ f x.
Proof.
  rewrite !list_elem_of_In, in_flat_map.
  split; intros (x & Hx & Hy); exists x; rewrite ?list_elem_of_In in *; auto.
Qed.

(** Every sub-directory of a visited directory is visited, under the path
    joined from the two and with the visited directory as its parent. *)
Lemma dirs_under_child (d : node) :
  forall directory parent_id d' p par' subdir,
    (d', p, par') ∈ dirs_under d directory parent_id ->
    subdir ∈ subdir_names d' ->
    exists sub,
      (sub, OsPath.join p subdir, Some (_generate_id p))
        ∈ dirs_under d directory parent_id.
Proof.
  induction d as [st|e|entries IH] using node_induction;
    intros directory parent_id d' p par' subdir Ht Hsub.
  - simpl in Ht. apply list_elem_of_singleton in Ht. injection Ht as -> -> ->.
    simpl in Hsub. inversion Hsub.
  - simpl in Ht. apply list_elem_of_singleton in Ht. injection Ht as -> -> ->.
    simpl in Hsub. inversion Hsub.
  - rewrite dirs_under_listed in *.
    apply elem_of_cons in Ht as [Ht|Ht].
    + injection Ht as -> -> ->. simpl in Hsub. unfold dirnames in Hsub.
      apply list_elem_of_fmap in Hsub as ([name sub] & -> & He).
      exists sub. right. apply elem_of_flat_map.
      exists (name, sub). split; [exact He|]. apply dirs_under_root.
    + apply elem_of_flat_map in Ht as ([name sub] & He & Ht).
      assert (IHsub : forall directory parent_id d' p par' subdir,
                 (d', p, par') ∈ dirs_under sub directory parent_id ->
                 subdir ∈ subdir_names d' ->
                 exists sub',
                   (sub', OsPath.join p subdir, Some (_generate_id p))
                     ∈ dirs_under sub directory parent_id).
      { rewrite Forall_forall in IH. apply (IH (name, sub)).
        apply list_elem_of_In, filter_In in He as [He _].
        apply list_elem_of_In. exact He. }
      destruct (IHsub _ _ _ _ _ _ Ht Hsub) as [sub' Hsub'].
      exists sub'. right. apply elem_of_flat_map. exists (name, sub). auto.
Qed.

(** Every visited directory but the root is a sub-directory of a visited
    directory, and has the identifier of that one as its parent. *)
Lemma dirs_under_parent (d : node) :
  forall directory parent_id d' p par',
    (d', p, par') ∈ dirs_under d directory parent_id ->
    (d', p, par') = (d, directory, parent_id) \/
    exists dp pp parp subdir,
      (dp, pp, parp) ∈ dirs_under d directory parent_id /\
      subdir ∈ subdir_names dp /\
      p = OsPath.join pp subdir /\ par' = Some (_generate_id pp).
Proof.
  induction d as [st|e|entries IH] using node_induction;
    intros directory parent_id d' p par' Ht.
  - simpl in Ht. apply list_elem_of_singleton in Ht. auto.
  - simpl in Ht. apply list_elem_of_singleton in Ht. auto.
  - rewrite dirs_under_listed in *.
    apply elem_of_cons in Ht as [Ht|Ht]; [auto|]. right.
    apply elem_of_flat_map in Ht as ([name sub] & He & Ht).
    assert (Hname : name ∈ dirnames entries).
    { unfold dirnames. apply list_elem_of_fmap. exists (name, sub). auto. }
    rewrite Forall_forall in IH.
    assert (Hin : (name, sub) ∈ entries).
    { apply list_elem_of_In, filter_In in He as [He _].
      apply list_elem_of_In. exact He. }
    destruct (IH _ Hin _ _ _ _ _ Ht) as [Heq|(dp & pp & parp & subdir & Hp & Hs & -> & ->)].
    + injection Heq as -> -> ->.
      exists (Dir (Py.Ok entries)), directory, parent_id, name.
      repeat split; auto. left.
    + exists dp, pp, parp, subdir. repeat split; auto.
      right. apply elem_of_flat_map. exists (name, sub). auto.
Qed.

Lemma NoDup_flat_map_part {A B} (f : A -> list B) (l : list A) (x : A) :
  NoDup (flat_map f l) -> x ∈ l -> NoDup (f x).
Proof.
  induction l as [|y l IH]; simpl; intros Hnd Hx; [inversion Hx|].
  apply NoDup_app in Hnd as (Hy & _ & Hl).
  apply elem_of_cons in Hx as [->|Hx]; auto.
Qed.

Lemma NoDup_flat_map_heads {A B} (f : A -> list B) (h : A -> B) (l : list A) :
  (forall x, x ∈ l -> exists tl, f x = h x :: tl) ->
  NoDup (flat_map f l) -> NoDup (map h l).
Proof.
  induction l as [|y l IH]; simpl; intros Hhead Hnd; [constructor|].
  apply NoDup_app in Hnd as (Hy & Hdisj & Hl).
  apply NoDup_cons. split.
  - intros Hin. apply list_elem_of_fmap in Hin as (z & Hz & Hzl).
    destruct (Hhead y) as [tl Hfy]; [left|].
    destruct (Hhead z) as [tlz Hfz]; [right; exact Hzl|].
    apply (Hdisj (h y)).
    + rewrite Hfy. left.
    + apply elem_of_flat_map. exists z. split; [exact Hzl|].
      rewrite Hfz, Hz. left.
  - apply IH; [|exact Hl]. intros x Hx. apply Hhead. right. exact Hx.
Qed.

Lemma NoDup_map_inj_on {A B} (f : A -> B) (l : list A) (x y : A) :
  NoDup (map f l) -> x ∈ l -> y ∈ l -> f x = f y -> x = y.
Proof.
  induction l as [|z l IH]; simpl; intros Hnd Hx Hy Heq; [inversion Hx|].
  apply NoDup_cons in Hnd as [Hz Hnd].
  apply elem_of_cons in Hx as [->|Hx]; apply elem_of_cons in Hy as [->|Hy];
    auto.
  - exfalso. apply Hz. rewrite Heq. apply list_elem_of_fmap. eauto.
  - exfalso. apply Hz. rewrite <- Heq. apply list_elem_of_fmap. eauto.
Qed.

(** Without two directories of the same identifier, no directory has two
    sub-directories of the same identifier. *)
Lemma child_ids_NoDup (d : node) :
  forall directory parent_id d' p par',
    NoDup (dir_ids d directory parent_id) ->
    (d', p, par') ∈ dirs_under d directory parent_id ->
    NoDup (map (fun subdir => _generate_id (OsPath.join p subdir))
               (subdir_names d')).
Proof.
  unfold dir_ids.
  induction d as [st|e|entries IH] using node_induction;
    intros directory parent_id d' p par' Hnd Ht.
  - simpl in Ht. apply list_elem_of_singleton in Ht. injection Ht as -> -> ->.
    constructor.
  - simpl in Ht. apply list_elem_of_singleton in Ht. injection Ht as -> -> ->.
    constructor.
  - rewrite dirs_under_listed in *. cbn [map] in Hnd.
    apply NoDup_cons in Hnd as [_ Hnd].
    set (dirs := List.filter (fun e => is_dir (snd e)) entries) in *.
    set (f := fun e : string * node =>
                map (fun t : node * string * option string =>
                       _generate_id (snd (fst t)))
                    (dirs_under (snd e) (OsPath.join directory (fst e))
                                (Some (_generate_id directory)))).
    assert (Hflat : NoDup (flat_map f dirs)).
    { unfold f. rewrite <- map_of_flat_map. exact Hnd. }
    apply elem_of_cons in Ht as [Ht|Ht].
    + injection Ht as -> -> ->. simpl. unfold dirnames. fold dirs.
      rewrite map_map.
      apply (NoDup_flat_map_heads f); [|exact Hflat].
      intros [name sub] _. unfold f. simpl.
      destruct (dirs_under_head sub (OsPath.join directory name)
                  (Some (_generate_id directory))) as [rest ->].
      simpl. eauto.
    + apply elem_of_flat_map in Ht as ([name sub] & He & Ht).
      rewrite Forall_forall in IH.
      assert (Hin : (name, sub) ∈ entries).
      { apply list_elem_of_In, filter_In in He as [He _].
        apply list_elem_of_In. exact He. }
      apply (IH _ Hin _ _ _ _ _ (NoDup_flat_map_part f dirs _ Hflat He) Ht).
Qed.

Lemma expected_node_id sizes c t :
  Node.id (expected_node sizes c t) = _generate_id (snd (fst t)).
Proof. destruct t as [[d p] par]. reflexivity. Qed.

(** C6.  When no two directories below the root have the same identifier,
    the mapping is a tree: its only node without a parent is the node of
    the root, no list of children has a duplicate, and every other node is
    a child of exactly one node, the one that it names as its parent. *)
Theorem mapping_is_a_tree (d : node) (root : string) (m : gmap string Node.t) :
  scan_and_build d root = Py.Ok m ->
  NoDup (dir_ids d root None) ->
  (exists r, m !! _generate_id root = Some r /\ Node.parent r = None /\
             forall id n, m !! id = Some n -> Node.parent n = None ->
                          id = _generate_id root) /\
  (forall id n, m !! id = Some n -> NoDup (Node.children n)) /\
  (forall id n, m !! id = Some n -> id <> _generate_id root ->
     exists pid p, m !! pid = Some p /\ Node.parent n = Some pid /\
                   id ∈ Node.children p /\
                   forall pid' p', m !! pid' = Some p' ->
                                   id ∈ Node.children p' -> pid' = pid).
Proof.
  intros Hrun Hids.
  destruct (scan_and_build_nodes d root m Hrun)
    as (self & new & _ & Hnew & Hin & Hall).
  set (expected := expected_node (dir_sizes self) (colors self)) in *.
  set (D := dirs_under d root None) in *.
  assert (Hnd : NoDup (map Node.id new)).
  { rewrite Hnew, map_map.
    erewrite map_ext; [exact Hids|]. intros t. apply expected_node_id. }
  assert (Hfrom : forall id n, m !! id = Some n ->
            exists t, t ∈ D /\ n = expected t /\ id = _generate_id (snd (fst t))).
  { intros id n Hn. destruct (Hin id n Hn) as [Hmem Hid].
    rewrite Hnew in Hmem. apply list_elem_of_fmap in Hmem as (t & -> & Ht).
    exists t. repeat split; auto. rewrite <- Hid. apply expected_node_id. }
  assert (Hto : forall t, t ∈ D ->
            m !! _generate_id (snd (fst t)) = Some (expected t)).
  { intros t Ht. rewrite <- (expected_node_id (dir_sizes self) (colors self)).
    apply (Hall Hnd). rewrite Hnew. apply list_elem_of_fmap. eauto. }
  assert (Hsame : forall t t', t ∈ D -> t' ∈ D ->
            _generate_id (snd (fst t)) = _generate_id (snd (fst t')) -> t = t').
  { intros t t' Ht Ht'.
    apply (NoDup_map_inj_on (fun t => _generate_id (snd (fst t))) D);
      assumption. }
  assert (Hchild : forall d' p par' id,
            id ∈ Node.children (expected (d', p, par')) ->
            exists subdir, subdir ∈ subdir_names d' /\
                           id = _generate_id (OsPath.join p subdir)).
  { intros d' p par' id. simpl. intros Hid.
    apply list_elem_of_fmap in Hid as (subdir & -> & Hs).
    exists subdir. split; [|reflexivity]. rewrite <- sorted_permutation. exact Hs. }
  repeat split.
  - exists (expected (d, root, None)). split; [|split; [reflexivity|]].
    + apply (Hto (d, root, None)). apply dirs_under_root.
    + intros id n Hn Hpar.
      destruct (Hfrom id n Hn) as ([[d' p] par'] & Ht & -> & ->).
      simpl in Hpar. subst par'.
      destruct (dirs_under_parent _ _ _ _ _ _ Ht)
        as [Heq|(? & ? & ? & ? & _ & _ & _ & Habs)]; [|discriminate].
      injection Heq as _ ->. reflexivity.
  - intros id n Hn.
    destruct (Hfrom id n Hn) as ([[d' p] par'] & Ht & -> & _). simpl.
    rewrite sorted_permutation.
    apply (child_ids_NoDup d root None d' p par' Hids Ht).
  - intros id n Hn Hroot.
    destruct (Hfrom id n Hn) as ([[d' p] par'] & Ht & -> & ->).
    destruct (dirs_under_parent _ _ _ _ _ _ Ht)
      as [Heq|(dp & pp & parp & subdir & Hp & Hs & -> & ->)].
    { injection Heq as _ -> _. contradiction Hroot. reflexivity. }
    exists (_generate_id pp), (expected (dp, pp, parp)).
    split; [apply (Hto _ Hp)|]. split; [reflexivity|]. split.
    + simpl. apply list_elem_of_fmap. exists subdir. split; [reflexivity|].
      rewrite sorted_permutation. exact Hs.
    + intros pid' p' Hp' Hmem.
      destruct (Hfrom pid' p' Hp') as ([[d2 p2] par2] & Ht2 & -> & ->).
      destruct (Hchild _ _ _ _ Hmem) as (subdir2 & Hs2 & Heq).
      destruct (dirs_under_child d root None d2 p2 par2 subdir2 Ht2 Hs2)
        as [sub2 Hsub2].
      pose proof (f_equal snd (Hsame _ _ Ht Hsub2 Heq)) as Hpar.
      cbn [fst snd] in *. congruence.
Qed.

Lemma mapping_is_a_tree_witness :
  scan_and_build scenario_root "/r" = Py.Ok scenario_tree /\
  NoDup (dir_ids scenario_root "/r" None) /\
  (exists r, scenario_tree !! _generate_id "/r" = Some r /\
             Node.parent r = None /\
             forall id n, scenario_tree !! id = Some n ->
                          Node.parent n = None -> id = _generate_id "/r") /\
  (forall id n, scenario_tree !! id = Some n -> NoDup (Node.children n)) /\
  (forall id n, scenario_tree !! id = Some n -> id <> _generate_id "/r" ->
     exists pid p, scenario_tree !! pid = Some p /\ Node.parent n = Some pid /\
                   id ∈ Node.children p /\
                   forall pid' p', scenario_tree !! pid' = Some p' ->
                                   id ∈ Node.children p' -> pid' = pid).
Proof.
  assert (Hm : scan_and_build scenario_root "/r" = Py.Ok scenario_tree)
    by (vm_compute; reflexivity).
  assert (Hids : NoDup (dir_ids scenario_root "/r" None)).
  { apply (bool_decide_unpack _). vm_compute. reflexivity. }
  split; [exact Hm|]. split; [exact Hids|].
  exact (mapping_is_a_tree scenario_root "/r" scenario_tree Hm Hids).
Defined.

(** With two sub-directories of the same identifier the mapping is not a
    tree: the second node replaces the first, and the root lists the
    shared identifier twice. *)
Lemma colliding_siblings_duplicate_child :
  _generate_id "/r/d52557" = _generate_id "/r/d119253" /\
  scan_and_build colliding_root "/r" = Py.Ok colliding_tree /\
  colliding_tree !! _generate_id "/r" = Some colliding_root_node /\
  ~ NoDup (Node.children colliding_root_node) /\
  size colliding_tree = 2%nat.
Proof.
  split; [vm_compute; reflexivity|].
  split; [vm_compute; reflexivity|].
  split; [vm_compute; reflexivity|].
  split; [|vm_compute; reflexivity].
  change (Node.children colliding_root_node)
    with ["node_f917368a"; "node_f917368a"].
  intros Hnd. apply NoDup_cons in Hnd as [Hnot _]. apply Hnot. left.
Qed.

(** ** The search of the page *)

Module ClientFacts.
Import Client.

Ltac done_bind H :=
  match type of H with
  | bind ?r _ = Done _ =>
      let E := fresh "E" in
      destruct r eqn:E; cbn [bind] in H; try discriminate H
  end.

Lemma set_expanded_done id v st :
  is_Some (nodeStates st !! id) ->
  exists s, nodeStates st !! id = Some s /\
            set_expanded id v st
            = Done (State (<[id := NodeState v (visible s)]> (nodeStates st))
                          (highlight st)).
Proof. intros [s Hs]. exists s. unfold set_expanded. rewrite Hs. auto. Qed.

Lemma set_visible_done id v st :
  is_Some (nodeStates st !! id) ->
  exists s, nodeStates st !! id = Some s /\
            set_visible id v st
            = Done (State (<[id := NodeState (expanded s) v]> (nodeStates st))
                          (highlight st)).
Proof. intros [s Hs]. exists s. unfold set_visible. rewrite Hs. auto. Qed.

(** [nodeStates[id].expanded = true; nodeStates[id].visible = true] *)
Lemma switch_on id st :
  is_Some (nodeStates st !! id) ->
  bind (set_expanded id true st) (set_visible id true)
  = Done (State (<[id := ON]> (nodeStates st)) (highlight st)).
Proof.
  intros Hid. destruct (set_expanded_done id true st Hid) as (s & Hs & ->).
  cbn [bind]. unfold set_visible. cbn [nodeStates highlight].
  rewrite lookup_insert_eq, insert_insert_eq. reflexivity.
Qed.

(** The body of the first loop leaves the node invisible, collapsed and
    not highlighted. *)
Lemma reset_node_done id st :
  is_Some (nodeStates st !! id) ->
  reset_node st id
  = Done (State (<[id := OFF]> (nodeStates st)) (<[id := false]> (highlight st))).
Proof.
  intros Hid. unfold reset_node.
  destruct (set_visible_done id false (set_highlight id false st) Hid)
    as (s & Hs & ->).
  cbn [bind]. unfold set_expanded. cbn [nodeStates highlight].
  rewrite lookup_insert_eq, insert_insert_eq. reflexivity.
Qed.

Lemma reset_node_inv id st st1 :
  reset_node st id = Done st1 ->
  st1 = State (<[id := OFF]> (nodeStates st)) (<[id := false]> (highlight st)).
Proof.
  destruct (nodeStates st !! id) as [s|] eqn:Hid.
  - rewrite reset_node_done by eauto. congruence.
  - unfold reset_node, set_visible, set_highlight. cbn [nodeStates highlight].
    rewrite Hid. discriminate.
Qed.

Lemma reset_keeps_off (l : list string) :
  forall st st' id,
    for_each reset_node l st = Done st' ->
    nodeStates st !! id = Some OFF -> highlight st !! id = Some false ->
    nodeStates st' !! id = Some OFF /\ highlight st' !! id = Some false.
Proof.
  induction l as [|y l IH]; intros st st' id Hrun Hns Hhl.
  - injection Hrun as <-. auto.
  - cbn [for_each] in Hrun. done_bind Hrun.
    apply reset_node_inv in E. subst a.
    apply (IH _ _ _ Hrun); cbn [nodeStates highlight].
    + destruct (decide (y = id)) as [->|Hne].
      * apply lookup_insert_eq.
      * rewrite lookup_insert_ne by assumption. exact Hns.
    + destruct (decide (y = id)) as [->|Hne].
      * apply lookup_insert_eq.
      * rewrite lookup_insert_ne by assumption. exact Hhl.
Qed.

Lemma reset_all (l : list string) :
  forall st,
    (forall id, id ∈ l -> is_Some (nodeStates st !! id)) ->
    exists st',
      for_each reset_node l st = Done st' /\
      (forall id, id ∈ l ->
                  nodeStates st' !! id = Some OFF /\
                  highlight st' !! id = Some false) /\
      (forall id, is_Some (nodeStates st !! id) -> is_Some (nodeStates st' !! id)).
Proof.
  induction l as [|x l IH]; intros st Hdom.
  - exists st. split; [reflexivity|]. split; [|auto].
    intros id Hid. inversion Hid.
  - cbn [for_each]. rewrite reset_node_done by (apply Hdom; left).
    cbn [bind].
    set (st1 := State (<[x := OFF]> (nodeStates st))
                      (<[x := false]> (highlight st))).
    destruct (IH st1) as (st' & Hrun & Hoff & Hkeep).
    { intros id Hid. unfold st1. cbn [nodeStates].
      destruct (decide (x = id)) as [->|Hne].
      - rewrite lookup_insert_eq. eauto.
      - rewrite lookup_insert_ne by assumption. apply Hdom. right. exact Hid. }
    exists st'. split; [exact Hrun|]. split.
    + intros id Hid. apply elem_of_cons in Hid as [->|Hid].
      * apply (reset_keeps_off l st1 st' x Hrun); unfold st1;
          cbn [nodeStates highlight]; apply lookup_insert_eq.
      * apply Hoff. exact Hid.
    + intros id Hid. apply Hkeep. unfold st1. cbn [nodeStates].
      destruct (decide (x = id)) as [->|Hne].
      * rewrite lookup_insert_eq. eauto.
      * rewrite lookup_insert_ne by assumption. exact Hid.
Qed.

Lemma truthy_key (p : string) : p <> "" -> truthy (Some p) = Some p.
Proof.
  intros Hp. unfold truthy. destruct (String.eqb_spec p ""); congruence.
Qed.

Section Search.
Variable doc : document.
Variable rank : string -> nat.
Hypothesis keys_of_treeData :
  forall id, id ∈ keys doc <-> is_Some (treeData doc !! id).
Hypothesis parent_in_keys :
  forall id n p, treeData doc !! id = Some n -> parent n = Some p ->
                 p ∈ keys doc.
Hypothesis parent_rank :
  forall id n p, treeData doc !! id = Some n -> parent n = Some p ->
                 (rank p < rank id)%nat.
Hypothesis keys_not_empty : forall id, id ∈ keys doc -> id <> "".

(** The loop over the ancestors: it ends within [fuel] rounds when the
    ranks are below [fuel], switches on the start and everything above it
    and changes nothing else. *)
Lemma expand_ancestors_spec (fuel : nat) :
  forall start st,
    (forall id, id ∈ keys doc -> is_Some (nodeStates st !! id)) ->
    (forall p, start = Some p -> p ∈ keys doc /\ (rank p < fuel)%nat) ->
    exists st',
      expand_ancestors fuel doc start st = Done st' /\
      highlight st' = highlight st /\
      (forall x p, start = Some p -> up doc x p ->
                   nodeStates st' !! x = Some ON) /\
      (forall x, (forall p, start = Some p -> ~ up doc x p) ->
                 nodeStates st' !! x = nodeStates st !! x) /\
      (forall x, nodeStates st !! x = Some ON -> nodeStates st' !! x = Some ON) /\
      (forall x, is_Some (nodeStates st !! x) -> is_Some (nodeStates st' !! x)).
Proof.
  induction fuel as [|fuel IH]; intros [p|] st Hdom Hstart;
    try (exists st; repeat split; auto; intros; discriminate).
  - destruct (Hstart p eq_refl) as [_ Hlt]. lia.
  - destruct (Hstart p eq_refl) as [Hp Hlt].
    cbn [expand_ancestors]. rewrite (truthy_key p (keys_not_empty p Hp)).
    destruct (set_expanded_done p true st (Hdom p Hp)) as (s & Hs & ->).
    cbn [bind]. unfold set_visible. cbn [nodeStates highlight].
    rewrite lookup_insert_eq, insert_insert_eq. cbn [bind expanded].
    fold ON.
    destruct (proj1 (keys_of_treeData p) Hp) as [n Hn]. rewrite Hn.
    set (st2 := State (<[p := ON]> (nodeStates st)) (highlight st)).
    destruct (IH (parent n) st2) as (st' & Hrun & Hhl & HA & HB & HC & HD).
    { intros id Hid. unfold st2. cbn [nodeStates].
      destruct (decide (p = id)) as [->|Hne].
      - rewrite lookup_insert_eq. eauto.
      - rewrite lookup_insert_ne by assumption. auto. }
    { intros q Hq. split; [eapply parent_in_keys; eassumption|].
      pose proof (parent_rank p n q Hn Hq). lia. }
    exists st'. split; [exact Hrun|]. split; [exact Hhl|].
    split; [|split; [|split]].
    + intros x p' [= <-] Hup. inversion Hup as [|? ? q n' Hn' Hq Hup']; subst.
      * apply HC. unfold st2. cbn [nodeStates]. apply lookup_insert_eq.
      * rewrite Hn in Hn'. injection Hn' as <-. eapply HA; eassumption.
    + intros x Hnot.
      assert (Hne : p <> x).
      { intros ->. apply (Hnot x eq_refl). constructor. }
      rewrite HB.
      * unfold st2. cbn [nodeStates]. apply lookup_insert_ne. exact Hne.
      * intros q Hq Hup. apply (Hnot p eq_refl).
        eapply up_parent; eassumption.
    + intros x Hx. apply HC. unfold st2. cbn [nodeStates].
      destruct (decide (p = x)) as [->|Hne].
      * apply lookup_insert_eq.
      * rewrite lookup_insert_ne by assumption. exact Hx.
    + intros x Hx. apply HD. unfold st2. cbn [nodeStates].
      destruct (decide (p = x)) as [->|Hne].
      * rewrite lookup_insert_eq. eauto.
      * rewrite lookup_insert_ne by assumption. exact Hx.
Qed.

Variable fuel : nat.
Hypothesis enough_fuel : forall id, id ∈ keys doc -> (rank id < fuel)%nat.
Variable searchTerm : string.

(** One round of the second loop. *)
Lemma search_node_spec (id : string) (st : state) :
  id ∈ keys doc ->
  (forall id, id ∈ keys doc -> is_Some (nodeStates st !! id)) ->
  exists n st',
    treeData doc !! id = Some n /\
    search_node fuel doc searchTerm st id = Done st' /\
    highlight st' = <[id := matches searchTerm n]> (highlight st) /\
    (matches searchTerm n = true ->
     forall x, up doc x id -> nodeStates st' !! x = Some ON) /\
    (forall x, (matches searchTerm n = true -> ~ up doc x id) ->
               nodeStates st' !! x = nodeStates st !! x) /\
    (forall x, nodeStates st !! x = Some ON -> nodeStates st' !! x = Some ON) /\
    (forall x, is_Some (nodeStates st !! x) -> is_Some (nodeStates st' !! x)).
Proof.
  intros Hid Hdom.
  destruct (proj1 (keys_of_treeData id) Hid) as [n Hn].
  exists n. unfold search_node. rewrite Hn.
  destruct (matches searchTerm n) eqn:Hmatch.
  - destruct (set_expanded_done id true (set_highlight id true st) (Hdom id Hid))
      as (s & Hs & ->).
    cbn [bind]. unfold set_visible. cbn [nodeStates highlight set_highlight].
    rewrite lookup_insert_eq, insert_insert_eq. cbn [bind expanded]. fold ON.
    set (st2 := State (<[id := ON]> (nodeStates st))
                      (<[id := true]> (highlight st))).
    destruct (expand_ancestors_spec fuel (parent n) st2)
      as (st' & Hrun & Hhl & HA & HB & HC & HD).
    { intros x Hx. unfold st2. cbn [nodeStates].
      destruct (decide (id = x)) as [->|Hne].
      - rewrite lookup_insert_eq. eauto.
      - rewrite lookup_insert_ne by assumption. auto. }
    { intros q Hq. split; [eapply parent_in_keys; eassumption|].
      pose proof (parent_rank id n q Hn Hq).
      pose proof (enough_fuel id Hid). lia. }
    exists st'. split; [reflexivity|]. split; [exact Hrun|].
    split; [exact Hhl|]. split; [|split; [|split]].
    + intros _ x Hup. inversion Hup as [|? ? q n' Hn' Hq Hup']; subst.
      * apply HC. unfold st2. cbn [nodeStates]. apply lookup_insert_eq.
      * rewrite Hn in Hn'. injection Hn' as <-. eapply HA; eassumption.
    + intros x Hnot. specialize (Hnot eq_refl).
      assert (Hne : id <> x).
      { intros ->. apply Hnot. constructor. }
      rewrite HB.
      * unfold st2. cbn [nodeStates]. apply lookup_insert_ne. exact Hne.
      * intros q Hq Hup. apply Hnot. eapply up_parent; eassumption.
    + intros x Hx. apply HC. unfold st2. cbn [nodeStates].
      destruct (decide (id = x)) as [->|Hne].
      * apply lookup_insert_eq.
      * rewrite lookup_insert_ne by assumption. exact Hx.
    + intros x Hx. apply HD. unfold st2. cbn [nodeStates].
      destruct (decide (id = x)) as [->|Hne].
      * rewrite lookup_insert_eq. eauto.
      * rewrite lookup_insert_ne by assumption. exact Hx.
  - exists (set_highlight id false st). repeat split; auto. discriminate.
Qed.

(** The second loop, over any list of keys. *)
Lemma search_loop_spec (l : list string) :
  forall st,
    (forall id, id ∈ l -> id ∈ keys doc) ->
    (forall id, id ∈ keys doc -> is_Some (nodeStates st !! id)) ->
    exists st',
      for_each (search_node fuel doc searchTerm) l st = Done st' /\
      (forall x n, x ∈ l -> treeData doc !! x = Some n ->
                   highlight st' !! x = Some (matches searchTerm n)) /\
      (forall x, x ∉ l -> highlight st' !! x = highlight st !! x) /\
      (forall x m n, m ∈ l -> treeData doc !! m = Some n ->
                     matches searchTerm n = true -> up doc x m ->
                     nodeStates st' !! x = Some ON) /\
      (forall x, (forall m n, m ∈ l -> treeData doc !! m = Some n ->
                              matches searchTerm n = true -> ~ up doc x m) ->
                 nodeStates st' !! x = nodeStates st !! x) /\
      (forall x, nodeStates st !! x = Some ON -> nodeStates st' !! x = Some ON) /\
      (forall x, is_Some (nodeStates st !! x) -> is_Some (nodeStates st' !! x)).
Proof.
  induction l as [|id l IH]; intros st Hl Hdom.
  - exists st. split; [reflexivity|].
    repeat split; auto; intros; match goal with H : _ ∈ [] |- _ => inversion H end.
  - destruct (search_node_spec id st (Hl id ltac:(left)) Hdom)
      as (n & st1 & Hn & Hstep & Hhl1 & HA1 & HB1 & HC1 & HD1).
    destruct (IH st1) as (st' & Hrun & Hhl & Hother & HA & HB & HC & HD).
    { intros x Hx. apply Hl. right. exact Hx. }
    { intros x Hx. apply HD1, Hdom, Hx. }
    exists st'. cbn [for_each]. rewrite Hstep. cbn [bind].
    split; [exact Hrun|]. split; [|split; [|split; [|split; [|split]]]].
    + intros x n' Hx Hn'. destruct (decide (x ∈ l)) as [Hin|Hnot].
      * apply Hhl; assumption.
      * apply elem_of_cons in Hx as [->|Hx]; [|contradiction].
        rewrite Hother, Hhl1 by assumption. rewrite Hn in Hn'.
        injection Hn' as <-. apply lookup_insert_eq.
    + intros x Hx. apply not_elem_of_cons in Hx as [Hne Hx].
      rewrite Hother, Hhl1 by assumption. apply lookup_insert_ne. congruence.
    + intros x m n' Hm Hn' Hmatch Hup.
      apply elem_of_cons in Hm as [->|Hm].
      * apply HC. rewrite Hn in Hn'. injection Hn' as <-. apply HA1; assumption.
      * eapply HA; eassumption.
    + intros x Hnot. rewrite HB, HB1.
      * reflexivity.
      * intros Hmatch. apply (Hnot id n); [left|assumption..].
      * intros m n' Hm. apply Hnot. right. exact Hm.
    + intros x Hx. apply HC, HC1, Hx.
    + intros x Hx. apply HD, HD1, Hx.
Qed.

End Search.

(** The loop over the children of the root makes them visible and leaves
    the rest as it is. *)
Lemma show_children (l : list string) :
  forall st,
    (forall c, c ∈ l -> is_Some (nodeStates st !! c)) ->
    exists st',
      for_each (fun st childId => set_visible childId true st) l st = Done st' /\
      highlight st' = highlight st /\
      forall x s, nodeStates st !! x = Some s ->
                  nodeStates st' !! x
                  = Some (NodeState (expanded s)
                                    (visible s || bool_decide (x ∈ l))).
Proof.
  induction l as [|c l IH]; intros st Hdom.
  - exists st. repeat split; auto. intros x [e v] ->. cbn.
    rewrite orb_false_r. reflexivity.
  - cbn [for_each].
    destruct (set_visible_done c true st (Hdom c ltac:(left))) as (s & Hs & ->).
    cbn [bind].
    destruct (IH (State (<[c := NodeState (expanded s) true]> (nodeStates st))
                        (highlight st)))
      as (st' & Hrun & Hhl & Hns).
    { intros x Hx. cbn [nodeStates]. destruct (decide (c = x)) as [->|Hne].
      - rewrite lookup_insert_eq. eauto.
      - rewrite lookup_insert_ne by assumption. apply Hdom. right. exact Hx. }
    exists st'. split; [exact Hrun|]. split; [exact Hhl|].
    intros x sx Hx. cbn [nodeStates] in Hns.
    destruct (decide (c = x)) as [->|Hne].
    + rewrite (Hns x (NodeState (expanded s) true)) by apply lookup_insert_eq.
      rewrite Hs in Hx. injection Hx as <-. cbn.
      rewrite (bool_decide_true (x ∈ x :: l)) by left.
      rewrite orb_true_r. reflexivity.
    + rewrite (Hns x sx) by (rewrite lookup_insert_ne by assumption; exact Hx).
      do 3 f_equal. apply bool_decide_ext. rewrite elem_of_cons.
      intuition congruence.
Qed.

(** The branch of the empty search term, after the first loop. *)
Lemma show_root_spec (doc : document) (st : state) :
  well_formed doc st ->
  (forall id, id ∈ keys doc -> nodeStates st !! id = Some OFF) ->
  exists st',
    show_root doc st = Done st' /\
    highlight st' = highlight st /\
    forall id, id ∈ keys doc ->
               nodeStates st' !! id = Some (default_state doc id).
Proof.
  intros Hwf Hoff. unfold show_root, default_state.
  destruct (rootId doc) as [r|] eqn:Hroot.
  - pose proof (wf_root _ _ Hwf r Hroot) as Hr.
    rewrite (truthy_key r (wf_ids _ _ Hwf r Hr)).
    destruct (set_expanded_done r true st (wf_states _ _ Hwf r Hr)) as (s & Hs & ->).
    cbn [bind]. unfold set_visible. cbn [nodeStates highlight].
    rewrite lookup_insert_eq, insert_insert_eq. cbn [bind expanded]. fold ON.
    destruct (proj1 (wf_keys _ _ Hwf r) Hr) as [root Hn]. rewrite Hn.
    destruct (show_children (children root)
                (State (<[r := ON]> (nodeStates st)) (highlight st)))
      as (st' & Hrun & Hhl & Hns).
    { intros c Hc. cbn [nodeStates]. destruct (decide (r = c)) as [->|Hne].
      - rewrite lookup_insert_eq. eauto.
      - rewrite lookup_insert_ne by assumption.
        apply (wf_states _ _ Hwf).
        apply (wf_root_children _ _ Hwf r root c Hroot Hn Hc). }
    exists st'. split; [exact Hrun|]. split; [exact Hhl|].
    intros id Hid. cbn [nodeStates] in Hns.
    destruct (decide (id = r)) as [->|Hne].
    + rewrite (Hns r ON) by apply lookup_insert_eq.
      rewrite (bool_decide_true (r = r)) by reflexivity. reflexivity.
    + rewrite (Hns id OFF)
        by (rewrite lookup_insert_ne by congruence; apply Hoff, Hid).
      rewrite (bool_decide_false (id = r)) by assumption. reflexivity.
  - exists st. repeat split; auto.
Qed.

(** X1 (the subject of C7).  Typing [value] into the search box: if its
    lower-case form has a character that is not white space, every node
    whose lower-case name contains it is highlighted, a node is expanded
    and visible when it is such a match or an ancestor of one, and
    collapsed and invisible otherwise; if it is empty or white space only,
    nothing is highlighted, the root alone is expanded and the root and its
    children alone are visible. *)
Theorem search_shows_matches_and_ancestors
    (doc : document) (st : state) (rank : string -> nat) (fuel : nat)
    (value : string) :
  well_formed doc st ->
  (forall id n p, treeData doc !! id = Some n -> parent n = Some p ->
                  (rank p < rank id)%nat) ->
  (forall id, id ∈ keys doc -> (rank id < fuel)%nat) ->
  exists st',
    on_search_input fuel doc value st = Done st' /\
    forall id n,
      treeData doc !! id = Some n ->
      if blank (toLowerCase value)
      then highlight st' !! id = Some false /\
           nodeStates st' !! id = Some (default_state doc id)
      else highlight st' !! id = Some (matches (toLowerCase value) n) /\
           (reaches_match doc (toLowerCase value) id ->
            nodeStates st' !! id = Some ON) /\
           (~ reaches_match doc (toLowerCase value) id ->
            nodeStates st' !! id = Some OFF).
Proof.
  intros Hwf Hrank Hfuel. unfold on_search_input, searchNodes.
  set (term := toLowerCase value).
  destruct (reset_all (keys doc) st (wf_states _ _ Hwf))
    as (st1 & -> & Hoff & Hkeep).
  cbn [bind].
  assert (Hdom1 : forall id, id ∈ keys doc -> is_Some (nodeStates st1 !! id)).
  { intros id Hid. apply Hkeep, (wf_states _ _ Hwf), Hid. }
  destruct (blank term).
  - destruct (show_root_spec doc st1) as (st' & Hrun & Hhl & Hns).
    { destruct Hwf. constructor; auto. }
    { intros id Hid. apply Hoff, Hid. }
    exists st'. split; [exact Hrun|]. intros id n Hn.
    assert (Hid : id ∈ keys doc).
    { apply (wf_keys _ _ Hwf). eauto. }
    split; [|apply Hns, Hid]. rewrite Hhl. apply Hoff, Hid.
  - destruct (search_loop_spec doc rank (wf_keys _ _ Hwf) (wf_parent _ _ Hwf)
                Hrank (wf_ids _ _ Hwf) fuel Hfuel term (keys doc) st1
                (fun _ H => H) Hdom1)
      as (st' & Hrun & Hhl & _ & HA & HB & _ & _).
    exists st'. split; [exact Hrun|]. intros id n Hn.
    assert (Hid : id ∈ keys doc).
    { apply (wf_keys _ _ Hwf). eauto. }
    split; [apply Hhl; assumption|]. split.
    + intros (m & nm & Hm & Hnm & Hmatch & Hup). eapply HA; eassumption.
    + intros Hnot. rewrite HB; [apply Hoff, Hid|].
      intros m nm Hm Hnm Hmatch Hup. apply Hnot.
      exists m, nm. auto.
Qed.

Ltac in_list H :=
  repeat (apply elem_of_cons in H as [H|H]); [..|inversion H].

Lemma scenario_well_formed : well_formed scenario scenario_loaded.
Proof.
  constructor.
  - intros id. unfold scenario. cbn [treeData keys].
    rewrite <- elem_of_dom, dom_list_to_map_L, elem_of_list_to_set.
    reflexivity.
  - intros id n p Hn Hp. apply elem_of_list_to_map_2 in Hn.
    in_list Hn; injection Hn as -> ->; cbn in Hp; try discriminate Hp;
      injection Hp as <-; cbn; set_solver.
  - intros r [= <-]. cbn. set_solver.
  - intros r n c [= <-] Hn Hc. vm_compute in Hn. injection Hn as <-.
    cbn in Hc. in_list Hc; subst c; cbn; set_solver.
  - intros id Hid. cbn in Hid. in_list Hid; subst id; vm_compute; eauto.
  - intros id Hid. cbn in Hid. in_list Hid; subst id; discriminate.
Qed.

Lemma scenario_ranked :
  (forall id n p, treeData scenario !! id = Some n -> parent n = Some p ->
                  (scenario_rank p < scenario_rank id)%nat) /\
  (forall id, id ∈ keys scenario -> (scenario_rank id < 3)%nat).
Proof.
  split.
  - intros id n p Hn Hp. apply elem_of_list_to_map_2 in Hn.
    in_list Hn; injection Hn as -> ->; cbn in Hp; try discriminate Hp;
      injection Hp as <-; vm_compute; lia.
  - intros id Hid. cbn in Hid. in_list Hid; subst id; vm_compute; lia.
Qed.

Lemma search_shows_matches_and_ancestors_witness :
  well_formed scenario scenario_loaded /\
  exists st',
    on_search_input 3 scenario "Plot" scenario_loaded = Done st' /\
    forall id n,
      treeData scenario !! id = Some n ->
      if blank (toLowerCase "Plot")
      then highlight st' !! id = Some false /\
           nodeStates st' !! id = Some (default_state scenario id)
      else highlight st' !! id = Some (matches (toLowerCase "Plot") n) /\
           (reaches_match scenario (toLowerCase "Plot") id ->
            nodeStates st' !! id = Some ON) /\
           (~ reaches_match scenario (toLowerCase "Plot") id ->
            nodeStates st' !! id = Some OFF).
Proof.
  split; [exact scenario_well_formed|].
  exact (search_shows_matches_and_ancestors scenario scenario_loaded
           scenario_rank 3 "Plot" scenario_well_formed
           (proj1 scenario_ranked) (proj2 scenario_ranked)).
Defined.

(** The two scenarios, run: searching "Plot" in [root -> {Idea, Story}],
    [Story -> {Plot}] highlights [Plot] and shows it together with [Story]
    and [root], and hides [Idea]; a space typed into the box is no search,
    although the name "My Games" contains it. *)
Lemma search_scenarios :
  (exists st',
     on_search_input 3 scenario "Plot" scenario_loaded = Done st' /\
     highlight st' !! "plot" = Some true /\
     nodeStates st' !! "plot" = Some ON /\
     nodeStates st' !! "story" = Some ON /\
     nodeStates st' !! "root" = Some ON /\
     nodeStates st' !! "idea" = Some OFF) /\
  (exists st',
     on_search_input 2 spaced " " spaced_loaded = Done st' /\
     includes (toLowerCase "My Games") " " = true /\
     highlight st' !! "games" = Some false).
Proof.
  split.
  - destruct (on_search_input 3 scenario "Plot" scenario_loaded) as [st'| |] eqn:E;
      try (vm_compute in E; discriminate E).
    exists st'. split; [reflexivity|].
    vm_compute in E. injection E as <-. repeat split; vm_compute; reflexivity.
  - destruct (on_search_input 2 spaced " " spaced_loaded) as [st'| |] eqn:E;
      try (vm_compute in E; discriminate E).
    exists st'. split; [reflexivity|].
    vm_compute in E. injection E as <-. repeat split; vm_compute; reflexivity.
Qed.

(** *** The state at load time *)

Lemma find_root_done (data : gmap string tree_node) (ks : list string) :
  (forall id, id ∈ ks -> is_Some (data !! id)) ->
  exists r,
    find_root data ks = Done r /\
    forall x, r = Some x ->
              x ∈ ks /\ exists n, data !! x = Some n /\ truthy (parent n) = None.
Proof.
  induction ks as [|k ks IH]; intros Hdef.
  - exists None. split; [reflexivity|]. intros x Hx. discriminate.
  - cbn [find_root]. destruct (Hdef k ltac:(left)) as [n Hn]. rewrite Hn.
    destruct (truthy (parent n)) as [p|] eqn:Hp.
    + destruct IH as (r & Hrun & Hr).
      { intros id Hid. apply Hdef. right. exact Hid. }
      exists r. split; [exact Hrun|]. intros x Hx.
      destruct (Hr x Hx) as [Hin Hroot]. split; [right; exact Hin|exact Hroot].
    + exists (Some k). split; [reflexivity|]. intros x [= <-].
      split; [left|eauto].
Qed.

Lemma new_states_lookup (r : option string) (ks : list string) :
  forall m id,
    fold_left (new_state r) ks m !! id
    = if bool_decide (id ∈ ks)
      then Some (NodeState (bool_decide (r = Some id)) false)
      else m !! id.
Proof.
  induction ks as [|k ks IH]; intros m id.
  - cbn [fold_left]. rewrite bool_decide_false by apply not_elem_of_nil.
    reflexivity.
  - cbn [fold_left]. rewrite IH. unfold new_state.
    destruct (decide (id ∈ ks)) as [Hin|Hnot].
    + rewrite (bool_decide_true (id ∈ ks)) by exact Hin.
      rewrite (bool_decide_true (id ∈ k :: ks)) by (right; exact Hin).
      reflexivity.
    + rewrite (bool_decide_false (id ∈ ks)) by exact Hnot.
      destruct (decide (k = id)) as [->|Hne].
      * rewrite lookup_insert_eq.
        rewrite (bool_decide_true (id ∈ id :: ks)) by left. reflexivity.
      * rewrite lookup_insert_ne by exact Hne.
        rewrite bool_decide_false; [reflexivity|].
        intros Hin. apply elem_of_cons in Hin as [->|Hin]; auto.
Qed.

(** The script at load time returns: the root it finds is the first key
    without a parent; the root alone is expanded, and the root and its
    children alone are visible. *)
Lemma load_spec (data : gmap string tree_node) (ks : list string) :
  (forall id, id ∈ ks <-> is_Some (data !! id)) ->
  (forall id, id ∈ ks -> id <> "") ->
  (forall id n c, data !! id = Some n -> c ∈ children n -> c ∈ ks) ->
  exists r st0,
    load data ks = Done (Document data ks r, st0) /\
    find_root data ks = Done r /\
    (forall x, r = Some x -> x ∈ ks) /\
    highlight st0 = ∅ /\
    forall id, id ∈ ks ->
               nodeStates st0 !! id = Some (default_state (Document data ks r) id).
Proof.
  intros Hkeys Hids Hchildren.
  destruct (find_root_done data ks) as (r & Hfind & Hr).
  { intros id Hid. apply Hkeys, Hid. }
  exists r. unfold load. rewrite Hfind. cbn [bind].
  set (st := State (fold_left (new_state r) ks ∅) ∅).
  assert (Hst : forall id, id ∈ ks ->
                  nodeStates st !! id
                  = Some (NodeState (bool_decide (r = Some id)) false)).
  { intros id Hid. unfold st. cbn [nodeStates].
    rewrite new_states_lookup. rewrite (bool_decide_true (id ∈ ks)) by exact Hid.
    reflexivity. }
  unfold default_state. cbn [rootId treeData].
  destruct r as [x|].
  - destruct (Hr x eq_refl) as (Hx & root & Hroot & _).
    rewrite (truthy_key x (Hids x Hx)).
    unfold set_visible at 1. rewrite (Hst x Hx). cbn [bind expanded].
    rewrite bool_decide_true by reflexivity. fold ON. rewrite Hroot.
    destruct (show_children (children root)
                (State (<[x := ON]> (nodeStates st)) (highlight st)))
      as (st0 & Hrun & Hhl & Hns).
    { intros c Hc. cbn [nodeStates]. destruct (decide (x = c)) as [->|Hne].
      - rewrite lookup_insert_eq. eauto.
      - rewrite lookup_insert_ne by exact Hne. rewrite Hst; eauto. }
    rewrite Hrun. cbn [bind]. exists st0.
    split; [reflexivity|]. split; [reflexivity|].
    split; [intros y [= <-]; exact Hx|]. split; [exact Hhl|].
    intros id Hid. destruct (decide (id = x)) as [->|Hne].
    + rewrite (Hns x ON) by (cbn [nodeStates]; apply lookup_insert_eq).
      rewrite (bool_decide_true (x = x)) by reflexivity. reflexivity.
    + rewrite (Hns id (NodeState false false)).
      * rewrite (bool_decide_false (id = x)) by exact Hne. reflexivity.
      * cbn [nodeStates]. rewrite lookup_insert_ne by congruence.
        rewrite (Hst id Hid).
        rewrite (bool_decide_false (Some x = Some id)) by congruence.
        reflexivity.
  - cbn [truthy bind]. exists st.
    split; [reflexivity|]. split; [reflexivity|].
    split; [intros y Hy; discriminate|]. split; [reflexivity|].
    intros id Hid. rewrite (Hst id Hid).
    rewrite (bool_decide_false (None = Some id)) by discriminate.
    reflexivity.
Qed.

(** X11: the script at load time returns; it leaves the root alone
    expanded and the root and its children alone visible; and a search for
    the empty string, or for white space only, brings every node back to
    that state, whatever was folded, unfolded or searched before. *)
Theorem empty_search_restores_load_state
    (data : gmap string tree_node) (ks : list string) (st : state)
    (fuel : nat) (value : string) :
  (forall id, id ∈ ks <-> is_Some (data !! id)) ->
  (forall id, id ∈ ks -> id <> "") ->
  (forall id n c, data !! id = Some n -> c ∈ children n -> c ∈ ks) ->
  (forall id n p, data !! id = Some n -> parent n = Some p -> p ∈ ks) ->
  (forall id, id ∈ ks -> is_Some (nodeStates st !! id)) ->
  blank (toLowerCase value) = true ->
  exists doc st0 st',
    load data ks = Done (doc, st0) /\
    treeData doc = data /\ keys doc = ks /\
    find_root data ks = Done (rootId doc) /\
    on_search_input fuel doc value st = Done st' /\
    forall id, id ∈ ks ->
               nodeStates st0 !! id = Some (default_state doc id) /\
               nodeStates st' !! id = nodeStates st0 !! id.
Proof.
  intros Hkeys Hids Hchildren Hparents Hstates Hblank.
  destruct (load_spec data ks Hkeys Hids Hchildren)
    as (r & st0 & Hload & Hfind & Hr & _ & Hst0).
  set (doc := Document data ks r) in *.
  destruct (reset_all ks st Hstates) as (st1 & Hreset & Hoff & Hkeep).
  assert (Hwf : well_formed doc st1).
  { constructor; unfold doc; cbn [treeData keys rootId].
    - exact Hkeys.
    - exact Hparents.
    - exact Hr.
    - intros x n c _ Hn Hc. eapply Hchildren; eassumption.
    - intros id Hid. apply Hkeep, Hstates, Hid.
    - exact Hids. }
  destruct (show_root_spec doc st1 Hwf) as (st' & Hshow & _ & Hst').
  { intros id Hid. apply Hoff, Hid. }
  exists doc, st0, st'. split; [exact Hload|].
  split; [reflexivity|]. split; [reflexivity|]. split; [exact Hfind|].
  split.
  - unfold on_search_input, searchNodes. cbn [doc keys]. rewrite Hreset.
    cbn [bind]. rewrite Hblank. exact Hshow.
  - intros id Hid. split; [apply Hst0, Hid|].
    rewrite (Hst0 id Hid). apply Hst'. exact Hid.
Qed.

Lemma scenario_children_listed :
  forall id n c, treeData scenario !! id = Some n -> c ∈ children n ->
                 c ∈ keys scenario.
Proof.
  intros id n c Hn Hc. apply elem_of_list_to_map_2 in Hn.
  in_list Hn; injection Hn as -> ->; cbn in Hc; in_list Hc; subst c; cbn;
    set_solver.
Qed.

Lemma empty_search_restores_load_state_witness :
  exists doc st0 st',
    load (treeData scenario) (keys scenario) = Done (doc, st0) /\
    treeData doc = treeData scenario /\ keys doc = keys scenario /\
    find_root (treeData scenario) (keys scenario) = Done (rootId doc) /\
    on_search_input 3 doc "  " scenario_loaded = Done st' /\
    forall id, id ∈ keys scenario ->
               nodeStates st0 !! id = Some (default_state doc id) /\
               nodeStates st' !! id = nodeStates st0 !! id.
Proof.
  exact (empty_search_restores_load_state
           (treeData scenario) (keys scenario) scenario_loaded 3 "  "
           (wf_keys _ _ scenario_well_formed)
           (wf_ids _ _ scenario_well_formed)
           scenario_children_listed
           (wf_parent _ _ scenario_well_formed)
           (wf_states _ _ scenario_well_formed)
           eq_refl).
Defined.

(** *** Folding and unfolding *)

Section Toggle.
Variable doc : document.
Variable height : string -> nat.
Hypothesis keys_of_treeData :
  forall id, id ∈ keys doc <-> is_Some (treeData doc !! id).
Hypothesis children_in_keys :
  forall id n c, treeData doc !! id = Some n -> c ∈ children n ->
                 c ∈ keys doc.
Hypothesis child_height :
  forall id n c, treeData doc !! id = Some n -> c ∈ children n ->
                 (height c < height id)%nat.

Lemma below_height (x y : string) : below doc x y -> (height x < height y)%nat.
Proof.
  induction 1 as [x y n Hn Hx|x c y n Hn Hc _ IH].
  - eapply child_height; eassumption.
  - pose proof (child_height y n c Hn Hc). lia.
Qed.

Lemma below_keys (x y : string) : below doc x y -> x ∈ keys doc.
Proof.
  induction 1 as [x y n Hn Hx|x c y n Hn Hc _ IH]; [|exact IH].
  eapply children_in_keys; eassumption.
Qed.

Lemma collapse_children (fuel : nat) :
  (forall x st,
      x ∈ keys doc -> (height x < fuel)%nat ->
      (forall id, id ∈ keys doc -> is_Some (nodeStates st !! id)) ->
      exists st',
        collapseSubtree fuel doc x st = Done st' /\ collapsed doc x st st') ->
  forall l st,
    (forall c, c ∈ l -> c ∈ keys doc /\ (height c < fuel)%nat) ->
    (forall id, id ∈ keys doc -> is_Some (nodeStates st !! id)) ->
    exists st',
      for_each (fun st childId =>
                  bind (set_visible childId false st)
                       (collapseSubtree fuel doc childId)) l st = Done st' /\
      collapsed_all doc l st st'.
Proof.
  intros Hrec. induction l as [|c l IH]; intros st Hl Hdom.
  - exists st. split; [reflexivity|]. unfold collapsed_all.
    split; [reflexivity|]. split; [intros y c Hc; inversion Hc|]. auto.
  - destruct (Hl c ltac:(left)) as [Hc Hfuel]. cbn [for_each].
    destruct (set_visible_done c false st (Hdom c Hc)) as (s & Hs & ->).
    cbn [bind].
    set (st1 := State (<[c := NodeState (expanded s) false]> (nodeStates st))
                      (highlight st)).
    assert (Hdom1 : forall id, is_Some (nodeStates st !! id) ->
                               is_Some (nodeStates st1 !! id)).
    { intros id Hid. unfold st1. cbn [nodeStates].
      destruct (decide (c = id)) as [->|Hne].
      - rewrite lookup_insert_eq. eauto.
      - rewrite lookup_insert_ne by exact Hne. exact Hid. }
    destruct (Hrec c st1 Hc Hfuel) as (st2 & -> & H2hl & H2A & H2B & H2C & H2D & H2E).
    { intros id Hid. apply Hdom1, Hdom, Hid. }
    cbn [bind].
    destruct (IH st2) as (st' & Hrun & H3hl & H3A & H3B & H3D & H3E).
    { intros c' Hc'. apply Hl. right. exact Hc'. }
    { intros id Hid. apply H2E, Hdom1, Hdom, Hid. }
    assert (Hc2 : nodeStates st2 !! c = Some OFF).
    { apply (H2C (NodeState (expanded s) false)). unfold st1. cbn [nodeStates].
      apply lookup_insert_eq. }
    exists st'. split; [exact Hrun|]. unfold collapsed_all.
    split; [rewrite H3hl, H2hl; reflexivity|].
    split; [|split; [|split]].
    + intros y c' Hc' Hy. apply elem_of_cons in Hc' as [->|Hc'].
      * apply H3D. destruct Hy as [->|Hy]; [exact Hc2|apply H2A, Hy].
      * eapply H3A; eassumption.
    + intros y Hy. destruct (Hy c ltac:(left)) as [Hne Hnot].
      rewrite H3B by (intros c' Hc'; apply Hy; right; exact Hc').
      rewrite H2B by assumption. unfold st1. cbn [nodeStates].
      apply lookup_insert_ne. congruence.
    + intros y Hy. apply H3D. destruct (decide (y = c)) as [->|Hne].
      * exact Hc2.
      * apply H2D. unfold st1. cbn [nodeStates].
        rewrite lookup_insert_ne by congruence. exact Hy.
    + intros y Hy. apply H3E, H2E, Hdom1, Hy.
Qed.

Lemma collapseSubtree_spec (fuel : nat) :
  forall x st,
    x ∈ keys doc -> (height x < fuel)%nat ->
    (forall id, id ∈ keys doc -> is_Some (nodeStates st !! id)) ->
    exists st',
      collapseSubtree fuel doc x st = Done st' /\ collapsed doc x st st'.
Proof.
  induction fuel as [|fuel IH]; intros x st Hx Hfuel Hdom; [lia|].
  cbn [collapseSubtree].
  destruct (set_expanded_done x false st (Hdom x Hx)) as (s & Hs & ->).
  cbn [bind].
  destruct (proj1 (keys_of_treeData x) Hx) as [n Hn]. rewrite Hn.
  set (st1 := State (<[x := NodeState false (visible s)]> (nodeStates st))
                    (highlight st)).
  assert (Hdom1 : forall id, is_Some (nodeStates st !! id) ->
                             is_Some (nodeStates st1 !! id)).
  { intros id Hid. unfold st1. cbn [nodeStates].
    destruct (decide (x = id)) as [->|Hne].
    - rewrite lookup_insert_eq. eauto.
    - rewrite lookup_insert_ne by exact Hne. exact Hid. }
  destruct (collapse_children fuel IH (children n) st1)
    as (st' & Hrun & Hhl & HA & HB & HD & HE).
  { intros c Hc. split; [eapply children_in_keys; eassumption|].
    pose proof (child_height x n c Hn Hc). lia. }
  { intros id Hid. apply Hdom1, Hdom, Hid. }
  assert (Hself : forall c, c ∈ children n -> x <> c /\ ~ below doc x c).
  { intros c Hc. pose proof (child_height x n c Hn Hc). split.
    - intros <-. lia.
    - intros Hb. apply below_height in Hb. lia. }
  exists st'. split; [exact Hrun|]. unfold collapsed.
  split; [rewrite Hhl; reflexivity|]. split; [|split; [|split; [|split]]].
  - intros y Hy. inversion Hy as [? ? n' Hn' Hc|? c ? n' Hn' Hc Hb]; subst;
      rewrite Hn in Hn'; injection Hn' as <-.
    + apply (HA y y Hc). left. reflexivity.
    + apply (HA y c Hc). right. exact Hb.
  - intros y Hne Hnot. rewrite HB.
    + unfold st1. cbn [nodeStates]. apply lookup_insert_ne. congruence.
    + intros c Hc. split.
      * intros ->. apply Hnot. eapply below_child; eassumption.
      * intros Hb. apply Hnot. eapply below_deeper; eassumption.
  - intros s' Hs'. rewrite Hs in Hs'. injection Hs' as <-.
    rewrite (HB x Hself). unfold st1. cbn [nodeStates]. apply lookup_insert_eq.
  - intros y Hy. apply HD. unfold st1. cbn [nodeStates].
    destruct (decide (x = y)) as [->|Hne].
    + rewrite lookup_insert_eq. rewrite Hs in Hy. injection Hy as ->. reflexivity.
    + rewrite lookup_insert_ne by exact Hne. exact Hy.
  - intros y Hy. apply HE, Hdom1, Hy.
Qed.

(** What a click on a node does, see the theorem below. *)
Lemma toggleNode_spec
    (fuel : nat) (st : state) (x : string) (s : node_state) (n : tree_node) :
  (forall id, id ∈ keys doc -> (height id < fuel)%nat) ->
  (forall id, id ∈ keys doc -> is_Some (nodeStates st !! id)) ->
  treeData doc !! x = Some n ->
  nodeStates st !! x = Some s ->
  exists st',
    toggleNode fuel doc x st = Done st' /\
    highlight st' = highlight st /\
    nodeStates st' !! x = Some (NodeState (negb (expanded s)) (visible s)) /\
    if expanded s
    then (forall y, below doc y x -> nodeStates st' !! y = Some OFF) /\
         (forall y, y <> x -> ~ below doc y x ->
                    nodeStates st' !! y = nodeStates st !! y)
    else forall y sy,
        y <> x -> nodeStates st !! y = Some sy ->
        nodeStates st' !! y
        = Some (NodeState (expanded sy)
                          (visible sy || bool_decide (y ∈ children n))).
Proof.
  intros Hfuel Hdom Hn Hs.
  assert (Hx : x ∈ keys doc) by (apply keys_of_treeData; eauto).
  unfold toggleNode. rewrite Hs. unfold set_expanded at 1. rewrite Hs.
  cbn [bind]. rewrite negb_involutive.
  set (st1 := State (<[x := NodeState (negb (expanded s)) (visible s)]>
                       (nodeStates st)) (highlight st)).
  assert (Hdom1 : forall id, id ∈ keys doc -> is_Some (nodeStates st1 !! id)).
  { intros id Hid. unfold st1. cbn [nodeStates].
    destruct (decide (x = id)) as [->|Hne].
    - rewrite lookup_insert_eq. eauto.
    - rewrite lookup_insert_ne by exact Hne. apply Hdom, Hid. }
  assert (Hx1 : nodeStates st1 !! x
                = Some (NodeState (negb (expanded s)) (visible s)))
    by (unfold st1; cbn [nodeStates]; apply lookup_insert_eq).
  destruct (expanded s) eqn:Hexp; cbn [negb] in *.
  - destruct (collapseSubtree_spec fuel x st1 Hx (Hfuel x Hx) Hdom1)
      as (st' & Hrun & Hhl & HA & HB & HC & _ & _).
    exists st'. split; [exact Hrun|]. split; [rewrite Hhl; reflexivity|].
    split; [exact (HC _ Hx1)|]. split; [exact HA|].
    intros y Hne Hnot. rewrite (HB y Hne Hnot). unfold st1. cbn [nodeStates].
    apply lookup_insert_ne. congruence.
  - rewrite Hn.
    destruct (show_children (children n) st1) as (st' & Hrun & Hhl & Hns).
    { intros c Hc. apply Hdom1. eapply children_in_keys; eassumption. }
    exists st'. split; [exact Hrun|]. split; [rewrite Hhl; reflexivity|].
    split.
    + rewrite (Hns x _ Hx1). cbn [expanded visible].
      rewrite (bool_decide_false (x ∈ children n)).
      * rewrite orb_false_r. reflexivity.
      * intros Hc. pose proof (child_height x n x Hn Hc). lia.
    + intros y sy Hne Hy. apply Hns. unfold st1. cbn [nodeStates].
      rewrite lookup_insert_ne by congruence. exact Hy.
Qed.

End Toggle.

(** X12: a click on a node toggles its [expanded] flag.  Folding an
    expanded node hides and folds everything below it and changes no other
    node; unfolding a folded node shows its children, without unfolding
    them, and changes no other node.  The recursion down the children ends
    when their links are acyclic. *)
Theorem toggle_folds_or_unfolds
    (doc : document) (height : string -> nat) (fuel : nat) (st : state)
    (x : string) (s : node_state) (n : tree_node) :
  (forall id, id ∈ keys doc <-> is_Some (treeData doc !! id)) ->
  (forall id n c, treeData doc !! id = Some n -> c ∈ children n ->
                  c ∈ keys doc) ->
  (forall id n c, treeData doc !! id = Some n -> c ∈ children n ->
                  (height c < height id)%nat) ->
  (forall id, id ∈ keys doc -> (height id < fuel)%nat) ->
  (forall id, id ∈ keys doc -> is_Some (nodeStates st !! id)) ->
  treeData doc !! x = Some n ->
  nodeStates st !! x = Some s ->
  exists st',
    toggleNode fuel doc x st = Done st' /\
    highlight st' = highlight st /\
    nodeStates st' !! x = Some (NodeState (negb (expanded s)) (visible s)) /\
    if expanded s
    then (forall y, below doc y x -> nodeStates st' !! y = Some OFF) /\
         (forall y, y <> x -> ~ below doc y x ->
                    nodeStates st' !! y = nodeStates st !! y)
    else forall y sy,
        y <> x -> nodeStates st !! y = Some sy ->
        nodeStates st' !! y
        = Some (NodeState (expanded sy)
                          (visible sy || bool_decide (y ∈ children n))).
Proof.
  intros Hkeys Hchildren Hheight. apply toggleNode_spec; assumption.
Qed.

Lemma scenario_heights :
  (forall id n c, treeData scenario !! id = Some n -> c ∈ children n ->
                  (scenario_height c < scenario_height id)%nat) /\
  (forall id, id ∈ keys scenario -> (scenario_height id < 3)%nat).
Proof.
  split.
  - intros id n c Hn Hc. apply elem_of_list_to_map_2 in Hn.
    in_list Hn; injection Hn as -> ->; cbn in Hc; in_list Hc; subst c;
      vm_compute; lia.
  - intros id Hid. cbn in Hid. in_list Hid; subst id; vm_compute; lia.
Qed.

Lemma toggle_folds_or_unfolds_witness :
  exists st',
    toggleNode 3 scenario "root" scenario_loaded = Done st' /\
    highlight st' = highlight scenario_loaded /\
    nodeStates st' !! "root" = Some (NodeState false true) /\
    (forall y, below scenario y "root" -> nodeStates st' !! y = Some OFF) /\
    (forall y, y <> "root" -> ~ below scenario y "root" ->
               nodeStates st' !! y = nodeStates scenario_loaded !! y).
Proof.
  exact (toggle_folds_or_unfolds scenario scenario_height 3 scenario_loaded
           "root" ON (TreeNode "root" None ["idea"; "story"])
           (wf_keys _ _ scenario_well_formed) scenario_children_listed
           (proj1 scenario_heights) (proj2 scenario_heights)
           (wf_states _ _ scenario_well_formed) eq_refl eq_refl).
Defined.

(** *** The layout *)

Lemma places_app (g : gaps) (a : list (string * nat)) :
  forall b pos lay,
    places g (a ++ b) pos lay
    = places g b (pos + length a) (places g a pos lay).
Proof.
  induction a as [|[y k] a IH]; intros b pos lay; cbn [app places length].
  - rewrite Nat.add_0_r. reflexivity.
  - rewrite IH. f_equal. lia.
Qed.

Lemma places_fields (g : gaps) (new : list (string * nat)) :
  forall pos lay,
    visibleNodes (places g new pos lay) = visibleNodes lay ++ map fst new /\
    xs (places g new pos lay) = xs lay.
Proof.
  induction new as [|[y k] new IH]; intros pos lay; cbn [places map fst].
  - rewrite app_nil_r. auto.
  - destruct (IH (S pos) (place g y k pos lay)) as [-> ->].
    cbn [place visibleNodes xs]. rewrite <- app_assoc. auto.
Qed.

Lemma places_other (g : gaps) (new : list (string * nat)) (x : string) :
  forall pos lay,
    x ∉ map fst new ->
    levels (places g new pos lay) !! x = levels lay !! x /\
    ys (places g new pos lay) !! x = ys lay !! x.
Proof.
  induction new as [|[y k] new IH]; intros pos lay Hx; cbn [places]; [auto|].
  cbn [map fst] in Hx. apply not_elem_of_cons in Hx as [Hne Hx].
  destruct (IH (S pos) (place g y k pos lay) Hx) as [-> ->].
  cbn [place levels ys]. rewrite !lookup_insert_ne by congruence. auto.
Qed.

Lemma places_levels (g : gaps) (new : list (string * nat)) (x : string) :
  forall pos lay,
    x ∈ map fst new ->
    exists k, levels (places g new pos lay) !! x = Some k /\ (x, k) ∈ new.
Proof.
  induction new as [|[y k] new IH]; intros pos lay Hx; [inversion Hx|].
  cbn [places]. destruct (decide (x ∈ map fst new)) as [Hin|Hnot].
  - destruct (IH (S pos) (place g y k pos lay) Hin) as (k' & Hk & Hmem).
    exists k'. split; [exact Hk|right; exact Hmem].
  - cbn [map fst] in Hx. apply elem_of_cons in Hx as [->|Hx]; [|contradiction].
    exists k. split; [|left].
    rewrite (proj1 (places_other g new y (S pos) _ Hnot)).
    cbn [place levels]. apply lookup_insert_eq.
Qed.

Lemma places_ys (g : gaps) (new : list (string * nat)) (x : string) :
  forall pos lay i,
    map fst new !! i = Some x ->
    (forall j, map fst new !! j = Some x -> (j <= i)%nat) ->
    ys (places g new pos lay) !! x
    = Some (Z.of_nat (pos + i) * verticalGap g + 45).
Proof.
  induction new as [|[y k] new IH]; intros pos lay i Hi Hlast;
    [discriminate|].
  cbn [places]. destruct i as [|i]; cbn [map fst] in *.
  - injection Hi as ->.
    assert (Hnot : x ∉ map fst new).
    { intros Hin. apply list_elem_of_lookup in Hin as [j Hj].
      specialize (Hlast (S j) Hj). lia. }
    rewrite (proj2 (places_other g new x (S pos) _ Hnot)).
    cbn [place ys]. rewrite lookup_insert_eq, Nat.add_0_r. reflexivity.
  - rewrite (IH (S pos) _ i Hi).
    + do 3 f_equal. lia.
    + intros j Hj. specialize (Hlast (S j) Hj). lia.
Qed.

Lemma levelPositions_lookup (g : gaps) (n k : nat) :
  levelPositions g n !! k
  = if (k <=? n)%nat
    then Some (45 + Z.of_nat k * (nodeWidth g + horizontalGap g))
    else None.
Proof.
  revert k. unfold levelPositions.
  induction n as [|n IH]; intros k.
  - cbn [seq fold_left]. destruct k as [|k]; cbn [Nat.leb].
    + rewrite lookup_singleton_eq. reflexivity.
    + apply lookup_singleton_ne. lia.
  - rewrite seq_S, fold_left_app. cbn [fold_left Nat.add]. unfold next_level at 1.
    replace (S n - 1)%nat with n by lia.
    rewrite (IH n), Nat.leb_refl.
    destruct (decide (k = S n)) as [->|Hne].
    + rewrite lookup_insert_eq, Nat.leb_refl. f_equal. lia.
    + rewrite lookup_insert_ne by congruence. rewrite IH.
      destruct (Nat.leb_spec k n), (Nat.leb_spec k (S n)); try reflexivity; lia.
Qed.

Lemma maxLevel_bound (lay : layout) (x : string) (k : nat) :
  x ∈ visibleNodes lay -> levels lay !! x = Some k -> (k <= maxLevel lay)%nat.
Proof.
  unfold maxLevel. intros Hx Hk.
  induction (visibleNodes lay) as [|y l IH]; [inversion Hx|].
  cbn [map foldr]. apply elem_of_cons in Hx as [<-|Hx].
  - rewrite Hk. apply Nat.le_max_l.
  - etransitivity; [exact (IH Hx)|]. apply Nat.le_max_r.
Qed.

Lemma set_x_all (lp : gmap nat Z) (l : list string) :
  forall lay,
    levels (fold_left (set_x lp) l lay) = levels lay /\
    ys (fold_left (set_x lp) l lay) = ys lay /\
    visibleNodes (fold_left (set_x lp) l lay) = visibleNodes lay /\
    (forall x, x ∉ l -> xs (fold_left (set_x lp) l lay) !! x = xs lay !! x) /\
    (forall x, x ∈ l ->
               xs (fold_left (set_x lp) l lay) !! x
               = levels lay !! x ≫= fun level => lp !! level).
Proof.
  induction l as [|a l IH]; intros lay; cbn [fold_left].
  - repeat split; auto. intros x Hx. inversion Hx.
  - destruct (IH (set_x lp lay a)) as (-> & -> & -> & Hout & Hin).
    cbn [set_x levels ys visibleNodes].
    assert (Ha : xs (set_x lp lay a) !! a
                 = levels lay !! a ≫= fun level => lp !! level).
    { cbn [set_x xs].
      destruct (levels lay !! a ≫= fun level => lp !! level) as [v|].
      - apply lookup_insert_eq.
      - apply lookup_delete_eq. }
    assert (Hb : forall x, x <> a -> xs (set_x lp lay a) !! x = xs lay !! x).
    { intros x Hne. cbn [set_x xs].
      destruct (levels lay !! a ≫= fun level => lp !! level) as [v|].
      - apply lookup_insert_ne. congruence.
      - apply lookup_delete_ne. congruence. }
    repeat split; auto.
    + intros x Hx. apply not_elem_of_cons in Hx as [Hne Hx].
      rewrite (Hout x Hx). apply Hb, Hne.
    + intros x Hx. destruct (decide (x ∈ l)) as [Hl|Hl].
      * apply Hin, Hl.
      * apply elem_of_cons in Hx as [->|Hx]; [|contradiction].
        rewrite (Hout a Hl). exact Ha.
Qed.

Section Layout.
Variable doc : document.
Variable st : state.
Variable g : gaps.
Variable height : string -> nat.
Hypothesis keys_of_treeData :
  forall id, id ∈ keys doc <-> is_Some (treeData doc !! id).
Hypothesis children_in_keys :
  forall id n c, treeData doc !! id = Some n -> c ∈ children n ->
                 c ∈ keys doc.
Hypothesis child_height :
  forall id n c, treeData doc !! id = Some n -> c ∈ children n ->
                 (height c < height id)%nat.
Hypothesis states_of_keys :
  forall id, id ∈ keys doc -> is_Some (nodeStates st !! id).

Lemma visits_visible (x y : string) (l k : nat) :
  visits doc st x l y k -> is_visible st x = true.
Proof. destruct 1; assumption. Qed.

(** The loop of [traverseVisible] over the children [cs]. *)
Lemma traverse_children (fuel : nat) :
  (forall x l acc,
      x ∈ keys doc -> (height x < fuel)%nat ->
      exists new,
        traverseVisible fuel g doc st x l acc
        = Done (places g new (snd acc) (fst acc), (snd acc + length new)%nat) /\
        forall y k, (y, k) ∈ new <-> visits doc st x l y k) ->
  forall cs l acc,
    (forall c, c ∈ cs -> c ∈ keys doc /\ (height c < fuel)%nat) ->
    exists new,
      for_each (fun acc childId =>
                  match nodeStates st !! childId with
                  | None => TypeError
                  | Some sc =>
                      if visible sc
                      then traverseVisible fuel g doc st childId l acc
                      else Done acc
                  end) cs acc
      = Done (places g new (snd acc) (fst acc), (snd acc + length new)%nat) /\
      forall y k, (y, k) ∈ new <-> exists c, c ∈ cs /\ visits doc st c l y k.
Proof.
  intros Hrec. induction cs as [|c cs IH]; intros l [lay pos] Hcs.
  - exists []. cbn [for_each places length fst snd].
    rewrite Nat.add_0_r. split; [reflexivity|].
    intros y k. split; [intros H; inversion H|].
    intros (c & Hc & _). inversion Hc.
  - destruct (Hcs c ltac:(left)) as [Hc Hfuel]. cbn [for_each].
    destruct (states_of_keys c Hc) as [sc Hsc]. rewrite Hsc.
    assert (Hrest : forall c', c' ∈ cs -> c' ∈ keys doc /\ (height c' < fuel)%nat)
      by (intros c' Hc'; apply Hcs; right; exact Hc').
    destruct (visible sc) eqn:Hvis.
    + destruct (Hrec c l (lay, pos) Hc Hfuel) as (new1 & -> & Hnew1).
      cbn [bind fst snd].
      destruct (IH l (places g new1 pos lay, (pos + length new1)%nat) Hrest)
        as (new2 & -> & Hnew2).
      cbn [fst snd]. exists (new1 ++ new2).
      rewrite places_app, length_app, Nat.add_assoc.
      split; [reflexivity|]. intros y k. rewrite elem_of_app, Hnew1, Hnew2.
      split.
      * intros [H|(c' & Hc' & H)]; [exists c; split; [left|exact H]|].
        exists c'. split; [right; exact Hc'|exact H].
      * intros (c' & Hc' & H). apply elem_of_cons in Hc' as [->|Hc'];
          [left; exact H|right; eauto].
    + cbn [bind]. destruct (IH l (lay, pos) Hrest) as (new2 & -> & Hnew2).
      exists new2. split; [reflexivity|]. intros y k. rewrite Hnew2.
      split.
      * intros (c' & Hc' & H). exists c'. split; [right; exact Hc'|exact H].
      * intros (c' & Hc' & H). apply elem_of_cons in Hc' as [->|Hc']; [|eauto].
        apply visits_visible in H. unfold is_visible in H. rewrite Hsc in H.
        congruence.
Qed.

(** [traverseVisible] returns; it pushes the nodes that the going down
    from its node leads to, each at its level. *)
Lemma traverseVisible_spec (fuel : nat) :
  forall x l acc,
    x ∈ keys doc -> (height x < fuel)%nat ->
    exists new,
      traverseVisible fuel g doc st x l acc
      = Done (places g new (snd acc) (fst acc), (snd acc + length new)%nat) /\
      forall y k, (y, k) ∈ new <-> visits doc st x l y k.
Proof.
  induction fuel as [|fuel IH]; intros x l [lay pos] Hx Hfuel; [lia|].
  cbn [traverseVisible fst snd].
  destruct (states_of_keys x Hx) as [s Hs]. rewrite Hs.
  destruct (proj1 (keys_of_treeData x) Hx) as [n Hn].
  destruct (visible s) eqn:Hvis; cbn [negb].
  - rewrite Hn.
    assert (Hxv : is_visible st x = true)
      by (unfold is_visible; rewrite Hs; exact Hvis).
    destruct (expanded s) eqn:Hexp.
    + destruct (traverse_children fuel IH (children n) (S l)
                  (place g x l pos lay, S pos)) as (new & -> & Hnew).
      { intros c Hc. split; [eapply children_in_keys; eassumption|].
        pose proof (child_height x n c Hn Hc). lia. }
      cbn [fst snd]. exists ((x, l) :: new). cbn [places length].
      split; [f_equal; f_equal; lia|].
      intros y k. rewrite elem_of_cons, Hnew. split.
      * intros [[= -> ->]|(c & Hc & H)]; [constructor; exact Hxv|].
        eapply visits_down; try eassumption.
        unfold is_expanded. rewrite Hs. exact Hexp.
      * intros H. inversion H as [|? c ? ? ? n' _ _ Hn' Hc H']; subst;
          [left; reflexivity|].
        rewrite Hn in Hn'. injection Hn' as <-. right. eauto.
    + exists [(x, l)]. cbn [places length].
      split; [f_equal; f_equal; lia|].
      intros y k. rewrite list_elem_of_singleton. split.
      * intros [= -> ->]. constructor. exact Hxv.
      * intros H. inversion H as [|? c ? ? ? n' _ He _ _ _]; subst;
          [reflexivity|].
        unfold is_expanded in He. rewrite Hs in He. congruence.
  - exists []. cbn [places length]. rewrite Nat.add_0_r.
    split; [reflexivity|]. intros y k. split; [intros H; inversion H|].
    intros H. apply visits_visible in H. unfold is_visible in H.
    rewrite Hs in H. congruence.
Qed.

(** What the layout does, see the theorem below. *)
Lemma calculateNodePositions_spec (fuel : nat) (lay : layout) :
  (forall id, id ∈ keys doc -> (height id < fuel)%nat) ->
  (forall r, rootId doc = Some r -> r ∈ keys doc) ->
  exists lay',
    calculateNodePositions fuel g doc st lay = Done lay' /\
    (forall x, x ∈ visibleNodes lay' <-> exists k, shown_at doc st x k) /\
    (forall x, x ∈ visibleNodes lay' ->
       exists k,
         levels lay' !! x = Some k /\ shown_at doc st x k /\
         xs lay' !! x
         = Some (45 + Z.of_nat k * (nodeWidth g + horizontalGap g))) /\
    (forall i x,
        visibleNodes lay' !! i = Some x ->
        (forall j, visibleNodes lay' !! j = Some x -> (j <= i)%nat) ->
        ys lay' !! x = Some (Z.of_nat i * verticalGap g + 45)).
Proof.
  intros Hfuel Hroot. unfold calculateNodePositions.
  set (lay0 := Layout (levels lay) (ys lay) (xs lay) []).
  assert (Hrun : exists new,
             match truthy (rootId doc) with
             | None => Done (lay0, 0%nat)
             | Some r => traverseVisible fuel g doc st r 0 (lay0, 0%nat)
             end = Done (places g new 0 lay0, length new) /\
             forall y k, (y, k) ∈ new <-> shown_at doc st y k).
  { unfold shown_at. destruct (truthy (rootId doc)) as [r|] eqn:Hr.
    - assert (Hk : r ∈ keys doc).
      { apply Hroot. unfold truthy in Hr. destruct (rootId doc) as [r'|];
          [|discriminate]. destruct (String.eqb r' ""); congruence. }
      destruct (traverseVisible_spec fuel r 0 (lay0, 0%nat) Hk (Hfuel r Hk))
        as (new & Hnew & Hmem).
      exists new. split; [exact Hnew|]. intros y k. rewrite Hmem. split.
      + intros H. exists r. auto.
      + intros (r' & [= <-] & H). exact H.
    - exists []. split; [reflexivity|]. intros y k.
      split; [intros H; inversion H|]. intros (r' & Hr' & _). discriminate. }
  destruct Hrun as (new & -> & Hmem). cbn [bind fst].
  set (lay1 := places g new 0 lay0).
  destruct (places_fields g new 0 lay0) as [Hvis Hxs].
  fold lay1 in Hvis, Hxs. cbn [lay0 visibleNodes app] in Hvis.
  destruct (set_x_all (levelPositions g (maxLevel lay1)) (visibleNodes lay1) lay1)
    as (Hlev & Hys & Hvn & _ & Hx).
  eexists. split; [reflexivity|]. rewrite Hlev, Hys, Hvn.
  assert (Hlevel : forall x, x ∈ visibleNodes lay1 ->
                     exists k, levels lay1 !! x = Some k /\ shown_at doc st x k).
  { intros x Hin. rewrite Hvis in Hin.
    destruct (places_levels g new x 0 lay0 Hin) as (k & Hk & Hnew).
    exists k. split; [exact Hk|]. apply Hmem, Hnew. }
  split; [|split].
  - intros x. split.
    + intros Hin. destruct (Hlevel x Hin) as (k & _ & Hk). eauto.
    + intros (k & Hk). rewrite Hvis. apply list_elem_of_fmap.
      exists (x, k). split; [reflexivity|]. apply Hmem, Hk.
  - intros x Hin. destruct (Hlevel x Hin) as (k & Hk & Hshown).
    exists k. split; [exact Hk|]. split; [exact Hshown|].
    rewrite (Hx x Hin), Hk. cbn [mbind option_bind].
    rewrite levelPositions_lookup.
    pose proof (maxLevel_bound lay1 x k Hin Hk) as Hle.
    apply Nat.leb_le in Hle. rewrite Hle. reflexivity.
  - intros i x Hi Hlast. rewrite Hvis in Hi, Hlast.
    exact (places_ys g new x 0 lay0 i Hi Hlast).
Qed.

End Layout.

(** X13: [calculateNodePositions] returns when the children links are
    acyclic.  It pushes exactly the nodes that are shown: the visible root
    and what the going down to visible children of expanded nodes leads
    to.  A pushed node has the level at which it was reached, and its [x]
    is 45 plus that level times [nodeWidth + horizontalGap]; the node
    pushed as number [i], counted from 0, and not again later, has the [y]
    of the row [i], which is [i * verticalGap + 45]. *)
Theorem layout_places_the_shown_nodes
    (doc : document) (st : state) (g : gaps) (height : string -> nat)
    (fuel : nat) (lay : layout) :
  (forall id, id ∈ keys doc <-> is_Some (treeData doc !! id)) ->
  (forall id n c, treeData doc !! id = Some n -> c ∈ children n ->
                  c ∈ keys doc) ->
  (forall id n c, treeData doc !! id = Some n -> c ∈ children n ->
                  (height c < height id)%nat) ->
  (forall id, id ∈ keys doc -> is_Some (nodeStates st !! id)) ->
  (forall id, id ∈ keys doc -> (height id < fuel)%nat) ->
  (forall r, rootId doc = Some r -> r ∈ keys doc) ->
  exists lay',
    calculateNodePositions fuel g doc st lay = Done lay' /\
    (forall x, x ∈ visibleNodes lay' <-> exists k, shown_at doc st x k) /\
    (forall x, x ∈ visibleNodes lay' ->
       exists k,
         levels lay' !! x = Some k /\ shown_at doc st x k /\
         xs lay' !! x
         = Some (45 + Z.of_nat k * (nodeWidth g + horizontalGap g))) /\
    (forall i x,
        visibleNodes lay' !! i = Some x ->
        (forall j, visibleNodes lay' !! j = Some x -> (j <= i)%nat) ->
        ys lay' !! x = Some (Z.of_nat i * verticalGap g + 45)).
Proof.
  intros Hkeys Hchildren Hheight Hstates.
  apply (calculateNodePositions_spec doc st g height); assumption.
Qed.

Lemma layout_places_the_shown_nodes_witness :
  exists lay',
    calculateNodePositions 3 (Gaps 220 45 45) scenario scenario_loaded
                           (Layout ∅ ∅ ∅ [])
    = Done lay' /\
    (forall x, x ∈ visibleNodes lay' <->
               exists k, shown_at scenario scenario_loaded x k) /\
    (forall x, x ∈ visibleNodes lay' ->
       exists k,
         levels lay' !! x = Some k /\ shown_at scenario scenario_loaded x k /\
         xs lay' !! x = Some (45 + Z.of_nat k * (220 + 45))) /\
    (forall i x,
        visibleNodes lay' !! i = Some x ->
        (forall j, visibleNodes lay' !! j = Some x -> (j <= i)%nat) ->
        ys lay' !! x = Some (Z.of_nat i * 45 + 45)).
Proof.
  exact (layout_places_the_shown_nodes scenario scenario_loaded
           (Gaps 220 45 45) scenario_height 3 (Layout ∅ ∅ ∅ [])
           (wf_keys _ _ scenario_well_formed) scenario_children_listed
           (proj1 scenario_heights) (wf_states _ _ scenario_well_formed)
           (proj2 scenario_heights) (wf_root _ _ scenario_well_formed)).
Defined.

(** The first rendering of the scenario: the root in the first row and
    column, its two children below it in the second column. *)
Example layout_of_the_scenario :
  exists lay',
    calculateNodePositions 3 (Gaps 220 45 45) scenario scenario_loaded
                           (Layout ∅ ∅ ∅ [])
    = Done lay' /\
    visibleNodes lay' = ["root"; "idea"; "story"] /\
    (xs lay' !! "root", ys lay' !! "root") = (Some 45, Some 45) /\
    (xs lay' !! "idea", ys lay' !! "idea") = (Some 310, Some 90) /\
    (xs lay' !! "story", ys lay' !! "story") = (Some 310, Some 135) /\
    xs lay' !! "plot" = None.
Proof.
  eexists. split; [vm_compute; reflexivity|].
  repeat split; vm_compute; reflexivity.
Qed.

(** *** Consistent views *)

Lemma visits_snoc (doc : document) (st : state)
    (r p x : string) (l k : nat) (n : tree_node) :
  visits doc st r l p k ->
  is_expanded st p = true -> treeData doc !! p = Some n -> x ∈ children n ->
  is_visible st x = true ->
  visits doc st r l x (S k).
Proof.
  intros Hv He Hn Hx Hvis.
  induction Hv as [p l Hp|r c p l k n' Hr Her Hn' Hc _ IH].
  - eapply visits_down; try eassumption. constructor. exact Hvis.
  - eapply visits_down; try eassumption. apply IH; assumption.
Qed.

Lemma below_snoc (doc : document) (p x y : string) (n : tree_node) :
  below doc p x -> treeData doc !! p = Some n -> y ∈ children n ->
  below doc y x.
Proof.
  intros Hb Hn Hy.
  induction Hb as [p x n' Hn' Hp|p c x n' Hn' Hc _ IH].
  - eapply below_deeper; try eassumption. eapply below_child; eassumption.
  - eapply below_deeper; try eassumption. apply IH; assumption.
Qed.

Lemma last_occurrence (l : list string) (x : string) :
  x ∈ l ->
  exists i, l !! i = Some x /\ forall j, l !! j = Some x -> (j <= i)%nat.
Proof.
  induction l as [|a l IH]; intros Hx; [inversion Hx|].
  destruct (decide (x ∈ l)) as [Hin|Hnot].
  - destruct (IH Hin) as (i & Hi & Hlast). exists (S i).
    split; [exact Hi|]. intros [|j] Hj; [lia|].
    specialize (Hlast j Hj). lia.
  - apply elem_of_cons in Hx as [->|Hx]; [|contradiction].
    exists 0%nat. split; [reflexivity|]. intros [|j] Hj; [lia|].
    exfalso. apply Hnot. eapply list_elem_of_lookup_2. exact Hj.
Qed.

(** The state at load time, which is also that of the empty search, is
    consistent. *)
Lemma consistent_default (doc : document) (st : state) :
  (forall r, rootId doc = Some r -> r ∈ keys doc /\ r <> "") ->
  (forall id, id ∈ keys doc ->
              nodeStates st !! id = Some (default_state doc id)) ->
  consistent doc st.
Proof.
  intros Hroot Hst x Hx Hvis. unfold is_visible in Hvis.
  rewrite (Hst x Hx) in Hvis. unfold default_state in Hvis.
  destruct (rootId doc) as [r|] eqn:Hr; [|discriminate].
  destruct (Hroot r eq_refl) as [Hrk Hne]. cbn [visible] in Hvis.
  destruct (decide (x = r)) as [->|Hxr].
  - left. apply truthy_key, Hne.
  - rewrite (bool_decide_false (x = r)) in Hvis by exact Hxr.
    cbn [orb] in Hvis.
    destruct (treeData doc !! r) as [root|] eqn:Hn; [|discriminate].
    apply bool_decide_eq_true in Hvis.
    right. exists r, root. split; [exact Hn|]. split; [exact Hvis|].
    unfold is_visible, is_expanded. rewrite (Hst r Hrk).
    unfold default_state. rewrite Hr.
    rewrite (bool_decide_true (r = r)) by reflexivity. auto.
Qed.

(** In a consistent view every visible node is shown. *)
Lemma consistent_shown (doc : document) (st : state)
    (height : string -> nat) (fuel : nat) :
  (forall id, id ∈ keys doc <-> is_Some (treeData doc !! id)) ->
  (forall id n c, treeData doc !! id = Some n -> c ∈ children n ->
                  (height c < height id)%nat) ->
  (forall id, id ∈ keys doc -> (height id < fuel)%nat) ->
  consistent doc st ->
  forall x, x ∈ keys doc -> is_visible st x = true ->
            exists k, shown_at doc st x k.
Proof.
  intros Hkeys Hheight Hfuel Hcons.
  assert (H : forall m x, (fuel - height x <= m)%nat -> x ∈ keys doc ->
                          is_visible st x = true ->
                          exists k, shown_at doc st x k).
  { induction m as [|m IH]; intros x Hm Hx Hvis.
    - pose proof (Hfuel x Hx). lia.
    - destruct (Hcons x Hx Hvis) as [Hroot|(p & n & Hn & Hc & Hpv & Hpe)].
      + exists 0%nat, x. split; [exact Hroot|]. constructor. exact Hvis.
      + assert (Hp : p ∈ keys doc) by (apply Hkeys; eauto).
        pose proof (Hheight p n x Hn Hc). pose proof (Hfuel p Hp).
        destruct (IH p ltac:(lia) Hp Hpv) as (k & r & Hr & Hv).
        exists (S k), r. split; [exact Hr|].
        eapply visits_snoc; eassumption. }
  intros x. apply (H (fuel - height x)%nat). lia.
Qed.

Lemma truthy_Some (x : option string) (p : string) :
  truthy x = Some p -> x = Some p /\ p <> "".
Proof.
  unfold truthy. destruct x as [s|]; [|discriminate].
  destruct (String.eqb_spec s ""); [discriminate|].
  intros [= <-]. auto.
Qed.

Lemma up_step (doc : document) (x m p : string) (n : tree_node) :
  up doc x m -> treeData doc !! x = Some n -> parent n = Some p ->
  up doc p m.
Proof.
  intros Hup Hn Hp.
  induction Hup as [m|x m q nm Hnm Hq _ IH].
  - eapply up_parent; [exact Hn|exact Hp|constructor].
  - eapply up_parent; [exact Hnm|exact Hq|]. apply IH; assumption.
Qed.

(** The loops of the search change a node to nothing but expanded and
    visible, and only a match or an ancestor of one. *)
Lemma expand_ancestors_changes (doc : document) (fuel : nat) :
  forall start st st',
    expand_ancestors fuel doc start st = Done st' ->
    forall x,
      nodeStates st' !! x = nodeStates st !! x \/
      (nodeStates st' !! x = Some ON /\
       exists p, start = Some p /\ up doc x p).
Proof.
  induction fuel as [|fuel IH]; intros start st st' Hrun x;
    cbn [expand_ancestors] in Hrun;
    destruct (truthy start) as [p|] eqn:Ht;
    try discriminate; try (injection Hrun as <-; left; reflexivity).
  apply truthy_Some in Ht as [-> _].
  unfold set_expanded in Hrun.
  destruct (nodeStates st !! p) as [s|] eqn:Hs; [|discriminate].
  cbn [bind] in Hrun. unfold set_visible in Hrun.
  cbn [nodeStates highlight] in Hrun.
  rewrite lookup_insert_eq, insert_insert_eq in Hrun.
  cbn [bind expanded] in Hrun. fold ON in Hrun.
  destruct (treeData doc !! p) as [n|] eqn:Hn; [|discriminate].
  destruct (IH _ _ _ Hrun x) as [Hsame|(Hon & q & Hq & Hup)].
  - cbn [nodeStates] in Hsame. destruct (decide (p = x)) as [->|Hne].
    + right. rewrite Hsame, lookup_insert_eq.
      split; [reflexivity|]. exists x. split; [reflexivity|constructor].
    + left. rewrite Hsame. apply lookup_insert_ne. exact Hne.
  - right. split; [exact Hon|]. exists p. split; [reflexivity|].
    eapply up_parent; eassumption.
Qed.

Lemma search_node_changes (doc : document) (fuel : nat) (term : string)
    (st st' : state) (id : string) :
  search_node fuel doc term st id = Done st' ->
  forall x,
    nodeStates st' !! x = nodeStates st !! x \/
    (nodeStates st' !! x = Some ON /\
     exists n, treeData doc !! id = Some n /\ matches term n = true /\
               up doc x id).
Proof.
  unfold search_node. intros Hrun x.
  destruct (treeData doc !! id) as [n|] eqn:Hn; [|discriminate].
  destruct (matches term n) eqn:Hm.
  - unfold set_expanded in Hrun. cbn [set_highlight nodeStates] in Hrun.
    destruct (nodeStates st !! id) as [s|] eqn:Hs; [|discriminate].
    cbn [bind] in Hrun. unfold set_visible in Hrun.
    cbn [nodeStates highlight] in Hrun.
    rewrite lookup_insert_eq, insert_insert_eq in Hrun.
    cbn [bind expanded] in Hrun. fold ON in Hrun.
    destruct (expand_ancestors_changes _ _ _ _ _ Hrun x)
      as [Hsame|(Hon & q & Hq & Hup)].
    + cbn [nodeStates] in Hsame. destruct (decide (id = x)) as [->|Hne].
      * right. rewrite Hsame, lookup_insert_eq. split; [reflexivity|].
        exists n. split; [reflexivity|]. split; [exact Hm|constructor].
      * left. rewrite Hsame. apply lookup_insert_ne. exact Hne.
    + right. split; [exact Hon|]. exists n. split; [reflexivity|].
      split; [exact Hm|]. eapply up_parent; eassumption.
  - injection Hrun as <-. left. reflexivity.
Qed.

Lemma search_loop_changes (doc : document) (fuel : nat) (term : string)
    (l : list string) :
  forall st st',
    for_each (search_node fuel doc term) l st = Done st' ->
    forall x,
      nodeStates st' !! x = nodeStates st !! x \/
      (nodeStates st' !! x = Some ON /\
       exists m n, m ∈ l /\ treeData doc !! m = Some n /\
                   matches term n = true /\ up doc x m).
Proof.
  induction l as [|id l IH]; intros st st' Hrun x; cbn [for_each] in Hrun.
  - injection Hrun as <-. left. reflexivity.
  - destruct (search_node fuel doc term st id) as [st1| |] eqn:Hstep;
      try discriminate.
    cbn [bind] in Hrun.
    destruct (IH _ _ Hrun x) as [Hsame|(Hon & m & n & Hm & Hn & Hmatch & Hup)].
    + destruct (search_node_changes _ _ _ _ _ _ Hstep x)
        as [Hsame1|(Hon & n & Hn & Hmatch & Hup)].
      * left. congruence.
      * right. split; [congruence|]. exists id, n.
        split; [left|]. auto.
    + right. split; [exact Hon|]. exists m, n. split; [right; exact Hm|].
      auto.
Qed.

(** X14: whatever the state before, a search leaves a consistent view when
    the links are those of a tree: every visible node is the root or a
    child of a node that is visible and expanded. *)
Theorem search_leaves_a_consistent_view
    (doc : document) (st : state) (rank : string -> nat) (fuel : nat)
    (value : string) :
  well_formed doc st ->
  tree_shaped doc ->
  (forall id n p, treeData doc !! id = Some n -> parent n = Some p ->
                  (rank p < rank id)%nat) ->
  (forall id, id ∈ keys doc -> (rank id < fuel)%nat) ->
  exists st', on_search_input fuel doc value st = Done st' /\ consistent doc st'.
Proof.
  intros Hwf Htree Hrank Hfuel. unfold on_search_input, searchNodes.
  set (term := toLowerCase value).
  destruct (reset_all (keys doc) st (wf_states _ _ Hwf))
    as (st1 & -> & Hoff & Hkeep).
  cbn [bind].
  assert (Hdom1 : forall id, id ∈ keys doc -> is_Some (nodeStates st1 !! id)).
  { intros id Hid. apply Hkeep, (wf_states _ _ Hwf), Hid. }
  destruct (blank term).
  - destruct (show_root_spec doc st1) as (st' & Hrun & _ & Hns).
    { destruct Hwf. constructor; auto. }
    { intros id Hid. apply Hoff, Hid. }
    exists st'. split; [exact Hrun|]. apply consistent_default; [|exact Hns].
    intros r Hr. pose proof (wf_root _ _ Hwf r Hr) as Hk.
    split; [exact Hk|]. apply (wf_ids _ _ Hwf r Hk).
  - destruct (search_loop_spec doc rank (wf_keys _ _ Hwf) (wf_parent _ _ Hwf)
                Hrank (wf_ids _ _ Hwf) fuel Hfuel term (keys doc) st1
                (fun _ H => H) Hdom1)
      as (st' & Hrun & _ & _ & HA & _ & _ & _).
    exists st'. split; [exact Hrun|]. intros x Hx Hvis.
    destruct (search_loop_changes _ _ _ _ _ _ Hrun x)
      as [Hsame|(Hon & m & n & Hm & Hn & Hmatch & Hup)].
    { unfold is_visible in Hvis. rewrite Hsame, (proj1 (Hoff x Hx)) in Hvis.
      discriminate. }
    destruct (proj1 (wf_keys _ _ Hwf x) Hx) as [nx Hnx].
    destruct (parent nx) as [p|] eqn:Hp.
    + right. destruct (ts_child _ Htree x nx p Hnx Hp) as (np & Hnp & Hc).
      exists p, np. split; [exact Hnp|]. split; [exact Hc|].
      assert (Hpon : nodeStates st' !! p = Some ON).
      { apply (HA p m n Hm Hn Hmatch). eapply up_step; eassumption. }
      unfold is_visible, is_expanded. rewrite Hpon. auto.
    + left. rewrite (ts_root _ Htree x nx Hnx Hp).
      apply truthy_key, (wf_ids _ _ Hwf x Hx).
Qed.

Lemma scenario_tree_shaped : tree_shaped scenario.
Proof.
  constructor.
  - intros x n Hn Hp. apply elem_of_list_to_map_2 in Hn.
    in_list Hn; injection Hn as -> ->; cbn in Hp; try discriminate Hp;
      reflexivity.
  - intros x n p Hn Hp. apply elem_of_list_to_map_2 in Hn.
    in_list Hn; injection Hn as -> ->; cbn in Hp; try discriminate Hp;
      injection Hp as <-; eexists; (split; [vm_compute; reflexivity|]);
      cbn; set_solver.
Qed.

Lemma search_leaves_a_consistent_view_witness :
  exists st',
    on_search_input 3 scenario "Plot" scenario_loaded = Done st' /\
    consistent scenario st'.
Proof.
  exact (search_leaves_a_consistent_view scenario scenario_loaded
           scenario_rank 3 "Plot" scenario_well_formed scenario_tree_shaped
           (proj1 scenario_ranked) (proj2 scenario_ranked)).
Defined.

(** X15: a click on a visible node of a consistent view leaves a
    consistent view: after folding and after unfolding, every visible node
    is the root or a child of a node that is visible and expanded. *)
Theorem toggle_keeps_the_view_consistent
    (doc : document) (height : string -> nat) (fuel : nat) (st : state)
    (x : string) (s : node_state) (n : tree_node) :
  (forall id, id ∈ keys doc <-> is_Some (treeData doc !! id)) ->
  (forall id n c, treeData doc !! id = Some n -> c ∈ children n ->
                  c ∈ keys doc) ->
  (forall id n c, treeData doc !! id = Some n -> c ∈ children n ->
                  (height c < height id)%nat) ->
  (forall id, id ∈ keys doc -> (height id < fuel)%nat) ->
  (forall id, id ∈ keys doc -> is_Some (nodeStates st !! id)) ->
  treeData doc !! x = Some n ->
  nodeStates st !! x = Some s ->
  visible s = true ->
  consistent doc st ->
  exists st', toggleNode fuel doc x st = Done st' /\ consistent doc st'.
Proof.
  intros Hkeys Hchildren Hheight Hfuel Hdom Hn Hs Hvis Hcons.
  destruct (toggleNode_spec doc height Hkeys Hchildren Hheight fuel st x s n
              Hfuel Hdom Hn Hs) as (st' & Hrun & _ & Hx' & Hrest).
  exists st'. split; [exact Hrun|].
  assert (Hxv : is_visible st x = true)
    by (unfold is_visible; rewrite Hs; exact Hvis).
  assert (Hup : forall p np, treeData doc !! p = Some np -> x ∈ children np ->
                             p <> x /\ ~ below doc p x).
  { intros p np Hnp Hc. pose proof (Hheight p np x Hnp Hc). split.
    - intros ->. lia.
    - intros Hb. apply (below_height doc height Hheight) in Hb. lia. }
  destruct (expanded s) eqn:Hexp; cbn [negb] in Hx'.
  - destruct Hrest as [Hbelow Hother].
    assert (Hkeep : forall p, p <> x -> ~ below doc p x ->
                              is_visible st' p = is_visible st p /\
                              is_expanded st' p = is_expanded st p).
    { intros p Hne Hnot. unfold is_visible, is_expanded.
      rewrite (Hother p Hne Hnot). auto. }
    intros y Hy Hyv.
    assert (Hnot : ~ below doc y x).
    { intros Hb. unfold is_visible in Hyv. rewrite (Hbelow y Hb) in Hyv.
      discriminate. }
    assert (Hyv0 : is_visible st y = true).
    { destruct (decide (y = x)) as [->|Hne]; [exact Hxv|].
      rewrite <- (proj1 (Hkeep y Hne Hnot)). exact Hyv. }
    destruct (Hcons y Hy Hyv0) as [Hroot|(p & np & Hnp & Hc & Hpv & Hpe)];
      [left; exact Hroot|].
    right. exists p, np. split; [exact Hnp|]. split; [exact Hc|].
    assert (Hp : p <> x /\ ~ below doc p x).
    { destruct (decide (y = x)) as [->|Hne]; [eapply Hup; eassumption|].
      split.
      - intros ->. apply Hnot. rewrite Hn in Hnp. injection Hnp as <-.
        eapply below_child; eassumption.
      - intros Hb. apply Hnot. eapply below_snoc; eassumption. }
    destruct (Hkeep p (proj1 Hp) (proj2 Hp)) as [-> ->]. auto.
  - assert (Hgrow : forall p, is_visible st p = true ->
                              is_visible st' p = true /\
                              (is_expanded st p = true ->
                               is_expanded st' p = true)).
    { intros p Hpv. unfold is_visible, is_expanded in *.
      destruct (decide (p = x)) as [->|Hne]; [rewrite Hx'; auto|].
      destruct (nodeStates st !! p) as [sp|] eqn:Hsp; [|discriminate].
      rewrite (Hrest p sp Hne Hsp). cbn [visible expanded].
      rewrite Hpv. auto. }
    intros y Hy Hyv.
    assert (Hcase : is_visible st y = true \/ (y <> x /\ y ∈ children n)).
    { destruct (decide (y = x)) as [->|Hne]; [left; exact Hxv|].
      destruct (Hdom y Hy) as [sy Hsy]. unfold is_visible in Hyv |- *.
      rewrite (Hrest y sy Hne Hsy) in Hyv. rewrite Hsy. cbn [visible] in Hyv.
      apply orb_true_iff in Hyv as [Hv|Hc]; [left; exact Hv|].
      right. apply bool_decide_eq_true in Hc. auto. }
    destruct Hcase as [Hyv0|[Hne Hc]].
    + destruct (Hcons y Hy Hyv0) as [Hroot|(p & np & Hnp & Hc & Hpv & Hpe)];
        [left; exact Hroot|].
      right. exists p, np. split; [exact Hnp|]. split; [exact Hc|].
      destruct (Hgrow p Hpv) as [Hv He]. auto.
    + right. exists x, n. split; [exact Hn|]. split; [exact Hc|].
      unfold is_visible, is_expanded. rewrite Hx'. auto.
Qed.

Lemma toggle_keeps_the_view_consistent_witness :
  consistent scenario scenario_loaded /\
  exists st',
    toggleNode 3 scenario "story" scenario_loaded = Done st' /\
    consistent scenario st'.
Proof.
  assert (Hcons : consistent scenario scenario_loaded).
  { apply consistent_default.
    - intros r [= <-]. split; [cbn; set_solver|discriminate].
    - intros id Hid. cbn in Hid. in_list Hid; subst id; vm_compute;
        reflexivity. }
  split; [exact Hcons|].
  exact (toggle_keeps_the_view_consistent scenario scenario_height 3
           scenario_loaded "story" (NodeState false true)
           (TreeNode "Story" (Some "root") ["plot"])
           (wf_keys _ _ scenario_well_formed) scenario_children_listed
           (proj1 scenario_heights) (proj2 scenario_heights)
           (wf_states _ _ scenario_well_formed) eq_refl eq_refl eq_refl Hcons).
Defined.

(** X16: the script at load time leaves a consistent view: every visible
    node is the root or a child of a node that is visible and expanded. *)
Theorem load_leaves_a_consistent_view
    (data : gmap string tree_node) (ks : list string) :
  (forall id, id ∈ ks <-> is_Some (data !! id)) ->
  (forall id, id ∈ ks -> id <> "") ->
  (forall id n c, data !! id = Some n -> c ∈ children n -> c ∈ ks) ->
  exists doc st0,
    load data ks = Done (doc, st0) /\
    treeData doc = data /\ keys doc = ks /\
    find_root data ks = Done (rootId doc) /\
    consistent doc st0.
Proof.
  intros Hkeys Hids Hchildren.
  destruct (load_spec data ks Hkeys Hids Hchildren)
    as (r & st0 & Hload & Hfind & Hr & _ & Hst0).
  exists (Document data ks r), st0. split; [exact Hload|].
  split; [reflexivity|]. split; [reflexivity|]. split; [exact Hfind|].
  apply consistent_default; [|exact Hst0].
  cbn [rootId keys]. intros x Hx. split; [apply Hr, Hx|apply Hids, Hr, Hx].
Qed.

Lemma load_leaves_a_consistent_view_witness :
  exists doc st0,
    load (treeData scenario) (keys scenario) = Done (doc, st0) /\
    treeData doc = treeData scenario /\ keys doc = keys scenario /\
    find_root (treeData scenario) (keys scenario) = Done (rootId doc) /\
    consistent doc st0.
Proof.
  exact (load_leaves_a_consistent_view (treeData scenario) (keys scenario)
           (wf_keys _ _ scenario_well_formed)
           (wf_ids _ _ scenario_well_formed)
           scenario_children_listed).
Defined.

(** *** Drawing *)

Lemma renderNodes_loop (doc : document) (st : state) (lay : layout)
    (l : list string) :
  (forall id, id ∈ l -> is_Some (nodeStates st !! id)) ->
  (forall id, id ∈ l -> is_Some (treeData doc !! id)) ->
  forall out0,
  exists new,
    for_each
      (fun out nodeId =>
         match nodeStates st !! nodeId with
         | None => TypeError
         | Some s =>
             if negb (visible s) then Done out
             else
               match treeData doc !! nodeId with
               | None => TypeError
               | Some node =>
                   Done (out ++ [Drawn nodeId (xs lay !! nodeId) (ys lay !! nodeId)
                                       (default false (highlight st !! nodeId))
                                       (match children node with
                                        | [] => None
                                        | _ => Some (expanded s)
                                        end)])
               end
         end) l out0 = Done (out0 ++ new) /\
    map data_id new = List.filter (is_visible st) l /\
    forall d, d ∈ new ->
      data_id d ∈ l /\ is_visible st (data_id d) = true /\
      rect_x d = xs lay !! data_id d /\ rect_y d = ys lay !! data_id d /\
      highlighted d = default false (highlight st !! data_id d).
Proof.
  induction l as [|id l IH]; intros Hst Hdata out0.
  - exists []. cbn [for_each]. rewrite app_nil_r. split; [reflexivity|].
    split; [reflexivity|]. intros d Hd. inversion Hd.
  - cbn [for_each List.filter].
    destruct (Hst id ltac:(left)) as [s Hs].
    destruct (Hdata id ltac:(left)) as [n Hn].
    assert (Hst' : forall id', id' ∈ l -> is_Some (nodeStates st !! id'))
      by (intros id' Hid'; apply Hst; right; exact Hid').
    assert (Hdata' : forall id', id' ∈ l -> is_Some (treeData doc !! id'))
      by (intros id' Hid'; apply Hdata; right; exact Hid').
    rewrite Hs. unfold is_visible at 1. rewrite Hs.
    destruct (visible s) eqn:Hvis; cbn [negb].
    + rewrite Hn. cbn [bind].
      set (d0 := Drawn id (xs lay !! id) (ys lay !! id)
                       (default false (highlight st !! id))
                       (match children n with
                        | [] => None
                        | _ => Some (expanded s)
                        end)).
      destruct (IH Hst' Hdata' (out0 ++ [d0])) as (new & -> & Hids & Hnew).
      exists (d0 :: new). rewrite <- app_assoc. split; [reflexivity|].
      cbn [map data_id d0]. split; [rewrite Hids; reflexivity|].
      intros d Hd. apply elem_of_cons in Hd as [->|Hd].
      * unfold d0. cbn [data_id rect_x rect_y highlighted].
        split; [left|]. split; [|auto].
        unfold is_visible. rewrite Hs. exact Hvis.
      * destruct (Hnew d Hd) as (Hin & Hrest). split; [right; exact Hin|].
        exact Hrest.
    + cbn [bind]. destruct (IH Hst' Hdata' out0) as (new & -> & Hids & Hnew).
      exists new. split; [reflexivity|]. split; [exact Hids|].
      intros d Hd. destruct (Hnew d Hd) as (Hin & Hrest).
      split; [right; exact Hin|]. exact Hrest.
Qed.

(** X17: in a consistent view, a rendering draws the visible nodes, in the
    order of the keys, and every one of them at coordinates that this
    rendering has computed: in the column of a level at which the node is
    shown and in the row of its place among the pushed nodes. *)
Theorem every_drawn_node_is_placed
    (doc : document) (st : state) (g : gaps) (height : string -> nat)
    (fuel : nat) (lay : layout) :
  (forall id, id ∈ keys doc <-> is_Some (treeData doc !! id)) ->
  (forall id n c, treeData doc !! id = Some n -> c ∈ children n ->
                  c ∈ keys doc) ->
  (forall id n c, treeData doc !! id = Some n -> c ∈ children n ->
                  (height c < height id)%nat) ->
  (forall id, id ∈ keys doc -> is_Some (nodeStates st !! id)) ->
  (forall id, id ∈ keys doc -> (height id < fuel)%nat) ->
  (forall r, rootId doc = Some r -> r ∈ keys doc) ->
  consistent doc st ->
  exists lay' out,
    calculateNodePositions fuel g doc st lay = Done lay' /\
    renderNodes doc st lay' = Done out /\
    map data_id out = List.filter (is_visible st) (keys doc) /\
    forall d, d ∈ out ->
      exists k i,
        shown_at doc st (data_id d) k /\
        rect_x d = Some (45 + Z.of_nat k * (nodeWidth g + horizontalGap g)) /\
        visibleNodes lay' !! i = Some (data_id d) /\
        rect_y d = Some (Z.of_nat i * verticalGap g + 45).
Proof.
  intros Hkeys Hchildren Hheight Hstates Hfuel Hroot Hcons.
  destruct (calculateNodePositions_spec doc st g height Hkeys Hchildren Hheight
              Hstates fuel lay Hfuel Hroot)
    as (lay' & Hrun & Hshown & Hxs & Hys).
  destruct (renderNodes_loop doc st lay' (keys doc) Hstates
              (fun id Hid => proj1 (Hkeys id) Hid) [])
    as (out & Hout & Hids & Hd).
  exists lay', out. split; [exact Hrun|]. split; [exact Hout|].
  split; [exact Hids|]. intros d Hin.
  destruct (Hd d Hin) as (Hk & Hvis & Hx & Hy & _).
  destruct (consistent_shown doc st height fuel Hkeys Hheight Hfuel Hcons
              _ Hk Hvis) as (k0 & Hk0).
  assert (Hpushed : data_id d ∈ visibleNodes lay') by (apply Hshown; eauto).
  destruct (Hxs _ Hpushed) as (k & _ & Hsk & Hxk).
  destruct (last_occurrence _ _ Hpushed) as (i & Hi & Hlast).
  exists k, i. split; [exact Hsk|]. split; [congruence|].
  split; [exact Hi|]. rewrite Hy. apply Hys; assumption.
Qed.

Lemma every_drawn_node_is_placed_witness :
  consistent scenario scenario_loaded /\
  exists lay' out,
    calculateNodePositions 3 (Gaps 220 45 45) scenario scenario_loaded
                           (Layout ∅ ∅ ∅ [])
    = Done lay' /\
    renderNodes scenario scenario_loaded lay' = Done out /\
    map data_id out
    = List.filter (is_visible scenario_loaded) (keys scenario) /\
    forall d, d ∈ out ->
      exists k i,
        shown_at scenario scenario_loaded (data_id d) k /\
        rect_x d = Some (45 + Z.of_nat k * (220 + 45)) /\
        visibleNodes lay' !! i = Some (data_id d) /\
        rect_y d = Some (Z.of_nat i * 45 + 45).
Proof.
  assert (Hcons : consistent scenario scenario_loaded).
  { apply consistent_default.
    - intros r [= <-]. split; [cbn; set_solver|discriminate].
    - intros id Hid. cbn in Hid. in_list Hid; subst id; vm_compute;
        reflexivity. }
  split; [exact Hcons|].
  exact (every_drawn_node_is_placed scenario scenario_loaded
           (Gaps 220 45 45) scenario_height 3 (Layout ∅ ∅ ∅ [])
           (wf_keys _ _ scenario_well_formed) scenario_children_listed
           (proj1 scenario_heights) (wf_states _ _ scenario_well_formed)
           (proj2 scenario_heights) (wf_root _ _ scenario_well_formed) Hcons).
Defined.

(** A view that is not consistent: a visible node below a folded one is
    drawn without coordinates. *)
Example inconsistent_view_draws_an_unplaced_node :
  exists lay' out,
    calculateNodePositions 3 (Gaps 220 45 45) scenario
      (State (<["plot" := NodeState false true]> (nodeStates scenario_loaded)) ∅)
      (Layout ∅ ∅ ∅ [])
    = Done lay' /\
    renderNodes scenario
      (State (<["plot" := NodeState false true]> (nodeStates scenario_loaded)) ∅)
      lay' = Done out /\
    Drawn "plot" None None false None ∈ out.
Proof.
  eexists. eexists. split; [vm_compute; reflexivity|].
  split; [vm_compute; reflexivity|]. set_solver.
Qed.

End ClientFacts.

(** ** The scaffolder *)

Module ScaffolderFacts.
Import Scaffolder.

Lemma length_app (a b : string) :
  String.length (a +:+ b) = (String.length a + String.length b)%nat.
Proof. induction a as [|c a IH]; simpl; [reflexivity|]. rewrite IH. reflexivity. Qed.

Lemma remove_spaces_clean (s : string) : has_space (remove_spaces s) = false.
Proof.
  induction s as [|c s IH]; simpl; [reflexivity|].
  destruct (is_blank_char c) eqn:Hc; simpl; [exact IH|].
  rewrite Hc. exact IH.
Qed.

Lemma remove_spaces_id (s : string) :
  has_space s = false -> remove_spaces s = s.
Proof.
  induction s as [|c s IH]; simpl; [reflexivity|].
  destruct (is_blank_char c); simpl; [discriminate|].
  intros H. rewrite IH by exact H. reflexivity.
Qed.

Lemma remove_spaces_length (s : string) :
  (String.length (remove_spaces s) <= String.length s)%nat /\
  (has_space s = true ->
   (String.length (remove_spaces s) < String.length s)%nat).
Proof.
  induction s as [|c s [IHle IHlt]]; simpl.
  - split; [lia|discriminate].
  - destruct (is_blank_char c); simpl; split; try lia.
    intros H. specialize (IHlt H). lia.
Qed.

Lemma join_length (a b : string) :
  (String.length b <= String.length (OsPath.join a b))%nat.
Proof.
  unfold OsPath.join.
  destruct (OsPath.startswith_sep b); [lia|].
  destruct (_ || _); rewrite !length_app; simpl; lia.
Qed.

Lemma remove_spaces_startswith_sep (s : string) :
  OsPath.startswith_sep s = true ->
  OsPath.startswith_sep (remove_spaces s) = true.
Proof.
  destruct s as [|c s]; simpl; [discriminate|].
  unfold OsPath.is_sep, is_blank_char.
  destruct (Ascii.eqb_spec c "/") as [->|]; [reflexivity|discriminate].
Qed.

(** X2 (the subject of C10).  The project directory is the root joined
    with the game name without its spaces; the name as given is not used
    when it has a space; a name of spaces only, which [main] accepts, puts
    the project into the root directory itself. *)
Theorem game_dir_drops_spaces (game_name root_directory : string) :
  game_dir game_name root_directory
  = OsPath.join root_directory (remove_spaces game_name) /\
  has_space (remove_spaces game_name) = false /\
  (has_space game_name = false -> remove_spaces game_name = game_name) /\
  (has_space game_name = true ->
   remove_spaces game_name <> game_name /\
   game_dir game_name root_directory <> OsPath.join root_directory game_name) /\
  (remove_spaces game_name = "" ->
   game_dir game_name root_directory = OsPath.join root_directory "").
Proof.
  split; [reflexivity|]. split; [apply remove_spaces_clean|].
  split; [apply remove_spaces_id|]. split.
  - intros Hsp.
    destruct (remove_spaces_length game_name) as [_ Hlt]. specialize (Hlt Hsp).
    split.
    + intros Heq. rewrite Heq in Hlt. lia.
    + unfold game_dir, OsPath.join.
      destruct (OsPath.startswith_sep game_name) eqn:Hg.
      * rewrite (remove_spaces_startswith_sep _ Hg).
        intros Heq. rewrite Heq in Hlt. lia.
      * destruct (OsPath.startswith_sep (remove_spaces game_name)).
        { intros Heq. apply (f_equal String.length) in Heq.
          destruct (_ || _); rewrite !length_app in Heq; simpl in Heq; lia. }
        destruct (_ || _); intros Heq;
          repeat (apply (inj (String.append _)) in Heq);
          rewrite Heq in Hlt; lia.
  - intros Hempty. unfold game_dir. rewrite Hempty. reflexivity.
Qed.

Lemma game_dir_drops_spaces_witness :
  has_space "My Awesome Game" = true /\
  game_dir "My Awesome Game" "/home/dev" = "/home/dev/MyAwesomeGame" /\
  name_accepted "   " = true /\
  game_dir "   " "/home/dev" = "/home/dev/" /\
  game_dir "My Awesome Game" "/home/dev"
  <> OsPath.join "/home/dev" "My Awesome Game".
Proof.
  split; [reflexivity|]. split; [reflexivity|]. split; [reflexivity|].
  split; [reflexivity|].
  exact (proj2 (proj1 (proj2 (proj2 (proj2
           (game_dir_drops_spaces "My Awesome Game" "/home/dev")))) eq_refl)).
Defined.

End ScaffolderFacts.

(** ** The identifiers *)

Lemma hex_digit_shape (d : Z) :
  0 <= d < 16 ->
  exists c, Str.hex_digit d = String c "" /\ is_hex c = true.
Proof.
  intros Hd. unfold Str.hex_digit. eexists. split; [reflexivity|].
  assert (Hn : (Z.to_nat d < 16)%nat) by lia.
  destruct (Z.to_nat d) as [|[|[|[|[|[|[|[|[|[|[|[|[|[|[|[|n]]]]]]]]]]]]]]]];
    try reflexivity. lia.
Qed.

Lemma hex_byte_shape (x : Z) :
  exists c1 c2, Str.hex_byte (Z.land x 255) = String c1 (String c2 "") /\
                is_hex c1 = true /\ is_hex c2 = true.
Proof.
  assert (Hb : 0 <= Z.land x 255 < 256).
  { split; [apply Z.land_nonneg; lia|].
    change 255 with (Z.ones 8). rewrite Z.land_ones by lia.
    apply Z.mod_pos_bound. lia. }
  unfold Str.hex_byte.
  destruct (hex_digit_shape (Z.land x 255 / 16)) as (c1 & -> & H1).
  { split; [apply Z.div_pos; lia|apply Z.div_lt_upper_bound; lia]. }
  destruct (hex_digit_shape (Z.land x 255 mod 16)) as (c2 & -> & H2).
  { apply Z.mod_pos_bound. lia. }
  exists c1, c2. auto.
Qed.

Lemma hex_prefix (x : Z) (rest : list Z) :
  exists h,
    substring 0 8 (Str.hex_bytes (W32.to_bytes x ++ rest)) = h /\
    String.length h = 8%nat /\
    forallb is_hex (list_ascii_of_string h) = true.
Proof.
  unfold W32.to_bytes. cbn [app].
  change (Str.hex_bytes (?a :: ?b :: ?c :: ?d :: rest))
    with (Str.hex_byte a +:+ Str.hex_byte b +:+ Str.hex_byte c
          +:+ Str.hex_byte d +:+ Str.hex_bytes rest).
  destruct (hex_byte_shape x) as (a1 & a2 & -> & Ha1 & Ha2).
  destruct (hex_byte_shape (Z.shiftr x 8)) as (b1 & b2 & -> & Hb1 & Hb2).
  destruct (hex_byte_shape (Z.shiftr x 16)) as (c1 & c2 & -> & Hc1 & Hc2).
  destruct (hex_byte_shape (Z.shiftr x 24)) as (d1 & d2 & -> & Hd1 & Hd2).
  assert (Hcut : forall s, substring 0 0 s = "") by (intros [|? ?]; reflexivity).
  eexists. split; [simpl; rewrite Hcut; reflexivity|]. split; [reflexivity|].
  simpl. rewrite Ha1, Ha2, Hb1, Hb2, Hc1, Hc2, Hd1, Hd2. reflexivity.
Qed.

(** X3.  An identifier is "node_" followed by eight lower-case hexadecimal
    digits; in particular it is not the empty string, which the script
    would take for a missing parent. *)
Theorem generate_id_shape (path : string) :
  exists h,
    _generate_id path = "node_" +:+ h /\
    String.length h = 8%nat /\
    forallb is_hex (list_ascii_of_string h) = true /\
    String.length (_generate_id path) = 13%nat /\
    _generate_id path <> "".
Proof.
  unfold _generate_id, md5_hexdigest, MD5.digest.
  generalize (fold_left MD5.process
                (MD5.chunks (length (MD5.words (MD5.pad (Str.bytes path))))
                            (MD5.words (MD5.pad (Str.bytes path))))
                MD5.init).
  intros st.
  destruct (hex_prefix (MD5.sa st)
              (W32.to_bytes (MD5.sb st) ++ W32.to_bytes (MD5.sc st)
                 ++ W32.to_bytes (MD5.sd st)))
    as (h & -> & Hlen & Hhex).
  exists h. split; [reflexivity|]. split; [exact Hlen|].
  split; [exact Hhex|]. split; [|discriminate].
  rewrite ScaffolderFacts.length_app, Hlen. reflexivity.
Qed.

(** ** The nodes of the mapping *)

Lemma create_node_formats directory parent_id self ref self1 d :
  create_node directory parent_id self = Py.Ok (ref, self1) ->
  formats (dir_sizes self) (colors self) (d, directory, parent_id).
Proof.
  unfold create_node, formats. cbn [fst snd].
  destruct (format_size _); py_simpl; [|discriminate].
  destruct (get_color_for_size _ _); py_simpl; [|discriminate].
  intros _. split; exact I.
Qed.

Lemma build_children_formats directory dir_id ref (g : node -> call)
    (subs : list (string * node)) :
  Forall (fun e => builds (snd e) (g (snd e)) /\
                   forall directory parent_id self self',
                     g (snd e) directory parent_id self = Py.Ok self' ->
                     Forall (formats (dir_sizes self) (colors self))
                            (dirs_under (snd e) directory parent_id)) subs ->
  forall self self',
    Py.for_each (build_child directory ref dir_id)
                (map (fun e => (fst e, g (snd e))) subs) self = Py.Ok self' ->
    Forall (formats (dir_sizes self) (colors self))
           (flat_map (fun e => dirs_under (snd e) (OsPath.join directory (fst e))
                                          (Some dir_id)) subs).
Proof.
  induction 1 as [|[subdir sub] subs [Hb Hf] _ IH]; intros self self' Hloop.
  - constructor.
  - cbn [map Py.for_each fst snd] in Hloop. unfold build_child at 1 in Hloop.
    py_simpl.
    destruct (g sub _ _ self) as [self1|] eqn:Hcall; py_simpl; [|discriminate].
    cbn [flat_map fst snd]. apply Forall_app. split.
    + eapply Hf. exact Hcall.
    + destruct (Hb _ _ _ _ Hcall) as (new & (_ & Hc & Hs & _ & _) & _).
      specialize (IH _ _ Hloop). cbn [append_child dir_sizes colors] in IH.
      rewrite Hs, Hc in IH. exact IH.
Qed.

(** Where the builder returns, [format_size] and [get_color_for_size] have
    returned for every directory. *)
Lemma build_directory_tree_formats (d : node) :
  forall directory parent_id self self',
    build_directory_tree d directory parent_id self = Py.Ok self' ->
    Forall (formats (dir_sizes self) (colors self))
           (dirs_under d directory parent_id).
Proof.
  induction d as [st|e|entries IH] using node_induction;
    intros directory parent_id self self' Hb;
    rewrite build_directory_tree_unfold in Hb;
    destruct (create_node directory parent_id self) as [[ref self1]|] eqn:Hc;
    cbn [Py.bind] in Hb; try discriminate Hb.
  - constructor; [|constructor]. eapply create_node_formats, Hc.
  - rewrite dirs_under_listed. constructor.
    { eapply create_node_formats, Hc. }
    apply create_node_extends in Hc as [-> (_ & Hcol & Hs & _ & _)].
    unfold build_children, sorted_by_name in Hb.
    set (dirs := List.filter (fun e => is_dir (snd e)) entries) in *.
    match type of Hb with
    | context [merge_sort ?R ?l] =>
        pose proof (merge_sort_Permutation R l) as Hp
    end.
    apply Permutation_map_inv in Hp as (subs & Hsubs & Hperm).
    rewrite Hsubs in Hb.
    assert (IHsubs :
      Forall (fun e => builds (snd e) (build_directory_tree (snd e)) /\
                       forall directory parent_id self self',
                         build_directory_tree (snd e) directory parent_id self
                         = Py.Ok self' ->
                         Forall (formats (dir_sizes self) (colors self))
                                (dirs_under (snd e) directory parent_id)) subs).
    { rewrite <- Hperm. apply Forall_dirs.
      eapply Forall_impl; [exact IH|]. intros e He. split; [|exact He].
      apply build_directory_tree_builds. }
    pose proof (build_children_formats _ _ _ build_directory_tree subs IHsubs
                  _ _ Hb) as Hall.
    rewrite Hs, Hcol in Hall. rewrite Hperm. exact Hall.
Qed.

(** What [scan_and_build] runs through, when it returns. *)
Lemma scan_and_build_inv (d : node) (root : string) (m : gmap string Node.t) :
  scan_and_build d root = Py.Ok m ->
  exists self self' new,
    scan_directory_sizes d root (DirectorySVGGenerator root) = Py.Ok self /\
    build_directory_tree d root None self = Py.Ok self' /\
    m = tree_data self' /\
    heap self = [] /\ directory_tree self = ∅ /\
    extends self self' new /\
    new ≡ₚ map (expected_node (dir_sizes self) (colors self))
               (dirs_under d root None).
Proof.
  unfold scan_and_build, mbind, result_bind.
  destruct (scan_directory_sizes d root _) as [self|] eqn:Hscan; [|discriminate].
  cbn [Py.bind].
  destruct (build_directory_tree d root None self) as [self'|] eqn:Hbuild;
    [|discriminate].
  cbn [Py.bind]. intros [= <-].
  apply scan_directory_sizes_heap in Hscan as Hfresh. destruct Hfresh as [Hh Ht].
  destruct (build_directory_tree_builds d _ _ _ _ Hbuild) as (new & Hext & Hnew).
  exists self, self', new. auto 10.
Qed.

(** X4.  Every node of the mapping is stored under its own identifier, which
    is the identifier of its path; its name is the last component of the
    path, its size the recorded size of the path, and its formatted size
    and colour are what [format_size] and [get_color_for_size] return for
    that size. *)
Theorem node_fields_are_consistent
    (d : node) (root : string) (m : gmap string Node.t)
    (id : string) (n : Node.t) :
  scan_and_build d root = Py.Ok m ->
  m !! id = Some n ->
  exists self,
    scan_directory_sizes d root (DirectorySVGGenerator root) = Py.Ok self /\
    Node.id n = id /\
    id = _generate_id (Node.path n) /\
    Node.name n = OsPath.basename (Node.path n) /\
    Node.size n = default 0 (dir_sizes self !! Node.path n) /\
    format_size (Node.size n) = Py.Ok (Node.formatted_size n) /\
    get_color_for_size (colors self) (Node.size n) = Py.Ok (Node.color n).
Proof.
  intros Hrun Hn.
  destruct (scan_and_build_inv d root m Hrun)
    as (self & self' & new & Hscan & Hbuild & -> & Hh & Ht & Hext & Hnew).
  destruct (tree_data_created self self' new Hh Ht Hext) as [Hin _].
  destruct (Hin id n Hn) as [Hmem Hid].
  rewrite Hnew in Hmem. apply list_elem_of_fmap in Hmem as ([[d' p] par] & -> & Hmem).
  pose proof (build_directory_tree_formats d _ _ _ _ Hbuild) as Hall.
  rewrite Forall_forall in Hall. destruct (Hall _ Hmem) as [Hf Hc].
  unfold formats in Hf, Hc. cbn [fst snd] in Hf, Hc.
  exists self. split; [exact Hscan|]. cbn [expected_node Node.id] in Hid.
  cbn [expected_node Node.id Node.path Node.name Node.size
       Node.formatted_size Node.color].
  destruct (format_size _) as [s|]; [|contradiction].
  destruct (get_color_for_size _ _) as [c|]; [|contradiction].
  repeat split; auto.
Qed.

Lemma node_fields_are_consistent_witness :
  scan_and_build scenario_root "/r" = Py.Ok scenario_tree /\
  scenario_tree !! _generate_id "/r/A" <> None /\
  forall n, scenario_tree !! _generate_id "/r/A" = Some n ->
    exists self,
      scan_directory_sizes scenario_root "/r" (DirectorySVGGenerator "/r")
      = Py.Ok self /\
      Node.id n = _generate_id "/r/A" /\
      _generate_id "/r/A" = _generate_id (Node.path n) /\
      Node.name n = OsPath.basename (Node.path n) /\
      Node.size n = default 0 (dir_sizes self !! Node.path n) /\
      format_size (Node.size n) = Py.Ok (Node.formatted_size n) /\
      get_color_for_size (colors self) (Node.size n) = Py.Ok (Node.color n).
Proof.
  assert (Hm : scan_and_build scenario_root "/r" = Py.Ok scenario_tree)
    by (vm_compute; reflexivity).
  split; [exact Hm|]. split; [vm_compute; discriminate|].
  intros n Hn.
  exact (node_fields_are_consistent scenario_root "/r" scenario_tree _ n Hm Hn).
Defined.

Lemma install_defined (new : list Node.t) :
  forall (base : nat) (m : gmap string nat) (id : string),
    id ∈ map Node.id new ->
    exists i o, new !! i = Some o /\ Node.id o = id /\
                install base new m !! id = Some (base + i)%nat.
Proof.
  induction new as [|o new IH]; intros base m id Hid; [inversion Hid|].
  cbn [map install] in *.
  destruct (decide (id ∈ map Node.id new)) as [Hin|Hnot].
  - destruct (IH (S base) (<[Node.id o := base]> m) id Hin) as (i & o' & Hi & Ho & Hl).
    exists (S i), o'. split; [exact Hi|]. split; [exact Ho|].
    rewrite Hl. f_equal. lia.
  - apply elem_of_cons in Hid as [->|Hid]; [|contradiction].
    exists 0%nat, o. split; [reflexivity|]. split; [reflexivity|].
    rewrite install_lookup_other by exact Hnot.
    rewrite lookup_insert_eq. f_equal. lia.
Qed.

(** X5.  The mapping has one node for each identifier of a visited directory:
    as many nodes as directories when the identifiers are distinct, and
    never more. *)
Theorem one_node_per_identifier
    (d : node) (root : string) (m : gmap string Node.t) :
  scan_and_build d root = Py.Ok m ->
  dom m = list_to_set (dir_ids d root None) /\
  (size m <= length (dirs_under d root None))%nat /\
  (NoDup (dir_ids d root None) -> size m = length (dirs_under d root None)).
Proof.
  intros Hrun.
  destruct (scan_and_build_inv d root m Hrun)
    as (self & self' & new & _ & _ & -> & Hh & Ht & Hext & Hnew).
  assert (Hids : map Node.id new ≡ₚ dir_ids d root None).
  { rewrite Hnew, map_map. unfold dir_ids.
    erewrite map_ext; [reflexivity|]. intros t. apply expected_node_id. }
  assert (Hdom : dom (tree_data self') = list_to_set (dir_ids d root None)).
  { apply set_eq. intros id. rewrite elem_of_dom, elem_of_list_to_set, <- Hids.
    destruct Hext as (_ & _ & _ & Hheap & Htree).
    rewrite Hh in Hheap, Htree. rewrite Ht in Htree. simpl in Hheap, Htree.
    rewrite tree_data_lookup, Htree, Hheap. split.
    - intros [n Hn].
      destruct (install 0 new ∅ !! id) as [ref|] eqn:Hid; [|discriminate].
      apply install_lookup in Hid as [Hid|(i & o & Hi & -> & <-)].
      + rewrite lookup_empty in Hid. discriminate.
      + apply list_elem_of_fmap. exists o. split; [reflexivity|].
        eapply list_elem_of_lookup_2. exact Hi.
    - intros Hid. destruct (install_defined new 0 ∅ id Hid) as (i & o & Hi & _ & ->).
      simpl. rewrite Hi. eauto. }
  split; [exact Hdom|].
  assert (Hlen : length (dir_ids d root None) = length (dirs_under d root None)).
  { unfold dir_ids. apply length_map. }
  rewrite <- size_dom, Hdom, <- Hlen. split.
  - clear. induction (dir_ids d root None) as [|x l IH]; [reflexivity|].
    rewrite list_to_set_cons. cbn [length].
    pose proof (size_union_alt {[x]} (list_to_set l : gset string)) as Hu.
    rewrite Hu, size_singleton.
    pose proof (subseteq_size (list_to_set l ∖ {[x]}) (list_to_set l : gset string)
                  ltac:(set_solver)).
    lia.
  - apply size_list_to_set.
Qed.

Lemma one_node_per_identifier_witness :
  scan_and_build colliding_root "/r" = Py.Ok colliding_tree /\
  size colliding_tree = 2%nat /\
  length (dirs_under colliding_root "/r" None) = 3%nat /\
  dom colliding_tree = list_to_set (dir_ids colliding_root "/r" None).
Proof.
  assert (Hm : scan_and_build colliding_root "/r" = Py.Ok colliding_tree)
    by (vm_compute; reflexivity).
  split; [exact Hm|]. split; [vm_compute; reflexivity|].
  split; [reflexivity|].
  exact (proj1 (one_node_per_identifier colliding_root "/r" colliding_tree Hm)).
Defined.

(** ** The scan *)

Lemma add_file_sizes_inv (files : list (string * stat)) :
  forall (total_size : Z),
    match Py.for_each add_file_size files total_size with
    | Py.Ok r =>
        r = total_size + foldr Z.add 0 (map (fun f => stat_bytes (snd f)) files)
    | Py.Raise e => e <> Py.PermissionError /\ e <> Py.FileNotFoundError
    end.
Proof.
  induction files as [|[name st] files IH]; intros total_size;
    cbn [Py.for_each map foldr snd].
  - lia.
  - unfold add_file_size at 1. cbn [snd].
    destruct st as [n|[]]; cbn [Py.bind stat_bytes];
      try (split; discriminate);
      specialize (IH (total_size + n)) || specialize (IH total_size);
      destruct (Py.for_each add_file_size files _); try assumption; lia.
Qed.

(** The loop over [os.walk] either adds up the bytes below the directory
    or raises an exception that the handlers of [calculate_dir_size] do not
    catch. *)
Lemma walk_total_inv (d : node) :
  forall (top : string) (total_size : Z),
    match Py.for_each
            (fun total_size '(dirpath, _, filenames) =>
               Py.for_each add_file_size filenames total_size)
            (os_walk d top) total_size with
    | Py.Ok r => r = total_size + total_bytes d
    | Py.Raise e => e <> Py.PermissionError /\ e <> Py.FileNotFoundError
    end.
Proof.
  induction d as [st|e|entries IH] using node_induction; intros top total_size.
  - cbn. unfold total_bytes. cbn. lia.
  - cbn. unfold total_bytes. cbn. lia.
  - rewrite total_bytes_listed. cbn [os_walk Py.for_each].
    pose proof (add_file_sizes_inv (nondirs entries) total_size) as Hown.
    destruct (Py.for_each add_file_size (nondirs entries) total_size) as [r1|e];
      cbn [Py.bind]; [|exact Hown].
    fold (own_bytes entries) in Hown. subst r1. rewrite Z.add_assoc.
    generalize (total_size + own_bytes entries). unfold sub_bytes.
    induction IH as [|[name sub] entries IHsub _ IHentries]; intros acc.
    + cbn. lia.
    + cbn [flat_map List.filter fst snd].
      destruct sub as [st|listing]; cbn [is_dir].
      * apply IHentries.
      * rewrite for_each_app. specialize (IHsub (OsPath.join top name) acc).
        cbn [snd] in IHsub.
        destruct (Py.for_each _ (os_walk (Dir listing) _) acc) as [r2|e];
          cbn [Py.bind]; [|exact IHsub].
        subst r2. specialize (IHentries (acc + total_bytes (Dir listing))).
        destruct (Py.for_each _ _ (acc + total_bytes (Dir listing)));
          [|exact IHentries].
        cbn [map foldr snd]. lia.
Qed.

(** Whenever [calculate_dir_size] returns, it returns the bytes below the
    directory. *)
Lemma calculate_dir_size_inv (d : node) (directory : string) (n : Z) :
  calculate_dir_size d directory = Py.Ok n -> n = total_bytes d.
Proof.
  unfold calculate_dir_size.
  pose proof (walk_total_inv d directory 0) as H.
  destruct (Py.for_each _ (os_walk d directory) 0) as [r|e].
  - intros [= <-]. lia.
  - destruct H as [H1 H2]. destruct e; try discriminate; contradiction.
Qed.

(** The scan, when it returns, has recorded the listed directories one
    after the other. *)
Lemma scan_directory_sizes_records (d : node) :
  forall directory self self',
    scan_directory_sizes d directory self = Py.Ok self' ->
    self' = record_all (scanned d directory) self.
Proof.
  induction d as [st|e|entries IH] using node_induction;
    intros directory self self' Hscan; cbn [scan_directory_sizes] in Hscan.
  - discriminate.
  - destruct e; try discriminate; injection Hscan as <-; reflexivity.
  - unfold mbind, result_bind in Hscan.
    destruct (calculate_dir_size _ _) as [dir_size|] eqn:Hsize; [|discriminate].
    cbn [Py.bind] in Hscan. apply calculate_dir_size_inv in Hsize. subst dir_size.
    cbn [scanned]. unfold record_all. cbn [fold_left fst snd].
    revert Hscan.
    generalize (record_size directory (total_bytes (Dir (Py.Ok entries))) self).
    induction IH as [|[name sub] entries IHsub _ IHentries]; intros self1 Hloop.
    + injection Hloop as <-. reflexivity.
    + cbn [Py.for_each fst snd Py.bind flat_map] in *.
      destruct (is_dir sub).
      * destruct (scan_directory_sizes sub _ self1) as [self2|] eqn:Hsub;
          [|discriminate].
        cbn [Py.bind] in Hloop. apply IHsub in Hsub. subst self2.
        rewrite fold_left_app. apply IHentries. exact Hloop.
      * apply IHentries. exact Hloop.
Qed.

(** ** Paths *)

Lemma app_cons (x : ascii) (a b : string) :
  String x a +:+ b = String x (a +:+ b).
Proof. reflexivity. Qed.

Lemma app_nil_str (a : string) : a +:+ "" = a.
Proof.
  induction a as [|x a IH]; [reflexivity|]. rewrite app_cons, IH. reflexivity.
Qed.

Lemma app_assoc_str (a b c : string) : (a +:+ b) +:+ c = a +:+ (b +:+ c).
Proof.
  induction a as [|x a IH]; [reflexivity|]. rewrite !app_cons, IH. reflexivity.
Qed.

Lemma name_ok_inv (n : string) :
  name_ok n = true ->
  n <> "" /\ OsPath.has_sep n = false /\ OsPath.startswith_sep n = false.
Proof.
  unfold name_ok. intros H. apply andb_true_iff in H as [H1 H2].
  apply negb_true_iff in H1, H2. apply String.eqb_neq in H1.
  repeat split; try assumption.
  destruct n as [|c n]; [reflexivity|]. simpl in *.
  apply orb_false_iff in H2 as [H2 _]. exact H2.
Qed.

Lemma join_base (directory n : string) :
  OsPath.startswith_sep n = false -> OsPath.join directory n = base directory +:+ n.
Proof.
  intros Hn. unfold OsPath.join, base. rewrite Hn.
  destruct (_ || _); [reflexivity|]. rewrite app_assoc_str. reflexivity.
Qed.

Lemma endswith_sep_app (a n : string) :
  n <> "" -> OsPath.endswith_sep (a +:+ n) = OsPath.endswith_sep n.
Proof.
  intros Hn. induction a as [|x a IH]; [reflexivity|].
  rewrite app_cons. cbn [OsPath.endswith_sep]. rewrite IH.
  destruct (a +:+ n) eqn:E; [|reflexivity].
  destruct a; [change ("" +:+ n) with n in E; contradiction|].
  rewrite app_cons in E. discriminate.
Qed.

Lemma endswith_sep_no_sep (n : string) :
  OsPath.has_sep n = false -> OsPath.endswith_sep n = false.
Proof.
  induction n as [|c n IH]; [reflexivity|]. simpl.
  intros H. apply orb_false_iff in H as [Hc Hn].
  destruct n; [exact Hc|]. apply IH, Hn.
Qed.

(** The path of a sub-directory is itself extended by a separator. *)
Lemma base_join (directory n : string) :
  name_ok n = true ->
  base (OsPath.join directory n) = base directory +:+ n +:+ "/".
Proof.
  intros Hok. destruct (name_ok_inv n Hok) as (Hne & Hsep & Hstart).
  rewrite (join_base _ _ Hstart). unfold base at 1.
  rewrite endswith_sep_app by exact Hne.
  rewrite (endswith_sep_no_sep n Hsep), orb_false_r.
  destruct (String.eqb_spec (base directory +:+ n) "") as [E|_].
  - destruct (base directory);
      [change ("" +:+ n) with n in E; contradiction|].
    rewrite app_cons in E. discriminate.
  - apply app_assoc_str.
Qed.

Lemma first_component (n1 : string) :
  forall n2 r1 r2,
    OsPath.has_sep n1 = false -> OsPath.has_sep n2 = false ->
    (r1 = "" \/ OsPath.startswith_sep r1 = true) ->
    (r2 = "" \/ OsPath.startswith_sep r2 = true) ->
    n1 +:+ r1 = n2 +:+ r2 -> n1 = n2.
Proof.
  induction n1 as [|c n1 IH]; intros [|c2 n2] r1 r2 H1 H2 Hr1 Hr2 Heq;
    rewrite ?app_cons in Heq; change ("" +:+ ?s) with s in Heq; simpl in *.
  - reflexivity.
  - subst r1. apply orb_false_iff in H2 as [Hc _].
    destruct Hr1 as [Hr|Hr]; [discriminate|]. simpl in Hr. congruence.
  - subst r2. apply orb_false_iff in H1 as [Hc _].
    destruct Hr2 as [Hr|Hr]; [discriminate|]. simpl in Hr. congruence.
  - injection Heq as -> Heq.
    apply orb_false_iff in H1 as [_ H1]. apply orb_false_iff in H2 as [_ H2].
    f_equal. exact (IH n2 r1 r2 H1 H2 Hr1 Hr2 Heq).
Qed.

Lemma well_named_listed (entries : list (string * node)) :
  well_named (Dir (Py.Ok entries)) = true ->
  NoDup (dirnames entries) /\
  Forall (fun e => name_ok (fst e) = true /\ well_named (snd e) = true)
         (List.filter (fun e => is_dir (snd e)) entries).
Proof.
  cbn [well_named]. intros H. apply andb_true_iff in H as [Hnd Hall].
  split; [apply bool_decide_eq_true in Hnd; exact Hnd|].
  clear Hnd. induction entries as [|[n sub] entries IH]; [constructor|].
  cbn [forallb fst snd] in Hall. apply andb_true_iff in Hall as [He Hall].
  cbn [List.filter snd]. destruct (is_dir sub).
  - constructor; [|apply IH, Hall]. apply andb_true_iff in He. exact He.
  - apply IH, Hall.
Qed.

(** The paths below a sub-directory start with its path, and go on with a
    separator if they go on. *)
Lemma paths_below_child (d : node) :
  forall directory n parent_id t,
    well_named d = true -> name_ok n = true ->
    t ∈ dirs_under d (OsPath.join directory n) parent_id ->
    exists r, snd (fst t) = base directory +:+ n +:+ r /\
              (r = "" \/ OsPath.startswith_sep r = true).
Proof.
  induction d as [st|e|entries IH] using node_induction;
    intros directory n parent_id t Hwf Hn Ht.
  - cbn in Ht. apply list_elem_of_singleton in Ht. subst t. cbn [fst snd].
    exists "". split; [|auto].
    rewrite join_base by apply (name_ok_inv n Hn).
    rewrite app_nil_str. reflexivity.
  - cbn in Ht. apply list_elem_of_singleton in Ht. subst t. cbn [fst snd].
    exists "". split; [|auto].
    rewrite join_base by apply (name_ok_inv n Hn).
    rewrite app_nil_str. reflexivity.
  - rewrite dirs_under_listed in Ht. apply elem_of_cons in Ht as [->|Ht].
    + cbn [fst snd]. exists "". split; [|auto].
      rewrite join_base by apply (name_ok_inv n Hn).
      rewrite app_nil_str. reflexivity.
    + apply elem_of_flat_map in Ht as ([n' sub] & He & Ht).
      destruct (well_named_listed _ Hwf) as [_ Hall].
      rewrite Forall_forall in Hall.
      destruct (Hall _ He) as [Hn' Hsub].
      cbn [fst snd] in *.
      rewrite Forall_forall in IH.
      assert (Hin : (n', sub) ∈ entries).
      { apply list_elem_of_In, filter_In in He as [He _].
        apply list_elem_of_In. exact He. }
      destruct (IH _ Hin (OsPath.join directory n) n' _ t Hsub Hn' Ht)
        as (r & Hp & Hr).
      rewrite base_join in Hp by exact Hn.
      exists ("/" +:+ n' +:+ r). split; [|right; reflexivity].
      rewrite Hp. rewrite !app_assoc_str. reflexivity.
Qed.

Lemma base_length (directory : string) :
  (String.length directory <= String.length (base directory))%nat.
Proof.
  unfold base. destruct (_ || _); [lia|].
  rewrite ScaffolderFacts.length_app. lia.
Qed.

Lemma child_path_longer (directory n r : string) :
  name_ok n = true -> directory <> base directory +:+ n +:+ r.
Proof.
  intros Hn Heq. apply (f_equal String.length) in Heq.
  rewrite !ScaffolderFacts.length_app in Heq.
  pose proof (base_length directory).
  destruct (name_ok_inv n Hn) as (Hne & _ & _).
  destruct n; [contradiction|]. simpl in Heq. lia.
Qed.

(** In a well-named tree no two visited directories have the same path. *)
Lemma dirs_under_paths_NoDup (d : node) :
  forall directory parent_id,
    well_named d = true ->
    NoDup (map (fun t => snd (fst t)) (dirs_under d directory parent_id)).
Proof.
  induction d as [st|e|entries IH] using node_induction;
    intros directory parent_id Hwf.
  - cbn. apply NoDup_singleton.
  - cbn. apply NoDup_singleton.
  - rewrite dirs_under_listed. cbn [map fst snd].
    destruct (well_named_listed _ Hwf) as [Hnames Hall].
    apply Forall_dirs in IH. unfold dirnames in Hnames.
    set (dirs := List.filter (fun e => is_dir (snd e)) entries) in *.
    set (pid := Some (_generate_id directory)) in *.
    assert (Hin : forall e p,
              e ∈ dirs ->
              p ∈ map (fun t : node * string * option string => snd (fst t))
                      (dirs_under (snd e) (OsPath.join directory (fst e)) pid) ->
              exists r, p = base directory +:+ fst e +:+ r /\
                        (r = "" \/ OsPath.startswith_sep r = true)).
    { intros e p He Hp. rewrite Forall_forall in Hall.
      destruct (Hall e He) as [Hn Hsub].
      apply list_elem_of_fmap in Hp as (t & -> & Ht).
      eapply paths_below_child; eassumption. }
    apply NoDup_cons. split.
    + rewrite map_of_flat_map. intros Hroot.
      apply elem_of_flat_map in Hroot as (e & He & Hp).
      destruct (Hin e directory He Hp) as (r & Heq & _).
      rewrite Forall_forall in Hall. destruct (Hall e He) as [Hn _].
      exact (child_path_longer _ _ _ Hn Heq).
    + rewrite map_of_flat_map.
      clearbody dirs. clear Hwf.
      induction dirs as [|[n sub] dirs IHdirs]; [constructor|].
      cbn [flat_map fst snd map] in *.
      apply NoDup_cons in Hnames as [Hn Hnames].
      apply Forall_cons in IH as [IHsub IH].
      apply Forall_cons in Hall as [[Hok Hsub] Hall].
      apply NoDup_app. split; [|split].
      * apply IHsub. exact Hsub.
      * intros p Hp1 Hp2.
        apply elem_of_flat_map in Hp2 as ([n2 sub2] & He2 & Hp2).
        destruct (Hin (n, sub) p ltac:(left) Hp1) as (r1 & Hr1 & Hs1).
        destruct (Hin (n2, sub2) p ltac:(right; exact He2) Hp2) as (r2 & Hr2 & Hs2).
        cbn [fst snd] in *. rewrite Hr1 in Hr2.
        apply (inj (String.append (base directory))) in Hr2.
        pose proof Hall as Hall'. rewrite Forall_forall in Hall'.
        destruct (Hall' _ He2) as [Hok2 _]. cbn [fst] in Hok2.
        destruct (name_ok_inv _ Hok) as (_ & Hsep1 & _).
        destruct (name_ok_inv _ Hok2) as (_ & Hsep2 & _).
        pose proof (first_component n n2 r1 r2 Hsep1 Hsep2 Hs1 Hs2 Hr2) as Heq.
        subst n2. apply Hn. apply list_elem_of_fmap. exists (n, sub2). auto.
      * apply IHdirs; try assumption.
        intros e p He. apply Hin. right. exact He.
Qed.

(** ** What the scan leaves behind *)

(** The scan records the visited directories that can be listed. *)
Lemma scanned_dirs_under (d : node) :
  forall directory parent_id,
    scanned d directory = flat_map recorded (dirs_under d directory parent_id).
Proof.
  induction d as [st|e|entries IH] using node_induction;
    intros directory parent_id; try reflexivity.
  cbn [scanned dirs_under flat_map recorded fst snd app]. f_equal.
  generalize (Some (_generate_id directory)). intros pid.
  induction IH as [|[n sub] entries IHsub _ IHentries]; [reflexivity|].
  cbn [flat_map fst snd]. rewrite flat_map_app, <- IHentries.
  destruct (is_dir sub); [|reflexivity].
  rewrite <- IHsub. reflexivity.
Qed.

Lemma recorded_paths_sublist (l : list (node * string * option string)) :
  sublist (map fst (flat_map recorded l)) (map (fun t => snd (fst t)) l).
Proof.
  induction l as [|[[d p] par] l IH]; [constructor|].
  cbn [flat_map map fst snd]. unfold recorded at 1. cbn [fst snd].
  destruct d as [st|[entries|e]]; cbn [app map fst];
    [apply sublist_cons_r; left; exact IH
    |apply sublist_skip; exact IH
    |apply sublist_cons_r; left; exact IH].
Qed.

Lemma scanned_paths_NoDup (d : node) (directory : string) :
  well_named d = true -> NoDup (map fst (scanned d directory)).
Proof.
  intros Hwf. rewrite (scanned_dirs_under d directory None).
  eapply sublist_NoDup; [|apply recorded_paths_sublist].
  apply dirs_under_paths_NoDup. exact Hwf.
Qed.

Lemma record_all_fields (l : list (string * Z)) :
  forall self,
    root_dir (record_all l self) = root_dir self /\
    heap (record_all l self) = heap self /\
    directory_tree (record_all l self) = directory_tree self /\
    colors (record_all l self) = observe_all (map snd l) (colors self).
Proof.
  induction l as [|[p z] l IH]; intros self; [auto|].
  cbn [record_all fold_left map fst snd observe_all].
  destruct (IH (record_size p z self)) as (H1 & H2 & H3 & H4).
  unfold record_all, observe_all in *. rewrite H1, H2, H3, H4. auto.
Qed.

Lemma record_all_lookup_other (l : list (string * Z)) :
  forall self p,
    (p ∉ map fst l) ->
    dir_sizes (record_all l self) !! p = dir_sizes self !! p.
Proof.
  induction l as [|[q w] l IH]; intros self p Hp; [reflexivity|].
  cbn [map fst] in Hp. apply not_elem_of_cons in Hp as [Hne Hp].
  change (record_all ((q, w) :: l) self)
    with (record_all l (record_size q w self)).
  rewrite IH by exact Hp. cbn [record_size dir_sizes].
  apply lookup_insert_ne. congruence.
Qed.

Lemma record_all_lookup_inv (l : list (string * Z)) :
  forall self p z,
    dir_sizes (record_all l self) !! p = Some z ->
    (p, z) ∈ l \/ ((p ∉ map fst l) /\ dir_sizes self !! p = Some z).
Proof.
  induction l as [|[q w] l IH]; intros self p z Hp.
  - right. split; [apply not_elem_of_nil|exact Hp].
  - change (record_all ((q, w) :: l) self)
      with (record_all l (record_size q w self)) in Hp.
    apply IH in Hp as [Hin|[Hnot Hp]]; [left; right; exact Hin|].
    cbn [record_size dir_sizes] in Hp.
    destruct (decide (q = p)) as [->|Hne].
    + rewrite lookup_insert_eq in Hp. injection Hp as ->. left. left.
    + rewrite lookup_insert_ne in Hp by exact Hne. right.
      split; [|exact Hp]. cbn [map fst]. apply not_elem_of_cons. auto.
Qed.

Lemma record_all_lookup (l : list (string * Z)) :
  forall self p z,
    NoDup (map fst l) -> (p, z) ∈ l ->
    dir_sizes (record_all l self) !! p = Some z.
Proof.
  induction l as [|[q w] l IH]; intros self p z Hnd Hin; [inversion Hin|].
  cbn [map fst] in Hnd. apply NoDup_cons in Hnd as [Hq Hnd].
  change (record_all ((q, w) :: l) self)
    with (record_all l (record_size q w self)).
  apply elem_of_cons in Hin as [Heq|Hin].
  - injection Heq as -> ->. rewrite record_all_lookup_other by exact Hq.
    cbn [record_size dir_sizes]. apply lookup_insert_eq.
  - apply IH; assumption.
Qed.

(** After a scan of a well-named tree from a new generator, the recorded
    entries are the listed directories with the bytes below them. *)
Lemma scan_lookup (d : node) (root : string) (self : generator) :
  scan_directory_sizes d root (DirectorySVGGenerator root) = Py.Ok self ->
  (forall p z, dir_sizes self !! p = Some z -> (p, z) ∈ scanned d root) /\
  (well_named d = true ->
   forall p z, (p, z) ∈ scanned d root -> dir_sizes self !! p = Some z).
Proof.
  intros Hscan. apply scan_directory_sizes_records in Hscan. subst self.
  split.
  - intros p z Hp. apply record_all_lookup_inv in Hp as [Hin|[_ Hp]];
      [exact Hin|]. cbn in Hp. rewrite lookup_empty in Hp. discriminate.
  - intros Hwf p z Hin. apply record_all_lookup; [|exact Hin].
    apply scanned_paths_NoDup. exact Hwf.
Qed.

(** The size that the builder reads for a visited directory is the count
    of the bytes below it; nothing is recorded for one that cannot be
    listed, and nothing is below it. *)
Lemma recorded_size (d : node) (root : string) (self : generator)
    (sub : node) (p : string) (parent_id : option string) :
  well_named d = true ->
  scan_directory_sizes d root (DirectorySVGGenerator root) = Py.Ok self ->
  (sub, p, parent_id) ∈ dirs_under d root None ->
  default 0 (dir_sizes self !! p) = total_bytes sub.
Proof.
  intros Hwf Hscan Hin.
  destruct (scan_lookup d root self Hscan) as [Hinv Hlook].
  specialize (Hlook Hwf).
  destruct (dir_sizes self !! p) as [z|] eqn:Hp; cbn [default].
  - apply Hinv in Hp. rewrite (scanned_dirs_under d root None) in Hp.
    apply elem_of_flat_map in Hp as ([[sub' p'] par'] & Hin' & Hrec).
    unfold recorded in Hrec. cbn [fst snd] in Hrec.
    destruct sub' as [st|[entries|e]]; try (inversion Hrec; fail).
    apply list_elem_of_singleton in Hrec. injection Hrec as -> ->.
    pose proof (NoDup_map_inj_on (fun t : node * string * option string => snd (fst t))
                  _ _ _ (dirs_under_paths_NoDup d root None Hwf) Hin Hin' eq_refl)
      as Heq.
    injection Heq as -> _. reflexivity.
  - destruct sub as [st|[entries|e]]; try reflexivity.
    exfalso. assert (Hrec : (p, total_bytes (Dir (Py.Ok entries))) ∈ scanned d root).
    { rewrite (scanned_dirs_under d root None). apply elem_of_flat_map.
      eexists. split; [exact Hin|]. left. }
    apply Hlook in Hrec. congruence.
Qed.

(** X6: after a scan of a tree whose names are distinct and hold no
    separator, the recorded sizes are those of the visited directories that
    can be listed, each with the bytes of all files below it; a directory
    that cannot be listed has no entry. *)
Theorem scan_records_listed_directories
    (d : node) (root : string) (self : generator) (p : string) (z : Z) :
  well_named d = true ->
  scan_directory_sizes d root (DirectorySVGGenerator root) = Py.Ok self ->
  dir_sizes self !! p = Some z <->
  exists entries parent_id,
    (Dir (Py.Ok entries), p, parent_id) ∈ dirs_under d root None /\
    z = total_bytes (Dir (Py.Ok entries)).
Proof.
  intros Hwf Hscan.
  destruct (scan_lookup d root self Hscan) as [Hinv Hlook].
  specialize (Hlook Hwf). split.
  - intros Hp. apply Hinv in Hp. rewrite (scanned_dirs_under d root None) in Hp.
    apply elem_of_flat_map in Hp as ([[sub' p'] par'] & Hin' & Hrec).
    unfold recorded in Hrec. cbn [fst snd] in Hrec.
    destruct sub' as [st|[entries|e]]; try (inversion Hrec; fail).
    apply list_elem_of_singleton in Hrec. injection Hrec as -> ->.
    exists entries, par'. auto.
  - intros (entries & par & Hin & ->). apply Hlook.
    rewrite (scanned_dirs_under d root None). apply elem_of_flat_map.
    eexists. split; [exact Hin|]. left.
Qed.

Lemma scan_records_listed_directories_witness :
  let self := record_all (scanned sample_dir "/r") (DirectorySVGGenerator "/r") in
  well_named sample_dir = true /\
  scan_directory_sizes sample_dir "/r" (DirectorySVGGenerator "/r") = Py.Ok self /\
  (dir_sizes self !! "/r/sub" = Some 2055 <->
   exists entries parent_id,
     (Dir (Py.Ok entries), "/r/sub", parent_id) ∈ dirs_under sample_dir "/r" None /\
     2055 = total_bytes (Dir (Py.Ok entries))).
Proof.
  intros self.
  assert (Hwf : well_named sample_dir = true) by (vm_compute; reflexivity).
  assert (Hscan : scan_directory_sizes sample_dir "/r" (DirectorySVGGenerator "/r")
                  = Py.Ok self) by (vm_compute; reflexivity).
  split; [exact Hwf|]. split; [exact Hscan|].
  exact (scan_records_listed_directories sample_dir "/r" self "/r/sub" 2055
           Hwf Hscan).
Defined.

(** X7: in the mapping built from a tree whose entry names are distinct,
    non-empty and without separator, every node stands for a visited
    directory at the node's path, with the node's parent; its size is the
    number of bytes of all files below that directory, which is 0 for a
    directory that cannot be listed. *)
Theorem node_size_is_total_bytes
    (d : node) (root : string) (m : gmap string Node.t)
    (id : string) (n : Node.t) :
  well_named d = true ->
  scan_and_build d root = Py.Ok m ->
  m !! id = Some n ->
  exists sub,
    (sub, Node.path n, Node.parent n) ∈ dirs_under d root None /\
    Node.size n = total_bytes sub.
Proof.
  intros Hwf Hrun Hn.
  destruct (scan_and_build_inv d root m Hrun)
    as (self & self' & new & Hscan & Hbuild & -> & Hh & Ht & Hext & Hnew).
  destruct (tree_data_created self self' new Hh Ht Hext) as [Hin _].
  destruct (Hin id n Hn) as [Hmem _].
  rewrite Hnew in Hmem.
  apply list_elem_of_fmap in Hmem as ([[sub p] par] & -> & Hmem).
  exists sub. cbn [expected_node Node.path Node.parent Node.size].
  split; [exact Hmem|].
  eapply recorded_size; eassumption.
Qed.

Lemma node_size_is_total_bytes_witness :
  well_named scenario_root = true /\
  scan_and_build scenario_root "/r" = Py.Ok scenario_tree /\
  scenario_tree !! _generate_id "/r/A" <> None /\
  forall n, scenario_tree !! _generate_id "/r/A" = Some n ->
    exists sub,
      (sub, Node.path n, Node.parent n) ∈ dirs_under scenario_root "/r" None /\
      Node.size n = total_bytes sub.
Proof.
  assert (Hwf : well_named scenario_root = true) by (vm_compute; reflexivity).
  assert (Hm : scan_and_build scenario_root "/r" = Py.Ok scenario_tree)
    by (vm_compute; reflexivity).
  split; [exact Hwf|]. split; [exact Hm|]. split; [vm_compute; discriminate|].
  intros n Hn.
  exact (node_size_is_total_bytes scenario_root "/r" scenario_tree _ n Hwf Hm Hn).
Defined.

(** ** The bounds of the ramp *)

Lemma observe_size_brackets (c : ramp) (zs : list Z) (z : Z) :
  brackets c zs -> brackets (observe_size z c) (zs ++ [z]).
Proof.
  intros (H1 & Hle & Hmax & Hmin).
  assert (Hz : z ∈ zs ++ [z]) by (apply elem_of_app; right; left).
  assert (Hold : forall w, w ∈ zs -> w ∈ zs ++ [z])
    by (intros w Hw; apply elem_of_app; left; exact Hw).
  assert (Hcase : forall w, w ∈ zs ++ [z] -> w ∈ zs \/ w = z).
  { intros w Hw. apply elem_of_app in Hw as [Hw|Hw]; [left; exact Hw|].
    apply list_elem_of_singleton in Hw. right. exact Hw. }
  unfold brackets, observe_size. cbn [max_dir_size min_dir_size].
  split; [lia|]. split.
  { intros w Hw. destruct (Hcase w Hw) as [Hw'| ->];
      [specialize (Hle w Hw')|]; lia. }
  split.
  { destruct (Z.max_spec (max_dir_size c) z) as [[Hlt ->]|[Hge ->]].
    - right. exact Hz.
    - destruct Hmax as [->|Hin]; [left; reflexivity|right; auto]. }
  destruct (0 <? z) eqn:Hpos;
    [apply Z.ltb_lt in Hpos|apply Z.ltb_ge in Hpos];
    destruct (min_dir_size c) as [|lo].
  - split; [exact Hpos|]. split; [exact Hz|].
    intros w Hw Hw0. destruct (Hcase w Hw) as [Hw'| ->]; [|lia].
    specialize (Hmin w Hw'). lia.
  - destruct Hmin as (Hlo & Hin & Hall). split; [lia|]. split.
    + destruct (Z.min_spec lo z) as [[_ ->]|[_ ->]]; auto.
    + intros w Hw Hw0. destruct (Hcase w Hw) as [Hw'| ->]; [|lia].
      specialize (Hall w Hw' Hw0). lia.
  - intros w Hw. destruct (Hcase w Hw) as [Hw'| ->]; [auto|lia].
  - destruct Hmin as (Hlo & Hin & Hall). split; [exact Hlo|]. split; [auto|].
    intros w Hw Hw0. destruct (Hcase w Hw) as [Hw'| ->]; [auto|lia].
Qed.

Lemma observe_all_brackets (zs : list Z) :
  forall c seen, brackets c seen -> brackets (observe_all zs c) (seen ++ zs).
Proof.
  induction zs as [|z zs IH]; intros c seen H.
  - rewrite app_nil_r. exact H.
  - change (observe_all (z :: zs) c) with (observe_all zs (observe_size z c)).
    rewrite (cons_middle z seen zs), app_assoc. apply IH.
    apply observe_size_brackets. exact H.
Qed.

Lemma observe_all_colors (zs : list Z) :
  forall c,
    min_color (observe_all zs c) = min_color c /\
    mid_color (observe_all zs c) = mid_color c /\
    max_color (observe_all zs c) = max_color c.
Proof.
  induction zs as [|z zs IH]; intros c; [auto|].
  change (observe_all (z :: zs) c) with (observe_all zs (observe_size z c)).
  destruct (IH (observe_size z c)) as (-> & -> & ->). auto.
Qed.

Lemma scan_colors (d : node) (root : string) (self : generator) :
  scan_directory_sizes d root (DirectorySVGGenerator root) = Py.Ok self ->
  colors self = observe_all (map snd (scanned d root)) (default_ramp Inf 1).
Proof.
  intros Hscan. apply scan_directory_sizes_records in Hscan. subst self.
  apply record_all_fields.
Qed.

Lemma scan_brackets (d : node) (root : string) (self : generator) :
  scan_directory_sizes d root (DirectorySVGGenerator root) = Py.Ok self ->
  brackets (colors self) (map snd (scanned d root)).
Proof.
  intros Hscan. rewrite (scan_colors d root self Hscan).
  apply (observe_all_brackets _ _ []).
  unfold brackets, default_ramp. cbn [max_dir_size min_dir_size].
  split; [lia|]. split; [intros z Hz; inversion Hz|].
  split; [left; reflexivity|]. intros z Hz. inversion Hz.
Qed.

Lemma scanned_sizes (d : node) (root : string) (self : generator) :
  scan_directory_sizes d root (DirectorySVGGenerator root) = Py.Ok self ->
  (forall p z, dir_sizes self !! p = Some z -> z ∈ map snd (scanned d root)) /\
  (well_named d = true ->
   forall z, z ∈ map snd (scanned d root) ->
             exists p, dir_sizes self !! p = Some z).
Proof.
  intros Hscan. destruct (scan_lookup d root self Hscan) as [Hinv Hlook].
  split.
  - intros p z Hp. apply list_elem_of_fmap. exists (p, z). auto.
  - intros Hwf z Hz. apply list_elem_of_fmap in Hz as ([p z'] & -> & Hin).
    exists p. apply Hlook; assumption.
Qed.

(** X8: after a scan from a new generator, the bounds of the colour ramp
    bracket the recorded sizes: max_dir_size is at least 1 and at least
    every recorded size, and it is 1 or a recorded size; min_dir_size is
    still infinite exactly when no recorded size is positive, and otherwise
    it is the smallest positive recorded size. *)
Theorem scan_bounds_bracket_recorded_sizes
    (d : node) (root : string) (self : generator) :
  well_named d = true ->
  scan_directory_sizes d root (DirectorySVGGenerator root) = Py.Ok self ->
  1 <= max_dir_size (colors self) /\
  (forall p z, dir_sizes self !! p = Some z -> z <= max_dir_size (colors self)) /\
  (max_dir_size (colors self) = 1 \/
   exists p, dir_sizes self !! p = Some (max_dir_size (colors self))) /\
  match min_dir_size (colors self) with
  | Inf => forall p z, dir_sizes self !! p = Some z -> z <= 0
  | Fin lo =>
      0 < lo /\ (exists p, dir_sizes self !! p = Some lo) /\
      forall p z, dir_sizes self !! p = Some z -> 0 < z -> lo <= z
  end.
Proof.
  intros Hwf Hscan.
  destruct (scanned_sizes d root self Hscan) as [Hin Hex].
  specialize (Hex Hwf).
  destruct (scan_brackets d root self Hscan) as (H1 & Hle & Hmax & Hmin).
  split; [exact H1|]. split; [intros p z Hp; eauto|].
  split; [destruct Hmax; auto|].
  destruct (min_dir_size (colors self)) as [|lo].
  - intros p z Hp. eauto.
  - destruct Hmin as (Hlo & Hlo_in & Hall). split; [exact Hlo|].
    split; [auto|]. intros p z Hp. eauto.
Qed.

Lemma scan_bounds_bracket_recorded_sizes_witness :
  let self := record_all (scanned sample_dir "/r") (DirectorySVGGenerator "/r") in
  well_named sample_dir = true /\
  scan_directory_sizes sample_dir "/r" (DirectorySVGGenerator "/r") = Py.Ok self /\
  max_dir_size (colors self) = 2155 /\
  min_dir_size (colors self) = Fin 7 /\
  (forall p z, dir_sizes self !! p = Some z -> z <= max_dir_size (colors self)).
Proof.
  intros self.
  assert (Hwf : well_named sample_dir = true) by (vm_compute; reflexivity).
  assert (Hscan : scan_directory_sizes sample_dir "/r" (DirectorySVGGenerator "/r")
                  = Py.Ok self) by (vm_compute; reflexivity).
  split; [exact Hwf|]. split; [exact Hscan|].
  split; [vm_compute; reflexivity|]. split; [vm_compute; reflexivity|].
  exact (proj1 (proj2 (scan_bounds_bracket_recorded_sizes sample_dir "/r" self
                         Hwf Hscan))).
Defined.

(** X9: after a scan from a new generator the ramp is degenerate, so that
    every size gets the mid colour, exactly when all positive recorded
    sizes are equal (in particular when there is none). *)
Theorem ramp_degenerate_iff_equal_sizes
    (d : node) (root : string) (self : generator) :
  well_named d = true ->
  scan_directory_sizes d root (DirectorySVGGenerator root) = Py.Ok self ->
  degenerate (colors self) = true <->
  (forall p1 z1 p2 z2,
      dir_sizes self !! p1 = Some z1 -> dir_sizes self !! p2 = Some z2 ->
      0 < z1 -> 0 < z2 -> z1 = z2).
Proof.
  intros Hwf Hscan.
  destruct (scanned_sizes d root self Hscan) as [Hin Hex].
  specialize (Hex Hwf).
  destruct (scan_brackets d root self Hscan) as (H1 & Hle & Hmax & Hmin).
  unfold degenerate. destruct (min_dir_size (colors self)) as [|lo].
  - split; [|reflexivity]. intros _ p1 z1 p2 z2 Hp1 Hp2 Hz1 Hz2.
    specialize (Hmin z1 (Hin _ _ Hp1)). lia.
  - destruct Hmin as (Hlo & Hlo_in & Hall). rewrite Z.leb_le. split.
    + intros Hdeg p1 z1 p2 z2 Hp1 Hp2 Hz1 Hz2.
      pose proof (Hle z1 (Hin _ _ Hp1)). pose proof (Hle z2 (Hin _ _ Hp2)).
      pose proof (Hall z1 (Hin _ _ Hp1) Hz1).
      pose proof (Hall z2 (Hin _ _ Hp2) Hz2). lia.
    + intros Heq. destruct Hmax as [->|Hmax_in]; [lia|].
      destruct (Hex _ Hlo_in) as (p1 & Hp1).
      destruct (Hex _ Hmax_in) as (p2 & Hp2).
      pose proof (Heq _ _ _ _ Hp1 Hp2 Hlo ltac:(lia)). lia.
Qed.

Lemma ramp_degenerate_iff_equal_sizes_witness :
  let self := record_all (scanned scenario_root "/r") (DirectorySVGGenerator "/r") in
  well_named scenario_root = true /\
  scan_directory_sizes scenario_root "/r" (DirectorySVGGenerator "/r") = Py.Ok self /\
  degenerate (colors self) = true /\
  (forall p1 z1 p2 z2,
      dir_sizes self !! p1 = Some z1 -> dir_sizes self !! p2 = Some z2 ->
      0 < z1 -> 0 < z2 -> z1 = z2).
Proof.
  intros self.
  assert (Hwf : well_named scenario_root = true) by (vm_compute; reflexivity).
  assert (Hscan : scan_directory_sizes scenario_root "/r" (DirectorySVGGenerator "/r")
                  = Py.Ok self) by (vm_compute; reflexivity).
  assert (Hdeg : degenerate (colors self) = true) by (vm_compute; reflexivity).
  split; [exact Hwf|]. split; [exact Hscan|]. split; [exact Hdeg|].
  exact (proj1 (ramp_degenerate_iff_equal_sizes scenario_root "/r" self Hwf Hscan)
           Hdeg).
Defined.

(** ** Where the page is written *)

Lemma endswith_inv (s suffix : string) :
  endswith s suffix = true -> exists stem, s = stem +:+ suffix.
Proof.
  induction s as [|c s IH]; cbn [endswith]; intros H.
  - rewrite orb_false_r in H. apply String.eqb_eq in H. subst suffix.
    exists "". reflexivity.
  - apply orb_true_iff in H as [H|H].
    + apply String.eqb_eq in H. subst suffix. exists "". reflexivity.
    + destruct (IH H) as [stem ->]. exists (String c stem). reflexivity.
Qed.

Lemma endswith_length (s suffix : string) :
  endswith s suffix = true -> (String.length suffix <= String.length s)%nat.
Proof.
  intros H. destruct (endswith_inv s suffix H) as [stem ->].
  rewrite ScaffolderFacts.length_app. lia.
Qed.

Lemma endswith_refl (s : string) : endswith s s = true.
Proof. destruct s; cbn [endswith]; rewrite String.eqb_refl; reflexivity. Qed.

Lemma endswith_app (a b : string) : endswith (a +:+ b) b = true.
Proof.
  induction a as [|c a IH]; [apply endswith_refl|].
  rewrite app_cons. cbn [endswith]. rewrite IH. apply orb_true_r.
Qed.

Lemma endswith_longer (a b suffix : string) :
  (String.length suffix <= String.length b)%nat ->
  endswith (a +:+ b) suffix = endswith b suffix.
Proof.
  intros Hlen. induction a as [|c a IH]; [reflexivity|].
  rewrite app_cons. cbn [endswith]. rewrite IH.
  destruct (String.eqb_spec (String c (a +:+ b)) suffix) as [Heq|_];
    [|reflexivity].
  apply (f_equal String.length) in Heq. cbn [String.length] in Heq.
  rewrite ScaffolderFacts.length_app in Heq. lia.
Qed.

Lemma has_sep_app (a b : string) :
  OsPath.has_sep (a +:+ "/" +:+ b) = true.
Proof.
  induction a as [|c a IH]; [reflexivity|].
  rewrite app_cons. cbn [OsPath.has_sep]. rewrite IH. apply orb_true_r.
Qed.

Lemma endswith_across (a b suffix : string) :
  (String.length b < String.length suffix)%nat ->
  endswith (a +:+ "/" +:+ b) suffix = true ->
  OsPath.has_sep suffix = true.
Proof.
  intros Hlen. induction a as [|c a IH]; intros H.
  - change ("" +:+ "/" +:+ b) with (String "/" b) in H. cbn [endswith] in H.
    apply orb_true_iff in H as [H|H].
    + apply String.eqb_eq in H. subst suffix. reflexivity.
    + apply endswith_length in H. lia.
  - rewrite app_cons in H. cbn [endswith] in H.
    apply orb_true_iff in H as [H|H]; [|exact (IH H)].
    apply String.eqb_eq in H. subst suffix.
    rewrite <- app_cons. apply has_sep_app.
Qed.

Lemma endswith_sep_inv (s : string) :
  OsPath.endswith_sep s = true -> exists r, s = r +:+ "/".
Proof.
  induction s as [|c s IH]; [discriminate|].
  cbn [OsPath.endswith_sep]. destruct s as [|c' s].
  - intros H. unfold OsPath.is_sep in H. apply Ascii.eqb_eq in H. subst c.
    exists "". reflexivity.
  - intros H. destruct (IH H) as [r Hr]. exists (String c r).
    rewrite app_cons, <- Hr. reflexivity.
Qed.

Lemma substring_stem (a b : string) :
  substring 0 (String.length a) (a +:+ b) = a.
Proof.
  induction a as [|c a IH].
  - destruct b; reflexivity.
  - rewrite app_cons. cbn [String.length substring]. rewrite IH. reflexivity.
Qed.

Lemma drop_suffix (stem : string) :
  substring 0 (String.length (stem +:+ ".svg") - 4) (stem +:+ ".svg") = stem.
Proof.
  rewrite ScaffolderFacts.length_app. cbn [String.length].
  replace (String.length stem + 4 - 4)%nat with (String.length stem) by lia.
  apply substring_stem.
Qed.

Lemma join_not_svg (root_dir output_path : string) :
  OsPath.startswith_sep output_path = false ->
  endswith output_path ".svg" = false ->
  endswith (OsPath.join root_dir output_path) ".svg" = false.
Proof.
  intros Hrel Hout. rewrite (join_base _ _ Hrel).
  destruct (le_lt_dec 4 (String.length output_path)) as [Hlen|Hlen].
  - rewrite endswith_longer by exact Hlen. exact Hout.
  - destruct (endswith (base root_dir +:+ output_path) ".svg") eqn:H;
      [|reflexivity].
    exfalso. unfold base in H.
    destruct (String.eqb_spec root_dir "") as [->|Hne]; cbn [orb] in H.
    + change ("" +:+ output_path) with output_path in H. congruence.
    + destruct (OsPath.endswith_sep root_dir) eqn:Hsep.
      * destruct (endswith_sep_inv _ Hsep) as [r ->].
        rewrite app_assoc_str in H.
        apply endswith_across in H; [discriminate|exact Hlen].
      * rewrite app_assoc_str in H.
        apply endswith_across in H; [discriminate|exact Hlen].
Qed.

(** X18: the page is never written to a path that ends in ".svg": such an
    ending is replaced by ".html", and any other path is kept; a relative
    path is taken below the root directory, so the path is absolute when
    the root directory is. *)
Theorem output_file_is_no_svg (root_dir output_path : string) :
  endswith (output_file root_dir output_path) ".svg" = false /\
  (isabs root_dir = true -> isabs (output_file root_dir output_path) = true) /\
  (forall stem,
      output_path = stem +:+ ".svg" ->
      output_file root_dir output_path
      = (if isabs stem then stem else OsPath.join root_dir stem) +:+ ".html") /\
  (endswith output_path ".svg" = false ->
   output_file root_dir output_path
   = if isabs output_path then output_path
     else OsPath.join root_dir output_path).
Proof.
  assert (Hhtml : forall stem, endswith (stem +:+ ".html") ".svg" = false).
  { intros stem. rewrite endswith_longer by (cbn; lia). reflexivity. }
  unfold output_file.
  set (p := if negb (isabs output_path)
            then OsPath.join root_dir output_path else output_path).
  split; [|split; [|split]].
  - destruct (endswith p ".svg") eqn:H; [apply Hhtml|exact H].
  - intros Hroot.
    assert (Hp : isabs p = true).
    { unfold p, isabs in *. destruct (OsPath.startswith_sep output_path) eqn:Ho;
        cbn [negb]; [exact Ho|].
      rewrite (join_base _ _ Ho). unfold base.
      destruct root_dir as [|c r]; [discriminate|].
      destruct (_ || _); rewrite !app_cons; exact Hroot. }
    destruct (endswith p ".svg") eqn:H; [|exact Hp].
    destruct (endswith_inv _ _ H) as [stem Hstem]. rewrite Hstem, drop_suffix.
    rewrite Hstem in Hp. unfold isabs in *.
    destruct stem as [|c stem]; [discriminate|].
    rewrite !app_cons in *. exact Hp.
  - intros stem ->.
    assert (Hp : p = (if isabs stem then stem else OsPath.join root_dir stem)
                     +:+ ".svg").
    { unfold p, isabs. destruct stem as [|c stem].
      - change ("" +:+ ".svg") with ".svg".
        change (OsPath.startswith_sep ".svg") with false.
        change (OsPath.startswith_sep "") with false. cbn [negb].
        rewrite !join_base by reflexivity. rewrite app_nil_str. reflexivity.
      - rewrite app_cons. cbn [OsPath.startswith_sep].
        destruct (OsPath.is_sep c) eqn:Hc; cbn [negb]; [reflexivity|].
        rewrite !join_base by (cbn [OsPath.startswith_sep]; exact Hc).
        rewrite <- app_cons, app_assoc_str. reflexivity. }
    rewrite Hp, endswith_app, drop_suffix. reflexivity.
  - intros Hout. unfold p, isabs.
    destruct (OsPath.startswith_sep output_path) eqn:Ho; cbn [negb].
    + rewrite Hout. reflexivity.
    + rewrite (join_not_svg _ _ Ho Hout). reflexivity.
Qed.

Lemma output_file_is_no_svg_witness :
  isabs "/home/me/game" = true /\
  "tree.svg" = "tree" +:+ ".svg" /\
  output_file "/home/me/game" "tree.svg" = "/home/me/game/tree.html" /\
  isabs (output_file "/home/me/game" "tree.svg") = true.
Proof.
  split; [reflexivity|]. split; [reflexivity|].
  destruct (output_file_is_no_svg "/home/me/game" "tree.svg")
    as (_ & Habs & Hsvg & _).
  split; [exact (Hsvg "tree" eq_refl)|exact (Habs eq_refl)].
Defined.

(** ** When the scan returns *)

Lemma add_file_sizes_ok (files : list (string * stat)) :
  forall (total_size r : Z),
    Py.for_each add_file_size files total_size = Py.Ok r ->
    Forall (fun f => stat_skipped (snd f) = true) files.
Proof.
  induction files as [|[name st] files IH]; intros total_size r H;
    [constructor|].
  cbn [Py.for_each] in H. unfold add_file_size at 1 in H. cbn [snd] in H.
  destruct st as [n|[]]; cbn [Py.bind] in H; try discriminate;
    (constructor; [reflexivity|eapply IH; exact H]).
Qed.

Lemma files_below_cons (name : string) (sub : node)
    (entries : list (string * node)) :
  files_below (Dir (Py.Ok ((name, sub) :: entries)))
  = match sub with File st => [st] | Dir _ => files_below sub end
    ++ files_below (Dir (Py.Ok entries)).
Proof. reflexivity. Qed.

Lemma walk_ok (d : node) :
  forall (top : string) (total_size r : Z),
    Py.for_each
      (fun total_size '(dirpath, _, filenames) =>
         Py.for_each add_file_size filenames total_size)
      (os_walk d top) total_size = Py.Ok r ->
    Forall (fun st => stat_skipped st = true) (files_below d).
Proof.
  induction d as [st|e|entries IH] using node_induction;
    intros top total_size r H; try (constructor; fail).
  cbn [os_walk Py.for_each] in H.
  destruct (Py.for_each add_file_size (nondirs entries) total_size)
    as [r1|] eqn:Hown; [|discriminate].
  cbn [Py.bind] in H. apply add_file_sizes_ok in Hown.
  revert r1 H Hown. unfold nondirs.
  induction IH as [|[name sub] entries IHsub _ IHentries]; intros r1 H Hown;
    [constructor|].
  rewrite files_below_cons. cbn [flat_map fst snd] in H, Hown.
  destruct sub as [st|listing]; cbn [is_dir app] in *.
  - apply Forall_cons in Hown as [Hst Hown]. constructor; [exact Hst|].
    eapply IHentries; eassumption.
  - rewrite for_each_app in H.
    destruct (Py.for_each _ (os_walk (Dir listing) _) r1) as [r2|] eqn:Hsub;
      [|discriminate].
    cbn [Py.bind] in H. apply Forall_app. split.
    + eapply IHsub. exact Hsub.
    + eapply IHentries; eassumption.
Qed.

Lemma calculate_dir_size_ok (d : node) (directory : string) (n : Z) :
  calculate_dir_size d directory = Py.Ok n ->
  Forall (fun st => stat_skipped st = true) (files_below d).
Proof.
  unfold calculate_dir_size. intros H.
  pose proof (walk_total_inv d directory 0) as Hinv.
  destruct (Py.for_each _ (os_walk d directory) 0) as [r|e] eqn:Hwalk.
  - eapply walk_ok. exact Hwalk.
  - destruct Hinv as [H1 H2]. destruct e; try discriminate; contradiction.
Qed.

Lemma forallb_Forall {A} (f : A -> bool) (l : list A) :
  forallb f l = true <-> Forall (fun x => f x = true) l.
Proof.
  induction l as [|x l IH]; cbn [forallb].
  - split; [constructor|reflexivity].
  - rewrite andb_true_iff, IH. split.
    + intros [Hx Hl]. constructor; assumption.
    + intros H. apply Forall_cons in H. exact H.
Qed.

(** When the scan of the model returns. *)
Lemma scan_ok_iff (d : node) :
  forall (directory : string) (self : generator),
    (exists self', scan_directory_sizes d directory self = Py.Ok self')
    <-> scan_ok d = true.
Proof.
  induction d as [st|e|entries IH] using node_induction;
    intros directory self.
  - cbn. split; [intros [self' H]; discriminate|discriminate].
  - cbn. destruct e; cbn; split; try discriminate; eauto;
      intros [self' H]; discriminate.
  - cbn [scan_directory_sizes scan_ok]. unfold mbind, result_bind.
    rewrite andb_true_iff, forallb_Forall.
    destruct (calculate_dir_size (Dir (Py.Ok entries)) directory)
      as [dir_size|e] eqn:Hsize; cbn [Py.bind].
    + pose proof (calculate_dir_size_ok _ _ _ Hsize) as Hstat.
      assert (Hloop : forall self1,
                 (exists self',
                     Py.for_each
                       (fun self e =>
                          if is_dir (snd e)
                          then scan_directory_sizes (snd e)
                                 (OsPath.join directory (fst e)) self
                          else Py.Ok self)
                       entries self1 = Py.Ok self')
                 <-> forallb (fun e => if is_dir (snd e) then scan_ok (snd e)
                                       else true) entries = true).
      { clear Hsize Hstat.
        induction IH as [|[name sub] entries IHsub _ IHentries]; intros self1.
        - cbn. split; eauto.
        - cbn [Py.for_each forallb fst snd]. rewrite andb_true_iff.
          destruct (is_dir sub) eqn:Hdir.
          + specialize (IHsub (OsPath.join directory name) self1).
            cbn [snd] in IHsub. rewrite <- IHsub. split.
            * intros [self' H].
              destruct (scan_directory_sizes sub _ self1) as [self2|] eqn:Hs;
                [|discriminate].
              cbn [Py.bind] in H. split; [eauto|].
              apply (IHentries self2). eauto.
            * intros ([self2 Hs] & Hall). rewrite Hs. cbn [Py.bind].
              apply IHentries. exact Hall.
          + cbn [Py.bind]. rewrite IHentries. tauto. }
      rewrite Hloop. tauto.
    + split; [intros [self' H]; discriminate|]. intros [Hstat _]. exfalso.
      unfold calculate_dir_size in Hsize.
      rewrite (walk_adds_total_bytes _ directory 0 Hstat) in Hsize.
      discriminate.
Qed.

(** X19: [scan_directory_sizes] returns only when nothing fails with an
    error that it does not catch: its directory is one (a failure of its
    own listing with [PermissionError] or [FileNotFoundError] included), no
    [getsize] of a file below it fails with another error than these two,
    and no listing of a directory below it does.  When one of these fails,
    the scan raises. *)
Theorem scan_returns_only_when_nothing_else_fails
    (d : node) (directory : string) (self : generator) :
  (forall self',
      scan_directory_sizes d directory self = Py.Ok self' ->
      scan_ok d = true) /\
  (scan_ok d = false ->
   exists e, scan_directory_sizes d directory self = Py.Raise e).
Proof.
  split.
  - intros self' H. eapply scan_ok_iff. eauto.
  - intros Hnot.
    destruct (scan_directory_sizes d directory self) as [self'|e] eqn:H;
      [|eauto].
    assert (Hok : scan_ok d = true) by (eapply scan_ok_iff; eauto).
    congruence.
Qed.

Lemma scan_returns_only_when_nothing_else_fails_witness :
  let self := record_all (scanned sample_dir "/r") (DirectorySVGGenerator "/r") in
  scan_directory_sizes sample_dir "/r" (DirectorySVGGenerator "/r") = Py.Ok self /\
  scan_ok sample_dir = true /\
  scan_ok (Dir (Py.Ok [("broken", Dir (Py.Raise Py.OSError))])) = false /\
  exists e,
    scan_directory_sizes (Dir (Py.Ok [("broken", Dir (Py.Raise Py.OSError))]))
                         "/r" (DirectorySVGGenerator "/r")
    = Py.Raise e.
Proof.
  intros self.
  assert (Hscan : scan_directory_sizes sample_dir "/r" (DirectorySVGGenerator "/r")
                  = Py.Ok self) by (vm_compute; reflexivity).
  split; [exact Hscan|].
  split; [exact (proj1 (scan_returns_only_when_nothing_else_fails
                          sample_dir "/r" (DirectorySVGGenerator "/r"))
                       self Hscan)|].
  split; [reflexivity|].
  exact (proj2 (scan_returns_only_when_nothing_else_fails
                  (Dir (Py.Ok [("broken", Dir (Py.Raise Py.OSError))]))
                  "/r" (DirectorySVGGenerator "/r")) eq_refl).
Defined.

(** ** The order of the listings *)

Lemma flat_map_perm {A B} (f : A -> list B) (l1 l2 : list A) :
  l1 ≡ₚ l2 -> flat_map f l1 ≡ₚ flat_map f l2.
Proof.
  induction 1 as [|x l1 l2 _ IH|x y l|l1 l2 l3 _ IH1 _ IH2]; cbn [flat_map].
  - reflexivity.
  - rewrite IH. reflexivity.
  - rewrite !app_assoc. apply Permutation_app_tail, Permutation_app_comm.
  - etransitivity; eassumption.
Qed.

Lemma flat_map_related {A B} (R : A -> A -> Prop) (f : A -> list B)
    (l1 l2 : list A) :
  Forall2 R l1 l2 ->
  Forall (fun a => forall b, R a b -> f a ≡ₚ f b) l1 ->
  flat_map f l1 ≡ₚ flat_map f l2.
Proof.
  induction 1 as [|a b l1 l2 Hab _ IH]; intros Hall; [reflexivity|].
  apply Forall_cons in Hall as [Ha Hall]. cbn [flat_map].
  rewrite (Ha b Hab), (IH Hall). reflexivity.
Qed.

Lemma Forall_related {A} (R : A -> A -> Prop) (P : A -> Prop)
    (l1 l2 : list A) :
  Forall2 R l1 l2 ->
  Forall (fun a => forall b, R a b -> P a -> P b) l1 ->
  Forall P l1 -> Forall P l2.
Proof.
  induction 1 as [|a b l1 l2 Hab _ IH]; intros Hall HP; [constructor|].
  apply Forall_cons in Hall as [Ha Hall]. apply Forall_cons in HP as [Hpa HP].
  constructor; auto.
Qed.

Lemma sum_perm (l1 l2 : list Z) :
  l1 ≡ₚ l2 -> foldr Z.add 0 l1 = foldr Z.add 0 l2.
Proof. induction 1; cbn [foldr]; lia. Qed.

Lemma same_tree_is_dir (a b : node) : same_tree a b -> is_dir a = is_dir b.
Proof. destruct 1; reflexivity. Qed.

Lemma same_tree_refl (d : node) : same_tree d d.
Proof.
  induction d as [st|e|entries IH] using node_induction; try constructor.
  apply (same_listed entries entries entries); [|reflexivity].
  induction IH as [|x l Hx _ IHl]; constructor; auto.
Qed.

Lemma same_tree_files (d1 : node) :
  forall d2, same_tree d1 d2 -> files_below d1 ≡ₚ files_below d2.
Proof.
  induction d1 as [st|e|l1 IH] using node_induction; intros d2 Hsame;
    inversion Hsame as [| |? l l2 Hrel Hperm]; subst; try reflexivity.
  cbn [files_below]. etransitivity; [|apply flat_map_perm; exact Hperm].
  eapply flat_map_related; [exact Hrel|].
  eapply Forall_impl; [exact IH|]. cbn beta.
  intros [n1 sub1] IHsub [n2 sub2] [_ Hsub]. cbn [fst snd] in *.
  inversion Hsub; subst; try reflexivity. apply IHsub. exact Hsub.
Qed.

Lemma same_tree_total_bytes (d1 d2 : node) :
  same_tree d1 d2 -> total_bytes d1 = total_bytes d2.
Proof.
  intros Hsame. unfold total_bytes. apply sum_perm, fmap_Permutation.
  apply same_tree_files. exact Hsame.
Qed.

Lemma same_tree_scanned (d1 : node) :
  forall d2 directory,
    same_tree d1 d2 -> scanned d1 directory ≡ₚ scanned d2 directory.
Proof.
  induction d1 as [st|e|l1 IH] using node_induction; intros d2 directory Hsame;
    inversion Hsame as [| |? l l2 Hrel Hperm]; subst; try reflexivity.
  cbn [scanned]. rewrite (same_tree_total_bytes _ _ Hsame).
  apply Permutation_cons; [reflexivity|].
  etransitivity; [|apply flat_map_perm; exact Hperm].
  eapply flat_map_related; [exact Hrel|].
  eapply Forall_impl; [exact IH|]. cbn beta.
  intros [n1 sub1] IHsub [n2 sub2] [Hn Hsub]. cbn [fst snd] in *. subst n2.
  rewrite (same_tree_is_dir _ _ Hsub).
  destruct (is_dir sub2); [|reflexivity]. apply IHsub. exact Hsub.
Qed.

Lemma same_tree_scan_ok (d1 : node) :
  forall d2, same_tree d1 d2 -> scan_ok d1 = true -> scan_ok d2 = true.
Proof.
  induction d1 as [st|e|l1 IH] using node_induction; intros d2 Hsame;
    inversion Hsame as [| |? l l2 Hrel Hperm]; subst; try (intros H; exact H).
  cbn [scan_ok]. rewrite !andb_true_iff, !forallb_Forall.
  intros [Hstat Hall]. split.
  - rewrite <- (same_tree_files _ _ Hsame). exact Hstat.
  - rewrite <- Hperm. eapply Forall_related; [exact Hrel| |exact Hall].
    eapply Forall_impl; [exact IH|]. cbn beta.
    intros [n1 sub1] IHsub [n2 sub2] [_ Hsub]. cbn [fst snd] in *.
    rewrite (same_tree_is_dir _ _ Hsub).
    destruct (is_dir sub2); [|auto]. apply IHsub. exact Hsub.
Qed.

Lemma filter_perm {A} (f : A -> bool) (l1 l2 : list A) :
  l1 ≡ₚ l2 -> List.filter f l1 ≡ₚ List.filter f l2.
Proof.
  induction 1 as [|x l1 l2 _ IH|x y l|l1 l2 l3 _ IH1 _ IH2]; cbn [List.filter].
  - reflexivity.
  - destruct (f x); rewrite IH; reflexivity.
  - destruct (f x), (f y); try reflexivity. apply perm_swap.
  - etransitivity; eassumption.
Qed.

Lemma elem_of_filter_list {A} (f : A -> bool) (l : list A) (x : A) :
  x ∈ List.filter f l <-> x ∈ l /\ f x = true.
Proof. rewrite !list_elem_of_In. apply filter_In. Qed.

Lemma fold_left_perm {A B} (f : A -> B -> A) (l1 l2 : list B) :
  (forall a x y, f (f a x) y = f (f a y) x) ->
  l1 ≡ₚ l2 -> forall a, fold_left f l1 a = fold_left f l2 a.
Proof.
  intros Hcomm.
  induction 1 as [|x l1 l2 _ IH|x y l|l1 l2 l3 _ IH1 _ IH2]; intros a;
    cbn [fold_left].
  - reflexivity.
  - apply IH.
  - rewrite Hcomm. reflexivity.
  - rewrite IH1. apply IH2.
Qed.

Lemma observe_size_comm (a b : Z) (c : ramp) :
  observe_size a (observe_size b c) = observe_size b (observe_size a c).
Proof.
  unfold observe_size.
  cbn [min_color mid_color max_color min_dir_size max_dir_size]. f_equal.
  - destruct (0 <? a), (0 <? b), (min_dir_size c); try reflexivity;
      f_equal; lia.
  - lia.
Qed.

Lemma observe_all_perm (l1 l2 : list Z) (c : ramp) :
  l1 ≡ₚ l2 -> observe_all l1 c = observe_all l2 c.
Proof.
  intros Hperm. unfold observe_all. apply fold_left_perm; [|exact Hperm].
  intros c' x y. apply observe_size_comm.
Qed.

(** The scan leaves the same generator whatever the order in which it
    records directories with distinct paths. *)
Lemma record_all_perm (l1 l2 : list (string * Z)) (self : generator) :
  l1 ≡ₚ l2 -> NoDup (map fst l1) ->
  record_all l1 self = record_all l2 self.
Proof.
  intros Hperm Hnd.
  assert (Hnd2 : NoDup (map fst l2)) by (rewrite <- Hperm; exact Hnd).
  destruct (record_all_fields l1 self) as (Hr1 & Hh1 & Ht1 & Hc1).
  destruct (record_all_fields l2 self) as (Hr2 & Hh2 & Ht2 & Hc2).
  assert (Hs : dir_sizes (record_all l1 self) = dir_sizes (record_all l2 self)).
  { apply map_eq. intros p.
    destruct (decide (p ∈ map fst l1)) as [Hin|Hnot].
    - apply list_elem_of_fmap in Hin as ([p' z] & -> & Hin). cbn [fst].
      rewrite (record_all_lookup l1 self p' z Hnd Hin).
      rewrite (record_all_lookup l2 self p' z Hnd2); [reflexivity|].
      rewrite <- Hperm. exact Hin.
    - rewrite (record_all_lookup_other l1 self p Hnot).
      rewrite (record_all_lookup_other l2 self p); [reflexivity|].
      rewrite <- Hperm. exact Hnot. }
  rewrite (observe_all_perm _ (map snd l2)) in Hc1
    by (apply fmap_Permutation; exact Hperm).
  destruct (record_all l1 self), (record_all l2 self).
  cbn [root_dir colors dir_sizes heap directory_tree] in *. congruence.
Qed.

Lemma Forall2_of_names {A B} (R : string * A -> string * B -> Prop)
    (l1 : list (string * A)) :
  forall l2 : list (string * B),
    map fst l1 = map fst l2 ->
    (forall a b, a ∈ l1 -> b ∈ l2 -> fst a = fst b -> R a b) ->
    Forall2 R l1 l2.
Proof.
  induction l1 as [|a l1 IH]; intros [|b l2] Hnames HR; try discriminate;
    [constructor|].
  cbn [map] in Hnames. injection Hnames as Hab Hnames. constructor.
  - apply HR; [left|left|exact Hab].
  - apply IH; [exact Hnames|]. intros a' b' Ha' Hb'. apply HR; right; assumption.
Qed.

Lemma for_each_related {S A B} (R : A -> B -> Prop)
    (f : S -> A -> Py.result S) (g : S -> B -> Py.result S)
    (l1 : list A) (l2 : list B) :
  Forall2 R l1 l2 ->
  (forall s a b, R a b -> f s a = g s b) ->
  forall s, Py.for_each f l1 s = Py.for_each g l2 s.
Proof.
  intros Hrel Hbody. induction Hrel as [|a b l1 l2 Hab _ IH]; intros s;
    cbn [Py.for_each]; [reflexivity|].
  rewrite (Hbody s a b Hab). destruct (g s b); cbn [Py.bind]; auto.
Qed.

Lemma related_dirnames (l1 l : list (string * node)) :
  Forall2 (fun a b => fst a = fst b /\ same_tree (snd a) (snd b)) l1 l ->
  dirnames l1 = dirnames l.
Proof.
  unfold dirnames. induction 1 as [|[n1 s1] [n2 s2] l1 l [Hn Hs] _ IH];
    [reflexivity|].
  cbn [List.filter fst snd] in *. rewrite (same_tree_is_dir _ _ Hs).
  destruct (is_dir s2); cbn [map fst]; congruence.
Qed.

Lemma related_partner (l1 l : list (string * node)) (b : string * node) :
  Forall2 (fun a b => fst a = fst b /\ same_tree (snd a) (snd b)) l1 l ->
  b ∈ l ->
  exists a, a ∈ l1 /\ fst a = fst b /\ same_tree (snd a) (snd b).
Proof.
  induction 1 as [|a b' l1 l Hab _ IH]; intros Hb; [inversion Hb|].
  apply elem_of_cons in Hb as [->|Hb].
  - exists a. split; [left|exact Hab].
  - destruct (IH Hb) as (a' & Ha' & Hrel). exists a'. split; [right|]; auto.
Qed.

(** The builder does the same on two views of one tree: it goes through
    the sub-directories in the order of their names. *)
Lemma build_same_tree (d1 : node) :
  forall d2,
    same_tree d1 d2 -> well_named d1 = true ->
    forall directory parent_id self,
      build_directory_tree d1 directory parent_id self
      = build_directory_tree d2 directory parent_id self.
Proof.
  induction d1 as [st|e|l1 IH] using node_induction; intros d2 Hsame Hwf;
    inversion Hsame as [| |? l l2 Hrel Hperm]; subst; try reflexivity.
  intros directory parent_id self. rewrite !build_directory_tree_unfold.
  destruct (create_node directory parent_id self) as [[ref self1]|e];
    cbn [Py.bind]; [|reflexivity].
  unfold build_children.
  destruct (well_named_listed _ Hwf) as [Hnames Hall].
  set (dirs := fun l : list (string * node) =>
                 List.filter (fun e => is_dir (snd e)) l).
  set (calls := fun l : list (string * node) =>
                  map (fun e => (fst e, build_directory_tree (snd e))) (dirs l)).
  change (Py.for_each (build_child directory ref (_generate_id directory))
            (sorted_by_name (calls l1)) self1
          = Py.for_each (build_child directory ref (_generate_id directory))
              (sorted_by_name (calls l2)) self1).
  assert (Hcalls : forall l0, map fst (calls l0) = dirnames l0).
  { intros l0. unfold calls, dirs, dirnames. rewrite map_map. reflexivity. }
  apply (for_each_related
           (fun a b : string * call =>
              fst a = fst b /\ forall x y z, snd a x y z = snd b x y z)).
  - apply Forall2_of_names.
    + rewrite !sorted_by_name_names, !Hcalls. apply sorted_listing_order.
      rewrite (related_dirnames _ _ Hrel). unfold dirnames.
      apply fmap_Permutation, filter_perm, Hperm.
    + intros a b Ha Hb Hab. split; [exact Hab|].
      unfold sorted_by_name in Ha, Hb.
      rewrite merge_sort_Permutation in Ha, Hb.
      apply list_elem_of_fmap in Ha as ([n1 sub1] & -> & Ha).
      apply list_elem_of_fmap in Hb as ([n2 sub2] & -> & Hb).
      cbn [fst snd] in *. subst n2.
      apply elem_of_filter_list in Hb as [Hb Hdir2]. cbn [snd] in Hdir2.
      rewrite <- Hperm in Hb.
      destruct (related_partner _ _ _ Hrel Hb) as ([n' sub'] & Hin' & Hn' & Hs').
      cbn [fst snd] in *. subst n'.
      assert (Hin1 : (n1, sub') ∈ dirs l1).
      { apply elem_of_filter_list. split; [exact Hin'|]. cbn [snd].
        rewrite (same_tree_is_dir _ _ Hs'). exact Hdir2. }
      pose proof (NoDup_map_inj_on fst (dirs l1) (n1, sub1) (n1, sub')
                    Hnames Ha Hin1 eq_refl) as Heq.
      injection Heq as ->.
      rewrite Forall_forall in IH, Hall.
      intros x y z. apply (IH _ Hin' _ Hs'). exact (proj2 (Hall _ Hin1)).
  - intros s [n1 c1] [n2 c2] [Hn Hc]. cbn [fst snd] in *. subst n2.
    unfold build_child. rewrite Hc. reflexivity.
Qed.

(** X20: the mapping does not depend on the order in which the file
    system lists the entries of the directories: when the scan and the
    tree builder return a mapping for one order, they return the same
    mapping for every other order.  (Names within a directory are
    distinct and without separator.) *)
Theorem listing_order_does_not_matter
    (d1 d2 : node) (root : string) (m : gmap string Node.t) :
  same_tree d1 d2 ->
  well_named d1 = true ->
  scan_and_build d1 root = Py.Ok m ->
  scan_and_build d2 root = Py.Ok m.
Proof.
  intros Hsame Hwf. unfold scan_and_build, mbind, result_bind.
  destruct (scan_directory_sizes d1 root (DirectorySVGGenerator root))
    as [self1|] eqn:Hscan1; [|discriminate].
  assert (Hok : scan_ok d2 = true).
  { apply (same_tree_scan_ok d1 d2 Hsame). eapply scan_ok_iff. eauto. }
  destruct (proj2 (scan_ok_iff d2 root (DirectorySVGGenerator root)) Hok)
    as [self2 Hscan2].
  rewrite Hscan2.
  apply scan_directory_sizes_records in Hscan1, Hscan2.
  assert (Heq : self1 = self2).
  { subst self1 self2. apply record_all_perm.
    - apply same_tree_scanned. exact Hsame.
    - apply scanned_paths_NoDup. exact Hwf. }
  clear Hscan1 Hscan2. subst self2. cbn [Py.bind].
  rewrite (build_same_tree d1 d2 Hsame Hwf). auto.
Qed.

Lemma listing_order_does_not_matter_witness :
  same_tree scenario_root scenario_root_relisted /\
  well_named scenario_root = true /\
  scan_and_build scenario_root "/r" = Py.Ok scenario_tree /\
  scan_and_build scenario_root_relisted "/r" = Py.Ok scenario_tree.
Proof.
  assert (Hsame : same_tree scenario_root scenario_root_relisted).
  { eapply same_listed.
    - apply Forall2_same_length_lookup_2; [reflexivity|].
      intros i a b Ha Hb. rewrite Ha in Hb. injection Hb as <-.
      split; [reflexivity|apply same_tree_refl].
    - apply perm_swap. }
  assert (Hwf : well_named scenario_root = true) by (vm_compute; reflexivity).
  assert (Hm : scan_and_build scenario_root "/r" = Py.Ok scenario_tree)
    by (vm_compute; reflexivity).
  split; [exact Hsame|]. split; [exact Hwf|]. split; [exact Hm|].
  exact (listing_order_does_not_matter scenario_root scenario_root_relisted
           "/r" scenario_tree Hsame Hwf Hm).
Defined.
